(** * A shallow embedding of the Tetris simulation core ([game.py])

    The embedding follows the Python source function by function.

    - Python lists are Rocq lists read with stdpp's lookup [l !! i]; an
      index that Python rejects with [IndexError] makes the operation
      return [None].  Every index that reaches a list in the source comes
      from a [range] or is guarded to be non-negative first, so indices are
      natural numbers and Python's negative-index wrap-around never applies.
    - A method that mutates [self] is a function from the state before the
      call to the state after it, in the [option] monad: [None] stands for
      an exception escaping the method (the process dies, no state is left).
    - [random.randint] and [random.choice] are replaced by explicit
      arguments: the caller supplies the values that the generator returns.
    - Elapsed time is an integer number of milliseconds.
    - The particle list is presentation only (floating point positions that
      no other field depends on) and is left out of the state, together
      with the pygame surfaces, fonts and clock. *)

From Stdlib Require Import ZArith Lia Sorted.
From stdpp Require Import base tactics option numbers list.

#[local] Set Warnings "-clear-no-such-hyp".

(** ** Python list primitives *)

Module Py.

(** [l[i] = v]: raises [IndexError] when [i] is not below [len(l)]. *)
Definition setitem {A} (l : list A) (i : nat) (v : A) : option (list A) :=
  if decide (i < length l) then Some (<[i := v]> l) else None.

(** [del l[i]]. *)
Definition delitem {A} (l : list A) (i : nat) : option (list A) :=
  if decide (i < length l) then Some (delete i l) else None.

(** [m[i][j]]. *)
Definition getitem2 {A} (m : list (list A)) (i j : nat) : option A :=
  row ← m !! i; row !! j.

(** [m[i][j] = v]: fetch row [i], store into it (the row is the same
    object afterwards, so the matrix sees the new entry). *)
Definition setitem2 {A} (m : list (list A)) (i j : nat) (v : A)
  : option (list (list A)) :=
  row ← m !! i;
  row' ← setitem row j v;
  setitem m i row'.

(** [l.insert(0, v)]. *)
Definition insert0 {A} (v : A) (l : list A) : list A := v :: l.

(** [for a in l: body], threading the mutated state [s]. *)
Fixpoint for_each {A S} (l : list A) (body : A → S → option S) (s : S)
  : option S :=
  match l with
  | [] => Some s
  | a :: l' => s' ← body a s; for_each l' body s'
  end.

(** [range(n)]. *)
Definition range (n : nat) : list nat := seq 0 n.

(** [sorted(l, reverse=True)] on integers, by insertion. *)
Fixpoint insert_desc (a : nat) (l : list nat) : list nat :=
  match l with
  | [] => [a]
  | b :: l' => if decide (b ≤ a) then a :: b :: l' else b :: insert_desc a l'
  end.

Definition sorted_reverse (l : list nat) : list nat :=
  foldr insert_desc [] l.

End Py.

(** ** Constants *)

Inductive Color := CYAN | YELLOW | MAGENTA | ORANGE | BLUE | GREEN | RED.

Definition GRID_WIDTH : Z := 10.
Definition GRID_HEIGHT : Z := 20.

(** A shape is a matrix of integers; a cell is set when it is not [0]. *)
Abbreviation Shape := (list (list Z)).

Definition TETROMINOS : list Shape :=
  [ [[1; 1; 1; 1]];
    [[1; 1]; [1; 1]];
    [[1; 1; 1]; [0; 1; 0]];
    [[1; 1; 1]; [1; 0; 0]];
    [[1; 1; 1]; [0; 0; 1]];
    [[1; 1; 0]; [0; 1; 1]];
    [[0; 1; 1]; [1; 1; 0]] ]%Z.

Definition TETROMINO_COLORS : list Color :=
  [CYAN; YELLOW; MAGENTA; ORANGE; BLUE; GREEN; RED].

(** The value of [random.randint(0, len(TETROMINOS) - 1)]: one of the seven
    indices, named after the comments of [TETROMINOS]. *)
Inductive ShapeIdx := I_ | O_ | T_ | L_ | J_ | S_ | Z_.

Definition shape_index (i : ShapeIdx) : nat :=
  match i with
  | I_ => 0 | O_ => 1 | T_ => 2 | L_ => 3 | J_ => 4 | S_ => 5 | Z_ => 6
  end.

(** ** class Tetromino *)

Module Tetromino.

Record t := Mk {
  x : Z;
  y : Z;
  shape : Shape;
  color : Color;
  rotation : Z
}.

Definition set_xy (x' y' : Z) (p : t) : t :=
  Mk x' y' (shape p) (color p) (rotation p).

Definition set_shape (sh : Shape) (p : t) : t :=
  Mk (x p) (y p) sh (color p) (rotation p).

(** [__init__]: both table lookups are in range for every [ShapeIdx]
    (lemma [init_lookup] below), so the defaults are never used. *)
Definition init (x y : Z) (shape_idx : ShapeIdx) : t :=
  Mk x y
     (nth (shape_index shape_idx) TETROMINOS [])
     (nth (shape_index shape_idx) TETROMINO_COLORS CYAN)
     0.

(** The body of [rotate] on the shape alone. *)
Definition rotate_shape (shape : Shape) : option Shape :=
  let rows := length shape in
  row0 ← shape !! 0;
  let cols := length row0 in
  let rotated := replicate cols (replicate rows 0%Z) in
  Py.for_each (Py.range rows) (λ r,
    Py.for_each (Py.range cols) (λ c rotated,
      v ← Py.getitem2 shape r c;
      Py.setitem2 rotated c (rows - 1 - r) v)) rotated.

Definition rotate (p : t) : option t :=
  rotated ← rotate_shape (shape p);
  Some (set_shape rotated p).

Definition get_positions (p : t) : option (list (Z * Z)) :=
  Py.for_each (Py.range (length (shape p))) (λ r positions,
    row0 ← shape p !! 0;
    Py.for_each (Py.range (length row0)) (λ c positions,
      v ← Py.getitem2 (shape p) r c;
      if decide (v ≠ 0%Z)
      then Some (positions ++ [(x p + Z.of_nat c, y p + Z.of_nat r)%Z])
      else Some positions) positions) [].

End Tetromino.

(** ** class TetrisGame *)

(** A grid cell holds [0] (here [None]) or the colour of a placed block. *)
Abbreviation Cell := (option Color).
Abbreviation Grid := (list (list Cell)).

(** Truth value of a cell: a colour tuple is true, [0] is false. *)
Definition truthy (c : Cell) : bool :=
  match c with Some _ => true | None => false end.

(** The values drawn from [random] during one call from the main loop. *)
Record Draws := MkDraws {
  shape_draw : ShapeIdx;      (* [random.randint(0, len(TETROMINOS) - 1)] *)
  shape_draw' : ShapeIdx;     (* the second such draw; only [__init__] has one *)
  choice_draw : nat;          (* selects the element [random.choice] returns *)
  color_draw : Color;         (* [random.choice(TETROMINO_COLORS)] *)
  interval_draw : nat         (* selects the value of [randint(15000, 30000)] *)
}.

(** [random.randint(15000, 30000)]. *)
Definition random_interval (r : nat) : Z := (15000 + Z.of_nat r mod 15001)%Z.

Module TetrisGame.

Record t := Mk {
  grid : Grid;
  current_piece : option Tetromino.t;
  next_piece : option Tetromino.t;
  score : Z;
  lines_cleared : Z;
  level : Z;
  game_over : bool;
  paused : bool;
  fall_time : Z;
  fall_speed : Z;
  random_block_time : Z;
  random_block_interval : Z;
  random_blocks_enabled : bool;
  lines_clearing : list nat;
  clear_animation_time : Z
}.

(** Set once in [__init__] and never assigned again. *)
Definition clear_animation_duration : Z := 800.

Definition set_grid (v : Grid) (g : t) : t :=
  Mk v (current_piece g) (next_piece g) (score g) (lines_cleared g)
     (level g) (game_over g) (paused g) (fall_time g) (fall_speed g)
     (random_block_time g) (random_block_interval g)
     (random_blocks_enabled g) (lines_clearing g) (clear_animation_time g).

Definition set_current_piece (v : option Tetromino.t) (g : t) : t :=
  Mk (grid g) v (next_piece g) (score g) (lines_cleared g)
     (level g) (game_over g) (paused g) (fall_time g) (fall_speed g)
     (random_block_time g) (random_block_interval g)
     (random_blocks_enabled g) (lines_clearing g) (clear_animation_time g).

Definition set_next_piece (v : option Tetromino.t) (g : t) : t :=
  Mk (grid g) (current_piece g) v (score g) (lines_cleared g)
     (level g) (game_over g) (paused g) (fall_time g) (fall_speed g)
     (random_block_time g) (random_block_interval g)
     (random_blocks_enabled g) (lines_clearing g) (clear_animation_time g).

Definition set_game_over (v : bool) (g : t) : t :=
  Mk (grid g) (current_piece g) (next_piece g) (score g) (lines_cleared g)
     (level g) v (paused g) (fall_time g) (fall_speed g)
     (random_block_time g) (random_block_interval g)
     (random_blocks_enabled g) (lines_clearing g) (clear_animation_time g).

Definition set_paused (v : bool) (g : t) : t :=
  Mk (grid g) (current_piece g) (next_piece g) (score g) (lines_cleared g)
     (level g) (game_over g) v (fall_time g) (fall_speed g)
     (random_block_time g) (random_block_interval g)
     (random_blocks_enabled g) (lines_clearing g) (clear_animation_time g).

Definition set_fall_time (v : Z) (g : t) : t :=
  Mk (grid g) (current_piece g) (next_piece g) (score g) (lines_cleared g)
     (level g) (game_over g) (paused g) v (fall_speed g)
     (random_block_time g) (random_block_interval g)
     (random_blocks_enabled g) (lines_clearing g) (clear_animation_time g).

Definition set_random_block_time (v : Z) (g : t) : t :=
  Mk (grid g) (current_piece g) (next_piece g) (score g) (lines_cleared g)
     (level g) (game_over g) (paused g) (fall_time g) (fall_speed g)
     v (random_block_interval g)
     (random_blocks_enabled g) (lines_clearing g) (clear_animation_time g).

Definition set_random_block_interval (v : Z) (g : t) : t :=
  Mk (grid g) (current_piece g) (next_piece g) (score g) (lines_cleared g)
     (level g) (game_over g) (paused g) (fall_time g) (fall_speed g)
     (random_block_time g) v
     (random_blocks_enabled g) (lines_clearing g) (clear_animation_time g).

Definition set_random_blocks_enabled (v : bool) (g : t) : t :=
  Mk (grid g) (current_piece g) (next_piece g) (score g) (lines_cleared g)
     (level g) (game_over g) (paused g) (fall_time g) (fall_speed g)
     (random_block_time g) (random_block_interval g)
     v (lines_clearing g) (clear_animation_time g).

Definition set_lines_clearing (v : list nat) (g : t) : t :=
  Mk (grid g) (current_piece g) (next_piece g) (score g) (lines_cleared g)
     (level g) (game_over g) (paused g) (fall_time g) (fall_speed g)
     (random_block_time g) (random_block_interval g)
     (random_blocks_enabled g) v (clear_animation_time g).

Definition set_clear_animation_time (v : Z) (g : t) : t :=
  Mk (grid g) (current_piece g) (next_piece g) (score g) (lines_cleared g)
     (level g) (game_over g) (paused g) (fall_time g) (fall_speed g)
     (random_block_time g) (random_block_interval g)
     (random_blocks_enabled g) (lines_clearing g) v.

(** *** spawn_new_piece *)

(** The loop of [is_valid_position] over the positions of the piece; the
    [or] and [and] of the test are evaluated left to right, so the grid
    is read only for [0 <= x < GRID_WIDTH] and [0 <= y < GRID_HEIGHT]. *)
Fixpoint positions_valid (grid : Grid) (positions : list (Z * Z))
  : option bool :=
  match positions with
  | [] => Some true
  | (x, y) :: rest =>
      if ((x <? 0) || (GRID_WIDTH <=? x) || (GRID_HEIGHT <=? y))%Z
      then Some false
      else if (0 <=? y)%Z then
        cell ← Py.getitem2 grid (Z.to_nat y) (Z.to_nat x);
        if truthy cell then Some false else positions_valid grid rest
      else positions_valid grid rest
  end.

Definition is_valid_position (g : t) (piece : Tetromino.t) : option bool :=
  positions ← Tetromino.get_positions piece;
  positions_valid (grid g) positions.

Definition spawn_new_piece (shape_idx : ShapeIdx) (g : t) : option t :=
  match next_piece g with
  | None =>
      Some (set_next_piece
              (Some (Tetromino.init (GRID_WIDTH / 2 - 1) 0 shape_idx)) g)
  | Some next =>
      let g1 := set_current_piece (Some next) g in
      let g2 := set_next_piece
                  (Some (Tetromino.init (GRID_WIDTH / 2 - 1) 0 shape_idx)) g1 in
      valid ← is_valid_position g2 next;
      if (valid : bool) then Some g2 else Some (set_game_over true g2)
  end.

(** *** finish_line_clear *)

Definition finish_line_clear (g : t) : option t :=
  match lines_clearing g with
  | [] => Some g
  | _ :: _ =>
      grid' ← Py.for_each (Py.sorted_reverse (lines_clearing g))
               (λ y grid,
                  grid1 ← Py.delitem grid y;
                  Some (Py.insert0 (replicate (Z.to_nat GRID_WIDTH) None) grid1))
               (grid g);
      let lines_count := Z.of_nat (length (lines_clearing g)) in
      let lines_cleared' := (lines_cleared g + lines_count)%Z in
      let score' := (score g + lines_count * 100 * level g)%Z in
      let level' := (lines_cleared' / 10 + 1)%Z in
      let fall_speed' := Z.max 100 (1000 - (level' - 1) * 100) in
      Some (Mk grid' (current_piece g) (next_piece g) score' lines_cleared'
               level' (game_over g) (paused g) (fall_time g) fall_speed'
               (random_block_time g) (random_block_interval g)
               (random_blocks_enabled g) [] 0)
  end.

(** *** clear_lines *)

(** The scan [for y in range(GRID_HEIGHT): if all(self.grid[y])]. *)
Definition full_rows (grid : Grid) : option (list nat) :=
  Py.for_each (Py.range (Z.to_nat GRID_HEIGHT)) (λ y lines_to_clear,
    row ← grid !! y;
    if forallb truthy row
    then Some (lines_to_clear ++ [y])
    else Some lines_to_clear) [].

Definition clear_lines (g : t) : option t :=
  lines_to_clear ← full_rows (grid g);
  match lines_to_clear with
  | _ :: _ =>
      Some (set_clear_animation_time 0 (set_lines_clearing lines_to_clear g))
  | [] => finish_line_clear g
  end.

(** *** place_piece *)

(** The loop writing the piece into the grid. *)
Definition commit (color : Color) (positions : list (Z * Z)) (grid : Grid)
  : option Grid :=
  Py.for_each positions (λ '(x, y) grid,
    if ((0 <=? y) && (y <? GRID_HEIGHT) && (0 <=? x) && (x <? GRID_WIDTH))%Z
    then Py.setitem2 grid (Z.to_nat y) (Z.to_nat x) (Some color)
    else Some grid) grid.

Definition place_piece (shape_idx : ShapeIdx) (g : t) : option t :=
  piece ← current_piece g;
  positions ← Tetromino.get_positions piece;
  grid' ← commit (Tetromino.color piece) positions (grid g);
  g1 ← clear_lines (set_grid grid' g);
  spawn_new_piece shape_idx g1.

(** *** move_piece, rotate_piece, hard_drop *)

Definition move_piece (dx dy : Z) (shape_idx : ShapeIdx) (g : t)
  : option (bool * t) :=
  match current_piece g with
  | None => Some (false, g)
  | Some piece =>
      let old_x := Tetromino.x piece in
      let old_y := Tetromino.y piece in
      let moved := Tetromino.set_xy (old_x + dx) (old_y + dy) piece in
      let g1 := set_current_piece (Some moved) g in
      valid ← is_valid_position g1 moved;
      if (valid : bool) then Some (true, g1)
      else
        let g2 := set_current_piece
                    (Some (Tetromino.set_xy old_x old_y moved)) g1 in
        if (0 <? dy)%Z
        then g3 ← place_piece shape_idx g2; Some (false, g3)
        else Some (false, g2)
  end.

Definition rotate_piece (g : t) : option t :=
  match current_piece g with
  | None => Some g
  | Some piece =>
      let old_shape := Tetromino.shape piece in
      rotated ← Tetromino.rotate piece;
      let g1 := set_current_piece (Some rotated) g in
      valid ← is_valid_position g1 rotated;
      if (valid : bool) then Some g1
      else Some (set_current_piece
                   (Some (Tetromino.set_shape old_shape rotated)) g1)
  end.

(** How a call that contains a loop ends: it returns, an exception
    escapes, or the loop is still running after [fuel] iterations. *)
Inductive outcome :=
| Returned (g : t)
| Raised
| Running.

(** [while self.move_piece(0, 1): pass]. *)
Fixpoint hard_drop (fuel : nat) (shape_idx : ShapeIdx) (g : t) : outcome :=
  match fuel with
  | O => Running
  | S fuel' =>
      match move_piece 0 1 shape_idx g with
      | None => Raised
      | Some (true, g') => hard_drop fuel' shape_idx g'
      | Some (false, g') => Returned g'
      end
  end.

(** *** spawn_random_block *)

(** The inner loop with its [break]: the first row of column [x] that
    holds a block, [GRID_HEIGHT] when the column is empty. *)
Fixpoint highest_block (grid : Grid) (x : nat) (ys : list nat) : option nat :=
  match ys with
  | [] => Some (Z.to_nat GRID_HEIGHT)
  | y :: ys' =>
      cell ← Py.getitem2 grid y x;
      if truthy cell then Some y else highest_block grid x ys'
  end.

Definition valid_positions (grid : Grid) : option (list (nat * nat)) :=
  Py.for_each (Py.range (Z.to_nat GRID_WIDTH)) (λ x valid_positions,
    highest_block_y ← highest_block grid x (Py.range (Z.to_nat GRID_HEIGHT));
    if decide (0 < highest_block_y)
    then Some (valid_positions ++ [(x, highest_block_y - 1)])
    else Some valid_positions) [].

Definition spawn_random_block (choice : nat) (color : Color) (g : t)
  : option t :=
  positions ← valid_positions (grid g);
  match positions with
  | [] => Some g
  | _ :: _ =>
      '(x, y) ← positions !! (choice mod length positions);
      grid' ← Py.setitem2 (grid g) y x (Some color);
      Some (set_grid grid' g)
  end.

(** *** update *)

(** The three blocks of [update] that touch the game state, in the order
    of the source; the block that moves the particles is left out. *)

(** [self.fall_time += dt] and the automatic downward move. *)
Definition update_fall (dt : Z) (d : Draws) (g : t) : option t :=
  let g1 := set_fall_time (fall_time g + dt) g in
  if (fall_speed g1 <=? fall_time g1)%Z
  then '(_, g2) ← move_piece 0 1 (shape_draw d) g1;
       Some (set_fall_time 0 g2)
  else Some g1.

(** "Handle line clearing animation". *)
Definition update_clear (dt : Z) (g : t) : option t :=
  match lines_clearing g with
  | [] => Some g
  | _ :: _ =>
      let g1 := set_clear_animation_time (clear_animation_time g + dt) g in
      if (clear_animation_duration <=? clear_animation_time g1)%Z
      then finish_line_clear g1
      else Some g1
  end.

(** "Spawn random blocks (only if enabled)". *)
Definition update_random (dt : Z) (d : Draws) (g : t) : option t :=
  if random_blocks_enabled g
  then
    let g1 := set_random_block_time (random_block_time g + dt) g in
    if (random_block_interval g1 <=? random_block_time g1)%Z
    then
      g2 ← spawn_random_block (choice_draw d) (color_draw d) g1;
      Some (set_random_block_interval (random_interval (interval_draw d))
              (set_random_block_time 0 g2))
    else Some g1
  else Some g.

Definition update (dt : Z) (d : Draws) (g : t) : option t :=
  if game_over g || paused g then Some g
  else
    g1 ← update_fall dt d g;
    g2 ← update_clear dt g1;
    update_random dt d g2.

(** *** __init__ *)

Definition init (d : Draws) : option t :=
  let g0 :=
    Mk (replicate (Z.to_nat GRID_HEIGHT) (replicate (Z.to_nat GRID_WIDTH) None))
       None None 0 0 1 false false 0 1000 0
       (random_interval (interval_draw d)) false [] 0 in
  g1 ← spawn_new_piece (shape_draw d) g0;
  spawn_new_piece (shape_draw' d) g1.

(** *** handle_events, one event at a time *)

Inductive Key :=
| K_r | K_p | K_b | K_LEFT | K_RIGHT | K_DOWN | K_UP | K_SPACE.

Definition of_option (o : option t) : outcome :=
  match o with Some g => Returned g | None => Raised end.

Definition handle_key (fuel : nat) (key : Key) (d : Draws) (g : t) : outcome :=
  match key with
  | K_r => of_option (init d)
  | K_p => Returned (set_paused (negb (paused g)) g)
  | K_b => Returned (set_random_blocks_enabled
                       (negb (random_blocks_enabled g)) g)
  | _ =>
      if negb (game_over g) && negb (paused g) then
        match key with
        | K_LEFT => of_option (snd <$> move_piece (-1) 0 (shape_draw d) g)
        | K_RIGHT => of_option (snd <$> move_piece 1 0 (shape_draw d) g)
        | K_DOWN => of_option (snd <$> move_piece 0 1 (shape_draw d) g)
        | K_UP => of_option (rotate_piece g)
        | K_SPACE => hard_drop fuel (shape_draw d) g
        | _ => Returned g
        end
      else Returned g
  end.

(** What the main loop feeds the game: key presses and [update(dt)]. *)
Inductive Input :=
| KeyDown (key : Key)
| Tick (dt : Z).

Definition run_input (fuel : nat) (i : Input) (d : Draws) (g : t) : outcome :=
  match i with
  | KeyDown key => handle_key fuel key d g
  | Tick dt => of_option (update dt d g)
  end.

End TetrisGame.

(** * Specification vocabulary *)

(** ** Matrices *)

(** [rect rows cols m]: [m] has [rows] rows of [cols] entries each. *)
Definition rect {A} (rows cols : nat) (m : list (list A)) : Prop :=
  length m = rows ∧ Forall (λ row, length row = cols) m.

(** [sumn n f] is [f 0 + ... + f (n - 1)]. *)
Fixpoint sumn (n : nat) (f : nat → nat) : nat :=
  match n with
  | O => 0
  | S n' => sumn n' f + f n'
  end.

(** A cell of a shape is set when it is a non-zero integer. *)
Definition is_set (o : option Z) : nat :=
  match o with
  | Some v => if decide (v ≠ 0%Z) then 1 else 0
  | None => 0
  end.

Definition count_row (row : list Z) : nat :=
  length (filter (λ v, v ≠ 0%Z) row).

(** The number of set cells of a shape. *)
Definition count_set (shape : Shape) : nat :=
  sum_list_with count_row shape.

(** ** Pieces and the playfield *)

(** The playfield has [GRID_HEIGHT] rows of [GRID_WIDTH] cells. *)
Definition wf_grid (grid : Grid) : Prop :=
  rect (Z.to_nat GRID_HEIGHT) (Z.to_nat GRID_WIDTH) grid.

(** [(x, y)] is an occupied cell of the piece: some set entry [shape[r][c]]
    lies at [x = piece.x + c], [y = piece.y + r]. *)
Definition occupied (piece : Tetromino.t) (x y : Z) : Prop :=
  ∃ r c v, Py.getitem2 (Tetromino.shape piece) r c = Some v ∧ v ≠ 0%Z ∧
           x = (Tetromino.x piece + Z.of_nat c)%Z ∧
           y = (Tetromino.y piece + Z.of_nat r)%Z.

(** [grid[y][x]] exists and holds a block. *)
Definition filled (grid : Grid) (x y : Z) : Prop :=
  (0 ≤ x)%Z ∧ (0 ≤ y)%Z ∧
  ∃ color, Py.getitem2 grid (Z.to_nat y) (Z.to_nat x) = Some (Some color).

(** The test of [is_valid_position] on one cell. *)
Definition blocked (grid : Grid) (x y : Z) : Prop :=
  (x < 0)%Z ∨ (GRID_WIDTH ≤ x)%Z ∨ (GRID_HEIGHT ≤ y)%Z ∨
  ((0 ≤ y)%Z ∧ filled grid x y).

(** Inside the playfield. *)
Definition in_field (x y : Z) : Prop :=
  (0 ≤ x < GRID_WIDTH)%Z ∧ (0 ≤ y < GRID_HEIGHT)%Z.

(** Row [y] is fully occupied: each of its [GRID_WIDTH] cells holds a block. *)
Definition full_row (grid : Grid) (y : nat) : Prop :=
  ∀ x, x < Z.to_nat GRID_WIDTH →
       ∃ color, Py.getitem2 grid y x = Some (Some color).

(** The fresh row that [finish_line_clear] inserts. *)
Definition empty_row : list Cell := replicate (Z.to_nat GRID_WIDTH) None.

(** A piece as the game creates them: a non-empty rectangular shape with
    at least one set cell. *)
Definition wf_piece (piece : Tetromino.t) : Prop :=
  ∃ rows cols, 0 < rows ∧ 0 < cols ∧
               rect rows cols (Tetromino.shape piece) ∧
               0 < count_set (Tetromino.shape piece).

(** No block disappears from [grid] to [grid']. *)
Definition blocks_kept (grid grid' : Grid) : Prop :=
  ∀ r c color, Py.getitem2 grid r c = Some (Some color) →
               ∃ color', Py.getitem2 grid' r c = Some (Some color').

(** The rows recorded in [lines_clearing] are rows of the playfield and
    are fully occupied. *)
Definition pending_full (g : TetrisGame.t) : Prop :=
  ∀ y, y ∈ TetrisGame.lines_clearing g →
       y < Z.to_nat GRID_HEIGHT ∧ full_row (TetrisGame.grid g) y.

(** The invariant of a running session. *)
Definition session_inv (g : TetrisGame.t) : Prop :=
  wf_grid (TetrisGame.grid g) ∧
  (∃ piece, TetrisGame.current_piece g = Some piece ∧ wf_piece piece) ∧
  (∃ piece, TetrisGame.next_piece g = Some piece ∧ wf_piece piece) ∧
  pending_full g.

(** The piece translated down by [d] rows. *)
Definition shift_down (d : nat) (piece : Tetromino.t) : Tetromino.t :=
  Tetromino.set_xy (Tetromino.x piece) (Tetromino.y piece + Z.of_nat d) piece.

(** [d] downward steps succeed one after the other and the next one is
    refused. *)
Definition lands_at (g : TetrisGame.t) (piece : Tetromino.t) (d : nat) : Prop :=
  (∀ i, 1 ≤ i ≤ d →
        TetrisGame.is_valid_position g (shift_down i piece) = Some true) ∧
  TetrisGame.is_valid_position g (shift_down (d + 1) piece) = Some false.

(** ** Sessions *)

(** The main loop measures [dt] as a difference of clock readings. *)
Definition valid_input (i : TetrisGame.Input) : Prop :=
  match i with
  | TetrisGame.Tick dt => (0 ≤ dt)%Z
  | TetrisGame.KeyDown _ => True
  end.

(** The states of a session: the state that [__init__] builds, and every
    state that a key press or an [update] call returns from one of them. *)
Inductive reachable : TetrisGame.t → Prop :=
| reachable_init d g :
    TetrisGame.init d = Some g → reachable g
| reachable_step fuel i d g g' :
    reachable g → valid_input i →
    TetrisGame.run_input fuel i d g = TetrisGame.Returned g' →
    reachable g'.

(** A sequence of inputs, each with the random draws made while it is
    handled. *)
Fixpoint run_trace (fuel : nat) (trace : list (TetrisGame.Input * Draws))
    (g : TetrisGame.t) : TetrisGame.outcome :=
  match trace with
  | [] => TetrisGame.Returned g
  | (i, d) :: trace' =>
      match TetrisGame.run_input fuel i d g with
      | TetrisGame.Returned g' => run_trace fuel trace' g'
      | o => o
      end
  end.

(** From [g] to [g'] no block disappears, no pending row is forgotten and
    no compaction is counted. *)
Definition quiet (g g' : TetrisGame.t) : Prop :=
  blocks_kept (TetrisGame.grid g) (TetrisGame.grid g') ∧
  (∀ y, y ∈ TetrisGame.lines_clearing g → y ∈ TetrisGame.lines_clearing g') ∧
  TetrisGame.lines_cleared g' = TetrisGame.lines_cleared g.

(** ** Concrete sessions *)

(** The state that [__init__] returns (lemma [init_fresh]). *)
Definition fresh (d : Draws) : TetrisGame.t :=
  TetrisGame.Mk
    (replicate (Z.to_nat GRID_HEIGHT) (replicate (Z.to_nat GRID_WIDTH) None))
    (Some (Tetromino.init (GRID_WIDTH / 2 - 1) 0 (shape_draw d)))
    (Some (Tetromino.init (GRID_WIDTH / 2 - 1) 0 (shape_draw' d)))
    0 0 1 false false 0 1000 0 (random_interval (interval_draw d)) false [] 0.

(** The state after a trace, when every call of the trace returns. *)
Definition after (trace : list (TetrisGame.Input * Draws)) (g : TetrisGame.t)
  : TetrisGame.t :=
  match run_trace 32 trace g with
  | TetrisGame.Returned g' => g'
  | _ => g
  end.

Module Example.
Import TetrisGame.

(** Draws in which only the next shape matters. *)
Definition draw (next : ShapeIdx) : Draws := MkDraws next next 0 RED 0.

Definition press (key : Key) : Input * Draws := (KeyDown key, draw I_).

(** A key press during which the piece lands and [next] is drawn. *)
Definition land (key : Key) (next : ShapeIdx) : Input * Draws :=
  (KeyDown key, draw next).

Definition wait (dt : Z) : Input * Draws := (Tick dt, draw I_).

(** Two I pieces and an O piece fill the bottom row. *)
Definition fill_bottom_row : list (Input * Draws) :=
  replicate 4 (press K_LEFT) ++ [land K_SPACE O_] ++
  [land K_SPACE T_] ++
  replicate 4 (press K_RIGHT) ++ [land K_SPACE L_].

(** The state in which row 19 is pending, a T piece falls and an L piece
    is next. *)
Definition clearing : t := after fill_bottom_row (fresh (draw I_)).

(** From [clearing], half a second passes and the T piece is moved down
    until it rests on the stack. *)
Definition resting : t :=
  after (wait 500 :: replicate 17 (press K_DOWN)) clearing.

(** Five O pieces side by side fill the two bottom rows. *)
Definition fill_two_rows : list (Input * Draws) :=
  replicate 4 (press K_LEFT) ++ [land K_SPACE O_] ++
  replicate 2 (press K_LEFT) ++ [land K_SPACE O_] ++
  [land K_SPACE O_] ++
  replicate 2 (press K_RIGHT) ++ [land K_SPACE O_] ++
  replicate 4 (press K_RIGHT) ++ [land K_SPACE T_].

(** Rows 18 and 19 are pending. *)
Definition two_pending : t := after fill_two_rows (fresh (draw O_)).

(** A vertical I in column 0, O pieces in columns 1 to 8 and a vertical I
    in column 9: rows 18 and 19 are full, rows 16 and 17 hold the upper
    halves of the two I pieces. *)
Definition fill_two_rows_under_blocks : list (Input * Draws) :=
  [press K_UP] ++ replicate 4 (press K_LEFT) ++ [land K_SPACE O_] ++
  replicate 3 (press K_LEFT) ++ [land K_SPACE O_] ++
  replicate 1 (press K_LEFT) ++ [land K_SPACE O_] ++
  replicate 1 (press K_RIGHT) ++ [land K_SPACE I_] ++
  replicate 3 (press K_RIGHT) ++ [land K_SPACE T_] ++
  [press K_UP] ++ replicate 5 (press K_RIGHT) ++ [land K_SPACE L_].

Definition two_pending_under_blocks : t :=
  after fill_two_rows_under_blocks (fresh (MkDraws I_ O_ 0 RED 0)).

(** A vertical I in column 0 carries a horizontal I over columns 0 to 3,
    which leaves a cave below columns 1 to 3; an O piece hangs over
    columns 1 and 2. *)
Definition build_cave : list (Input * Draws) :=
  [press K_UP] ++ replicate 4 (press K_LEFT) ++ [land K_SPACE O_] ++
  replicate 4 (press K_LEFT) ++ [land K_SPACE T_] ++
  replicate 3 (press K_LEFT).

Definition over_cave : t := after build_cave (fresh (draw I_)).

(** The O piece after a hard drop from there. *)
Definition dropped : t := after [land K_SPACE J_] over_cave.

(** Ten O pieces dropped in the middle reach the top. *)
Definition stack_to_top : list (Input * Draws) :=
  replicate 10 (land K_SPACE O_).

Definition topped_out : t := after stack_to_top (fresh (draw O_)).

(** A vertical I piece against the right wall. *)
Definition at_right_wall : t :=
  after (press K_UP :: replicate 5 (press K_RIGHT)) (fresh (draw I_)).

End Example.

(** ** The claims that the code does not satisfy, as the spec states them *)

(** C5 as stated.  [d] is the largest offset at which the piece translated
    down by [d] is valid while the translation by [d + 1] is not. *)
Definition deepest_landing (g : TetrisGame.t) (piece : Tetromino.t) (d : nat)
  : Prop :=
  TetrisGame.is_valid_position g (shift_down d piece) = Some true ∧
  TetrisGame.is_valid_position g (shift_down (d + 1) piece) = Some false ∧
  ∀ d', TetrisGame.is_valid_position g (shift_down d' piece) = Some true →
        TetrisGame.is_valid_position g (shift_down (d' + 1) piece) = Some false →
        d' ≤ d.

(** [hard_drop] returns, having placed the piece at the deepest landing. *)
Definition hard_drop_reaches_deepest_landing : Prop :=
  ∀ g piece shape_idx,
    reachable g → TetrisGame.current_piece g = Some piece →
    ∃ fuel d g',
      TetrisGame.hard_drop fuel shape_idx g = TetrisGame.Returned g' ∧
      deepest_landing g piece d ∧
      TetrisGame.place_piece shape_idx
        (TetrisGame.set_current_piece (Some (shift_down d piece)) g) = Some g'.

(** C1 as stated.  While rows are pending before and after a tick or a key
    press (a restart apart, whose purpose is a new pair of pieces), the next
    piece is not replaced; a spawn always replaces it. *)
Definition no_spawn_while_clearing : Prop :=
  ∀ g fuel i d g',
    reachable g → TetrisGame.lines_clearing g ≠ [] →
    valid_input i → i ≠ TetrisGame.KeyDown TetrisGame.K_r →
    TetrisGame.run_input fuel i d g = TetrisGame.Returned g' →
    TetrisGame.lines_clearing g' ≠ [] →
    TetrisGame.next_piece g' = TetrisGame.next_piece g.

(** C10 as stated.  Pending rows are rows of the playfield and are full,
    and every input either leaves all blocks and all pending rows in place
    or performs a compaction, which [lines_cleared] counts. *)
Definition pending_rows_kept_until_compaction : Prop :=
  (∀ g, reachable g → pending_full g) ∧
  (∀ g fuel i d g',
     reachable g → valid_input i →
     TetrisGame.run_input fuel i d g = TetrisGame.Returned g' →
     quiet g g' ∨
     (TetrisGame.lines_cleared g < TetrisGame.lines_cleared g')%Z).

(** C2, the compaction in the spec's words: the listed rows are deleted,
    the remaining rows keep their order, and one empty row per deleted row
    is put on top. *)
Fixpoint drop_rows (lines : list nat) (y : nat) (grid : Grid) : Grid :=
  match grid with
  | [] => []
  | row :: rest =>
      if decide (y ∈ lines) then drop_rows lines (S y) rest
      else row :: drop_rows lines (S y) rest
  end.

Definition remove_rows (lines : list nat) (grid : Grid) : Grid :=
  replicate (length lines) empty_row ++ drop_rows lines 0 grid.


(** * Further vocabulary *)

(** ** The positions of a piece *)

(** The set entries of row [r] of the shape, from left to right, at their
    grid coordinates. *)
Definition row_cells (piece : Tetromino.t) (cols r : nat) : list (Z * Z) :=
  c ← seq 0 cols;
  match Py.getitem2 (Tetromino.shape piece) r c with
  | Some v =>
      if decide (v ≠ 0%Z)
      then [(Tetromino.x piece + Z.of_nat c, Tetromino.y piece + Z.of_nat r)%Z]
      else []
  | None => []
  end.

(** Row by row, from the top. *)
Definition cells (piece : Tetromino.t) (rows cols : nat) : list (Z * Z) :=
  r ← seq 0 rows; row_cells piece cols r.

(** Translation of a position. *)
Definition translate (dx dy : Z) (p : Z * Z) : Z * Z :=
  ((p.1 + dx)%Z, (p.2 + dy)%Z).

(** ** What an operation leaves alone *)

(** The piece [p'] is the piece [p] moved, or rotated once in place. *)
Definition piece_step (p p' : Tetromino.t) : Prop :=
  Tetromino.color p' = Tetromino.color p ∧
  Tetromino.rotation p' = Tetromino.rotation p ∧
  (Tetromino.shape p' = Tetromino.shape p ∨
   (Tetromino.rotate_shape (Tetromino.shape p) = Some (Tetromino.shape p') ∧
    Tetromino.x p' = Tetromino.x p ∧ Tetromino.y p' = Tetromino.y p)).

(** Score, level, speed, flags and timers are those of [g]; the animation
    clock and the pending rows are those of [g], or the clock is back at 0
    with rows pending. *)
Definition bookkeeping_kept (g g' : TetrisGame.t) : Prop :=
  TetrisGame.score g' = TetrisGame.score g ∧
  TetrisGame.lines_cleared g' = TetrisGame.lines_cleared g ∧
  TetrisGame.level g' = TetrisGame.level g ∧
  TetrisGame.fall_speed g' = TetrisGame.fall_speed g ∧
  TetrisGame.paused g' = TetrisGame.paused g ∧
  TetrisGame.fall_time g' = TetrisGame.fall_time g ∧
  TetrisGame.random_block_time g' = TetrisGame.random_block_time g ∧
  TetrisGame.random_block_interval g' = TetrisGame.random_block_interval g ∧
  TetrisGame.random_blocks_enabled g' = TetrisGame.random_blocks_enabled g ∧
  ((TetrisGame.clear_animation_time g' = TetrisGame.clear_animation_time g ∧
    TetrisGame.lines_clearing g' = TetrisGame.lines_clearing g) ∨
   (TetrisGame.clear_animation_time g' = 0%Z ∧
    TetrisGame.lines_clearing g' ≠ [])).

(** The current piece was moved or rotated and nothing else changed. *)
Definition piece_changed (g g' : TetrisGame.t) : Prop :=
  TetrisGame.grid g' = TetrisGame.grid g ∧
  TetrisGame.next_piece g' = TetrisGame.next_piece g ∧
  TetrisGame.game_over g' = TetrisGame.game_over g ∧
  TetrisGame.lines_clearing g' = TetrisGame.lines_clearing g ∧
  TetrisGame.clear_animation_time g' = TetrisGame.clear_animation_time g ∧
  ∃ p p', TetrisGame.current_piece g = Some p ∧
          TetrisGame.current_piece g' = Some p' ∧ piece_step p p'.

(** The current piece was placed and the next piece took its place. *)
Definition piece_placed (g g' : TetrisGame.t) : Prop :=
  TetrisGame.current_piece g' = TetrisGame.next_piece g ∧
  (∃ shape_idx, TetrisGame.next_piece g' =
                Some (Tetromino.init (GRID_WIDTH / 2 - 1) 0 shape_idx)) ∧
  ∃ promoted valid,
    TetrisGame.current_piece g' = Some promoted ∧
    TetrisGame.is_valid_position g' promoted = Some valid ∧
    TetrisGame.game_over g' =
      (if valid then TetrisGame.game_over g else true).

(** ** Bookkeeping of a session *)

(** Score and line count are not negative, and level and speed are the
    functions of the line count that [finish_line_clear] computes. *)
Definition stats_ok (g : TetrisGame.t) : Prop :=
  (0 ≤ TetrisGame.score g)%Z ∧
  (0 ≤ TetrisGame.lines_cleared g)%Z ∧
  TetrisGame.level g = (TetrisGame.lines_cleared g / 10 + 1)%Z ∧
  TetrisGame.fall_speed g =
    Z.max 100 (1000 - (TetrisGame.level g - 1) * 100).

(** The three timers stay below their thresholds. *)
Definition timers_ok (g : TetrisGame.t) : Prop :=
  (0 ≤ TetrisGame.clear_animation_time g
     < TetrisGame.clear_animation_duration)%Z ∧
  (TetrisGame.lines_clearing g = [] →
   TetrisGame.clear_animation_time g = 0%Z) ∧
  (0 ≤ TetrisGame.fall_time g < 1000)%Z ∧
  (0 ≤ TetrisGame.random_block_time g < TetrisGame.random_block_interval g)%Z ∧
  (15000 ≤ TetrisGame.random_block_interval g ≤ 30000)%Z.

(** [shape'] is [shape] rotated some number of times. *)
Inductive turned (shape : Shape) : Shape → Prop :=
| turned_zero : turned shape shape
| turned_once shape1 shape2 :
    turned shape shape1 →
    Tetromino.rotate_shape shape1 = Some shape2 →
    turned shape shape2.

(** The piece is one of the seven tetrominoes, in its colour, rotated some
    number of times, with its origin at or below row 0. *)
Definition tetromino (piece : Tetromino.t) : Prop :=
  ∃ shape_idx,
    TETROMINOS !! shape_index shape_idx = Some (Tetromino.shape (Tetromino.init 0 0 shape_idx)) ∧
    Tetromino.color piece = Tetromino.color (Tetromino.init 0 0 shape_idx) ∧
    turned (Tetromino.shape (Tetromino.init 0 0 shape_idx)) (Tetromino.shape piece) ∧
    Tetromino.rotation piece = 0%Z ∧
    (0 ≤ Tetromino.y piece)%Z.

Definition pieces_ok (g : TetrisGame.t) : Prop :=
  (∃ piece, TetrisGame.current_piece g = Some piece ∧ tetromino piece) ∧
  (∃ shape_idx, TetrisGame.next_piece g =
                Some (Tetromino.init (GRID_WIDTH / 2 - 1) 0 shape_idx)).

(** Everything the session keeps in order besides the playfield. *)
Definition book_inv (g : TetrisGame.t) : Prop :=
  stats_ok g ∧ timers_ok g ∧ pieces_ok g.

(** ** The falling piece and the walls *)

(** Every cell of the current piece lies between the walls and above the
    floor. *)
Definition piece_inside (g : TetrisGame.t) : Prop :=
  ∃ piece, TetrisGame.current_piece g = Some piece ∧
           ∀ x y, occupied piece x y →
                  (0 ≤ x < GRID_WIDTH)%Z ∧ (y < GRID_HEIGHT)%Z.

(** * Verification *)

(** ** Loops *)

Section Loops.
Context {A S : Type}.
Implicit Types (l : list A) (body : A → S → option S).

Lemma for_each_app l1 l2 body s :
  Py.for_each (l1 ++ l2) body s = Py.for_each l1 body s ≫= Py.for_each l2 body.
Proof.
  revert s. induction l1 as [|a l1 IH]; intros s; simpl; [done|].
  destruct (body a s) as [s'|]; simpl; [apply IH|done].
Qed.

(** Invariant rule: [Inv done s] relates the state to the part of the
    list already visited. *)
Lemma for_each_invariant (Inv : list A → S → Prop) l body s :
  Inv [] s →
  (∀ done a s1, a ∈ l → Inv done s1 →
     ∃ s2, body a s1 = Some s2 ∧ Inv (done ++ [a]) s2) →
  ∃ s', Py.for_each l body s = Some s' ∧ Inv l s'.
Proof.
  intros H0 Hstep.
  cut (∀ pre s1, Inv pre s1 →
         ∃ s', Py.for_each l body s1 = Some s' ∧ Inv (pre ++ l) s').
  { intros H. apply (H [] s H0). }
  revert Hstep. induction l as [|a l IH]; intros Hstep pre s1 Hpre; simpl.
  - exists s1. by rewrite app_nil_r.
  - destruct (Hstep pre a s1) as (s2 & Hb & Hi); [left|done|].
    rewrite Hb. simpl.
    destruct (IH (λ d a' s3 Ha, Hstep d a' s3 (list_elem_of_further _ _ _ Ha))
                (pre ++ [a]) s2 Hi) as (s' & Hf & Hi').
    exists s'. split; [done|]. by rewrite <-app_assoc in Hi'.
Qed.

End Loops.

(** ** Matrices as lists of rows *)


Section Matrix.
Context {A : Type}.
Implicit Types (m : list (list A)) (row : list A).

Lemma rect_lookup rows cols m i row :
  rect rows cols m → m !! i = Some row → i < rows ∧ length row = cols.
Proof.
  intros [Hl Hf] Hi. split.
  - rewrite <-Hl. by eapply lookup_lt_Some.
  - by eapply (Forall_lookup_1 _ _ _ _ Hf).
Qed.

Lemma rect_row rows cols m i :
  rect rows cols m → i < rows → ∃ row, m !! i = Some row ∧ length row = cols.
Proof.
  intros Hr Hi. destruct (lookup_lt_is_Some_2 m i) as [row Hrow].
  { destruct Hr as [-> _]. done. }
  exists row. split; [done|]. by eapply rect_lookup.
Qed.

Lemma rect_getitem2 rows cols m i j :
  rect rows cols m → i < rows → j < cols → is_Some (Py.getitem2 m i j).
Proof.
  intros Hr Hi Hj. destruct (rect_row _ _ _ _ Hr Hi) as (row & Hrow & Hlen).
  unfold Py.getitem2. rewrite Hrow. simpl. apply lookup_lt_is_Some_2. lia.
Qed.

Lemma getitem2_Some_lt rows cols m i j v :
  rect rows cols m → Py.getitem2 m i j = Some v → i < rows ∧ j < cols.
Proof.
  unfold Py.getitem2. intros Hr H.
  destruct (m !! i) as [row|] eqn:Hrow; [|done]. simpl in H.
  destruct (rect_lookup _ _ _ _ _ Hr Hrow) as [? <-].
  split; [done|]. by eapply lookup_lt_Some.
Qed.

(** Two matrices of the same dimensions with the same entries are equal. *)
Lemma rect_ext rows cols m1 m2 :
  rect rows cols m1 → rect rows cols m2 →
  (∀ i j, i < rows → j < cols → Py.getitem2 m1 i j = Py.getitem2 m2 i j) →
  m1 = m2.
Proof.
  intros H1 H2 Heq. apply list_eq. intros i.
  destruct (decide (i < rows)) as [Hi|Hi].
  - destruct (rect_row _ _ _ _ H1 Hi) as (r1 & Hr1 & Hl1).
    destruct (rect_row _ _ _ _ H2 Hi) as (r2 & Hr2 & Hl2).
    rewrite Hr1, Hr2. f_equal. apply list_eq. intros j.
    destruct (decide (j < cols)) as [Hj|Hj].
    + specialize (Heq i j Hi Hj). unfold Py.getitem2 in Heq.
      by rewrite Hr1, Hr2 in Heq.
    + rewrite (lookup_ge_None_2 r1), (lookup_ge_None_2 r2); [done|lia..].
  - destruct H1 as [L1 _], H2 as [L2 _].
    rewrite (lookup_ge_None_2 m1), (lookup_ge_None_2 m2); [done|lia..].
Qed.

Lemma rect_replicate rows cols (a : A) :
  rect rows cols (replicate rows (replicate cols a)).
Proof.
  split; [apply length_replicate|].
  apply Forall_replicate, length_replicate.
Qed.

Lemma getitem2_replicate rows cols (a : A) i j :
  i < rows → j < cols → Py.getitem2 (replicate rows (replicate cols a)) i j = Some a.
Proof.
  intros Hi Hj. unfold Py.getitem2. rewrite lookup_replicate_2 by done. simpl.
  by rewrite lookup_replicate_2.
Qed.

Lemma setitem2_spec rows cols m i j v :
  rect rows cols m → i < rows → j < cols →
  ∃ m', Py.setitem2 m i j v = Some m' ∧ rect rows cols m' ∧
        ∀ i' j', Py.getitem2 m' i' j' =
                 if decide (i' = i ∧ j' = j) then Some v else Py.getitem2 m i' j'.
Proof.
  intros Hr Hi Hj. destruct (rect_row _ _ _ _ Hr Hi) as (row & Hrow & Hlen).
  unfold Py.setitem2, Py.setitem. rewrite Hrow. simpl.
  rewrite decide_True by lia. simpl.
  destruct Hr as [Hl Hf]. rewrite decide_True by lia.
  eexists. split; [done|]. split.
  - split; [by rewrite length_insert|].
    apply Forall_insert; [done|]. by rewrite length_insert.
  - intros i' j'. unfold Py.getitem2.
    destruct (decide (i' = i)) as [->|Hne].
    + rewrite list_lookup_insert_eq by lia. simpl.
      destruct (decide (j' = j)) as [->|Hne'].
      * rewrite decide_True by done. apply list_lookup_insert_eq. lia.
      * rewrite decide_False by naive_solver.
        rewrite list_lookup_insert_ne by done. by rewrite Hrow.
    + rewrite decide_False by naive_solver.
      by rewrite list_lookup_insert_ne.
Qed.

End Matrix.


(** ** Tetromino.rotate *)

Section Rotate.
Variables (rows cols : nat) (shape : Shape).
Hypothesis Hrows : 0 < rows.
Hypothesis Hrect : rect rows cols shape.

(** One pass of the inner loop copies row [r] of the shape into column
    [rows - 1 - r] of the result. *)
Lemma rotate_inner_loop r (rotated : Shape) :
  r < rows → rect cols rows rotated →
  ∃ rotated',
    Py.for_each (Py.range cols) (λ c rotated,
      v ← Py.getitem2 shape r c;
      Py.setitem2 rotated c (rows - 1 - r) v) rotated = Some rotated' ∧
    rect cols rows rotated' ∧
    ∀ i j, i < cols → j < rows →
      Py.getitem2 rotated' i j =
      if decide (j = rows - 1 - r) then Py.getitem2 shape r i
      else Py.getitem2 rotated i j.
Proof.
  intros Hr Hrot.
  destruct (for_each_invariant
    (λ done m, rect cols rows m ∧ ∀ i j, i < cols → j < rows →
       Py.getitem2 m i j =
       if decide (i ∈ done ∧ j = rows - 1 - r) then Py.getitem2 shape r i
       else Py.getitem2 rotated i j)
    (Py.range cols)
    (λ c rotated, v ← Py.getitem2 shape r c;
                  Py.setitem2 rotated c (rows - 1 - r) v) rotated)
    as (m' & Hrun & Hm' & Hget).
  - split; [done|]. intros i j _ _. rewrite decide_False; [done|].
    intros [H _]. by apply not_elem_of_nil in H.
  - intros done c m Hc [Hm Hg]. apply elem_of_seq in Hc.
    destruct (rect_getitem2 _ _ _ r c Hrect) as [v Hv]; [lia..|].
    rewrite Hv. simpl.
    destruct (setitem2_spec _ _ m c (rows - 1 - r) v Hm) as (m2 & -> & Hm2 & Hg2);
      [lia..|].
    eexists. split; [done|]. split; [done|].
    intros i j Hi Hj. rewrite Hg2.
    destruct (decide (i = c ∧ j = rows - 1 - r)) as [[-> ->]|Hne].
    + rewrite decide_True; [done|]. split; [|done].
      apply elem_of_app. right. by apply list_elem_of_singleton.
    + rewrite Hg by done.
      destruct (decide (i ∈ done ∧ j = rows - 1 - r)) as [[Hd Hjj]|Hnd].
      * rewrite decide_True; [done|]. split; [|done].
        apply elem_of_app. by left.
      * rewrite decide_False; [done|]. intros [Hin Hjj].
        apply elem_of_app in Hin as [Hin|Hin]; [naive_solver|].
        apply list_elem_of_singleton in Hin. naive_solver.
  - exists m'. split; [done|]. split; [done|].
    intros i j Hi Hj. rewrite Hget by done.
    destruct (decide (j = rows - 1 - r)) as [->|Hne].
    + rewrite decide_True; [done|]. split; [|done].
      apply elem_of_seq. lia.
    + rewrite decide_False; [done|]. naive_solver.
Qed.

(** The source's formula: [new[c][rows - 1 - r] = old[r][c]]. *)
Lemma rotate_shape_spec :
  ∃ rotated,
    Tetromino.rotate_shape shape = Some rotated ∧
    rect cols rows rotated ∧
    ∀ c j, c < cols → j < rows →
      Py.getitem2 rotated c j = Py.getitem2 shape (rows - 1 - j) c.
Proof.
  destruct (rect_row _ _ _ 0 Hrect Hrows) as (row0 & Hrow0 & Hlen0).
  unfold Tetromino.rotate_shape. rewrite Hrow0. simpl.
  destruct Hrect as [Hlen _]. rewrite Hlen, Hlen0.
  destruct (for_each_invariant
    (λ done (m : Shape), rect cols rows m ∧ ∀ i j, i < cols → j < rows →
       Py.getitem2 m i j =
       if decide (rows - 1 - j ∈ done) then Py.getitem2 shape (rows - 1 - j) i
       else Some 0%Z)
    (Py.range rows)
    (λ r, Py.for_each (Py.range cols) (λ c rotated,
            v ← Py.getitem2 shape r c;
            Py.setitem2 rotated c (rows - 1 - r) v))
    (replicate cols (replicate rows 0%Z)))
    as (m' & Hrun & Hm' & Hget).
  - split; [apply rect_replicate|]. intros i j Hi Hj.
    rewrite decide_False by apply not_elem_of_nil.
    by apply getitem2_replicate.
  - intros done r m Hr [Hm Hg]. apply elem_of_seq in Hr.
    destruct (rotate_inner_loop r m) as (m2 & -> & Hm2 & Hg2); [lia|done|].
    eexists. split; [done|]. split; [done|].
    intros i j Hi Hj. rewrite Hg2 by done.
    destruct (decide (j = rows - 1 - r)) as [->|Hne].
    + replace (rows - 1 - (rows - 1 - r)) with r by lia.
      rewrite decide_True; [done|].
      apply elem_of_app. right. by apply list_elem_of_singleton.
    + rewrite Hg by done.
      destruct (decide (rows - 1 - j ∈ done)) as [Hd|Hd].
      * rewrite decide_True; [done|]. apply elem_of_app. by left.
      * rewrite decide_False; [done|]. intros Hin.
        apply elem_of_app in Hin as [Hin|Hin]; [done|].
        apply list_elem_of_singleton in Hin. lia.
  - exists m'. split; [done|]. split; [done|].
    intros c j Hc Hj. rewrite Hget by done.
    rewrite decide_True; [done|]. apply elem_of_seq. lia.
Qed.

End Rotate.


(** ** Counting set cells *)


Lemma sumn_ext n f g : (∀ i, i < n → f i = g i) → sumn n f = sumn n g.
Proof.
  induction n as [|n IH]; intros H; simpl; [done|].
  rewrite IH by (intros; apply H; lia). rewrite H by lia. done.
Qed.

Lemma sumn_add n f g : sumn n (λ i, f i + g i) = sumn n f + sumn n g.
Proof. induction n as [|n IH]; simpl; [done|]. rewrite IH. lia. Qed.

Lemma sumn_zero n : sumn n (λ _, 0) = 0.
Proof. induction n as [|n IH]; simpl; [done|]. rewrite IH. done. Qed.

Lemma sumn_swap n m (f : nat → nat → nat) :
  sumn n (λ i, sumn m (λ j, f i j)) = sumn m (λ j, sumn n (λ i, f i j)).
Proof.
  induction n as [|n IH]; simpl.
  - by rewrite sumn_zero.
  - rewrite IH. by rewrite <-sumn_add.
Qed.

Lemma sumn_shift n f : sumn (S n) f = f 0 + sumn n (λ i, f (S i)).
Proof.
  induction n as [|n IH]; [simpl; lia|].
  change (sumn (S (S n)) f) with (sumn (S n) f + f (S n)).
  rewrite IH. simpl. lia.
Qed.

Lemma sumn_reverse n f : sumn n (λ i, f (n - 1 - i)) = sumn n f.
Proof.
  revert f. induction n as [|n IH]; intros f; [done|].
  rewrite sumn_shift. change (sumn (S n) f) with (sumn n f + f n).
  replace (S n - 1 - 0) with n by lia.
  rewrite <-(IH f). rewrite Nat.add_comm. f_equal.
  apply sumn_ext. intros i Hi. f_equal. lia.
Qed.


Lemma count_row_sumn row :
  count_row row = sumn (length row) (λ c, is_set (row !! c)).
Proof.
  unfold count_row. induction row as [|v row IH] using rev_ind; [done|].
  rewrite filter_app, !length_app, IH. simpl.
  rewrite Nat.add_1_r. simpl. f_equal.
  - apply sumn_ext. intros i Hi. by rewrite lookup_app_l.
  - rewrite lookup_app_r by lia. rewrite Nat.sub_diag. simpl.
    rewrite filter_cons, filter_nil. by destruct (decide (v ≠ 0%Z)).
Qed.

Lemma count_set_sumn rows cols (shape : Shape) :
  rect rows cols shape →
  count_set shape =
  sumn rows (λ r, sumn cols (λ c, is_set (Py.getitem2 shape r c))).
Proof.
  unfold count_set. revert rows.
  induction shape as [|row shape IH] using rev_ind; intros rows [Hlen Hf].
  - simpl in Hlen. by subst rows.
  - rewrite length_app in Hlen. simpl in Hlen.
    apply Forall_app in Hf as [Hf Hrow]. rewrite Forall_singleton in Hrow.
    rewrite sum_list_with_app. simpl.
    rewrite (IH (length shape)) by done. subst rows.
    rewrite Nat.add_1_r, Nat.add_0_r. simpl. f_equal.
    + apply sumn_ext. intros r Hr. apply sumn_ext. intros c Hc.
      unfold Py.getitem2. by rewrite lookup_app_l.
    + rewrite count_row_sumn, Hrow. apply sumn_ext. intros c Hc.
      unfold Py.getitem2. rewrite lookup_app_r by lia.
      by rewrite Nat.sub_diag.
Qed.

Lemma rotate_shape_count rows cols (shape rotated : Shape) :
  0 < rows → rect rows cols shape →
  Tetromino.rotate_shape shape = Some rotated →
  count_set rotated = count_set shape.
Proof.
  intros Hrows Hrect Hrot.
  destruct (rotate_shape_spec rows cols shape Hrows Hrect) as (m & Hm & Hr & Hg).
  rewrite Hm in Hrot. injection Hrot as <-.
  rewrite (count_set_sumn _ _ _ Hr), (count_set_sumn _ _ _ Hrect).
  rewrite sumn_swap.
  rewrite <-(sumn_reverse rows (λ r, sumn cols (λ c, is_set (Py.getitem2 shape r c)))).
  apply sumn_ext. intros j Hj. apply sumn_ext. intros c Hc.
  by rewrite Hg.
Qed.

Lemma rotate_shape_four rows cols (shape : Shape) :
  0 < rows → 0 < cols → rect rows cols shape →
  (s1 ← Tetromino.rotate_shape shape;
   s2 ← Tetromino.rotate_shape s1;
   s3 ← Tetromino.rotate_shape s2;
   Tetromino.rotate_shape s3) = Some shape.
Proof.
  intros Hrows Hcols H0.
  destruct (rotate_shape_spec rows cols shape Hrows H0) as (s1 & -> & H1 & G1).
  simpl.
  destruct (rotate_shape_spec cols rows s1 Hcols H1) as (s2 & -> & H2 & G2).
  simpl.
  destruct (rotate_shape_spec rows cols s2 Hrows H2) as (s3 & -> & H3 & G3).
  simpl.
  destruct (rotate_shape_spec cols rows s3 Hcols H3) as (s4 & -> & H4 & G4).
  f_equal. apply (rect_ext rows cols); [done..|].
  intros i j Hi Hj.
  rewrite G4, G3, G2, G1 by lia. f_equal; lia.
Qed.

(** ** Tetromino.get_positions *)

Lemma get_positions_spec rows cols (piece : Tetromino.t) :
  rect rows cols (Tetromino.shape piece) →
  ∃ positions, Tetromino.get_positions piece = Some positions ∧
               ∀ x y, (x, y) ∈ positions ↔ occupied piece x y.
Proof.
  intros Hrect. unfold Tetromino.get_positions.
  pose proof Hrect as [Hlen _]. rewrite Hlen.
  set (at_ r c x y := ∃ v, Py.getitem2 (Tetromino.shape piece) r c = Some v ∧ v ≠ 0%Z ∧
         x = (Tetromino.x piece + Z.of_nat c)%Z ∧
         y = (Tetromino.y piece + Z.of_nat r)%Z).
  destruct (for_each_invariant
    (λ done positions, ∀ x y, (x, y) ∈ positions ↔ ∃ r c, r ∈ done ∧ at_ r c x y)
    (Py.range rows)
    (λ r positions,
      row0 ← Tetromino.shape piece !! 0;
      Py.for_each (Py.range (length row0)) (λ c positions,
        v ← Py.getitem2 (Tetromino.shape piece) r c;
        if decide (v ≠ 0%Z)
        then Some (positions ++ [(Tetromino.x piece + Z.of_nat c,
                                  Tetromino.y piece + Z.of_nat r)%Z])
        else Some positions) positions) [])
    as (ps & Hrun & Hps).
  - intros x y. split.
    + intros H. by apply not_elem_of_nil in H.
    + intros (r & c & H & _). by apply not_elem_of_nil in H.
  - intros done r ps0 Hr Hps0. apply elem_of_seq in Hr.
    destruct (rect_row _ _ _ 0 Hrect) as (row0 & -> & Hlen0); [lia|]. simpl.
    rewrite Hlen0.
    destruct (for_each_invariant
      (λ done' positions, ∀ x y, (x, y) ∈ positions ↔
         (x, y) ∈ ps0 ∨ ∃ c, c ∈ done' ∧ at_ r c x y)
      (Py.range cols)
      (λ c positions,
        v ← Py.getitem2 (Tetromino.shape piece) r c;
        if decide (v ≠ 0%Z)
        then Some (positions ++ [(Tetromino.x piece + Z.of_nat c,
                                  Tetromino.y piece + Z.of_nat r)%Z])
        else Some positions) ps0)
      as (ps1 & Hrun1 & Hps1).
    + intros x y. split; [by left|].
      intros [H|(c & H & _)]; [done|]. by apply not_elem_of_nil in H.
    + intros done' c ps' Hc Hps'. apply elem_of_seq in Hc.
      destruct (rect_getitem2 _ _ _ r c Hrect) as [v Hv]; [lia..|].
      rewrite Hv. simpl.
      destruct (decide (v ≠ 0%Z)) as [Hset|Hunset].
      * eexists. split; [done|]. intros x y.
        rewrite elem_of_app, list_elem_of_singleton, Hps'. split.
        -- intros [[H|(c' & Hc' & Hat)]|Heq].
           ++ by left.
           ++ right. exists c'. split; [|done]. apply elem_of_app. by left.
           ++ right. exists c. split.
              ** apply elem_of_app. right. by apply list_elem_of_singleton.
              ** injection Heq as -> ->. by exists v.
        -- intros [H|(c' & Hc' & Hat)]; [by left; left|].
           apply elem_of_app in Hc' as [Hc'|Hc'].
           ++ left. right. by exists c'.
           ++ apply list_elem_of_singleton in Hc'. subst c'.
              destruct Hat as (v' & _ & _ & -> & ->). by right.
      * eexists. split; [done|]. intros x y. rewrite Hps'. split.
        -- intros [H|(c' & Hc' & Hat)]; [by left|].
           right. exists c'. split; [|done]. apply elem_of_app. by left.
        -- intros [H|(c' & Hc' & Hat)]; [by left|].
           apply elem_of_app in Hc' as [Hc'|Hc'].
           ++ right. by exists c'.
           ++ apply list_elem_of_singleton in Hc'. subst c'.
              destruct Hat as (v' & Hv' & Hne & _).
              rewrite Hv in Hv'. injection Hv' as <-. done.
    + exists ps1. split; [done|]. intros x y. rewrite Hps1, Hps0. split.
      * intros [(r' & c' & Hr' & Hat)|(c' & Hc' & Hat)].
        -- exists r', c'. split; [|done]. apply elem_of_app. by left.
        -- exists r, c'. split; [|done].
           apply elem_of_app. right. by apply list_elem_of_singleton.
      * intros (r' & c' & Hr' & Hat).
        apply elem_of_app in Hr' as [Hr'|Hr'].
        -- left. by exists r', c'.
        -- apply list_elem_of_singleton in Hr'. subst r'. right. exists c'.
           split; [|done]. destruct Hat as (v & Hv & _).
           apply (getitem2_Some_lt _ _ _ _ _ _ Hrect) in Hv.
           apply elem_of_seq. lia.
  - exists ps. split; [done|]. intros x y. rewrite Hps. unfold occupied. split.
    + intros (r & c & _ & v & H). by exists r, c, v.
    + intros (r & c & v & Hv & H). exists r, c. split; [|by exists v].
      apply (getitem2_Some_lt _ _ _ _ _ _ Hrect) in Hv.
      apply elem_of_seq. lia.
Qed.

(** ** TetrisGame.is_valid_position *)

Lemma wf_grid_cell (grid : Grid) x y :
  wf_grid grid → in_field x y →
  ∃ cell, Py.getitem2 grid (Z.to_nat y) (Z.to_nat x) = Some cell.
Proof.
  unfold wf_grid, in_field, GRID_WIDTH, GRID_HEIGHT. intros Hwf [Hx Hy].
  apply (rect_getitem2 _ _ _ _ _ Hwf); lia.
Qed.

Lemma truthy_filled (grid : Grid) x y cell :
  (0 ≤ x)%Z → (0 ≤ y)%Z →
  Py.getitem2 grid (Z.to_nat y) (Z.to_nat x) = Some cell →
  truthy cell = true ↔ filled grid x y.
Proof.
  intros Hx Hy Hcell. unfold filled. rewrite Hcell. split.
  - destruct cell as [color|]; [|done]. intros _. repeat split; [done..|].
    by exists color.
  - intros (_ & _ & color & [= ->]). done.
Qed.

Lemma positions_valid_spec (grid : Grid) positions :
  wf_grid grid →
  ∃ valid, TetrisGame.positions_valid grid positions = Some valid ∧
           (valid = false ↔ ∃ x y, (x, y) ∈ positions ∧ blocked grid x y).
Proof.
  intros Hwf. induction positions as [|[x y] rest (valid & IH & Hiff)].
  - exists true. split; [done|]. split; [done|].
    intros (x & y & H & _). by apply not_elem_of_nil in H.
  - simpl.
    destruct ((x <? 0)%Z || (GRID_WIDTH <=? x)%Z || (GRID_HEIGHT <=? y)%Z)
      eqn:Hout.
    { exists false. split; [done|]. split; [|done]. intros _.
      exists x, y. split; [left|]. unfold blocked. lia. }
    assert (¬ (x < 0 ∨ GRID_WIDTH ≤ x ∨ GRID_HEIGHT ≤ y)%Z) as Hin by lia.
    destruct (0 <=? y)%Z eqn:Hy.
    + destruct (wf_grid_cell grid x y Hwf) as [cell Hcell].
      { unfold in_field. lia. }
      rewrite Hcell. simpl.
      pose proof (truthy_filled grid x y cell ltac:(lia) ltac:(lia) Hcell) as Ht.
      destruct (truthy cell).
      * exists false. split; [done|]. split; [|done]. intros _.
        exists x, y. split; [left|]. unfold blocked.
        right; right; right. split; [lia|]. by apply Ht.
      * exists valid. split; [done|]. rewrite Hiff. split.
        -- intros (x' & y' & Hin' & Hb). exists x', y'. split; [by right|done].
        -- intros (x' & y' & Hin' & Hb).
           apply elem_of_cons in Hin' as [[= -> ->]|Hin']; [|by exists x', y'].
           destruct Hb as [?|[?|[?|[_ Hf]]]]; [lia..|].
           apply Ht in Hf. done.
    + exists valid. split; [done|]. rewrite Hiff. split.
      * intros (x' & y' & Hin' & Hb). exists x', y'. split; [by right|done].
      * intros (x' & y' & Hin' & Hb).
        apply elem_of_cons in Hin' as [[= -> ->]|Hin']; [|by exists x', y'].
        destruct Hb as [?|[?|[?|[? _]]]]; lia.
Qed.

Lemma is_valid_position_spec rows cols g piece :
  wf_grid (TetrisGame.grid g) → rect rows cols (Tetromino.shape piece) →
  ∃ valid, TetrisGame.is_valid_position g piece = Some valid ∧
           (valid = false ↔
            ∃ x y, occupied piece x y ∧ blocked (TetrisGame.grid g) x y).
Proof.
  intros Hwf Hrect. unfold TetrisGame.is_valid_position.
  destruct (get_positions_spec _ _ _ Hrect) as (ps & -> & Hps). simpl.
  destruct (positions_valid_spec (TetrisGame.grid g) ps Hwf) as (valid & -> & Hiff).
  exists valid. split; [done|]. rewrite Hiff. split.
  - intros (x & y & Hin & Hb). exists x, y. by rewrite <-Hps.
  - intros (x & y & Hin & Hb). exists x, y. by rewrite Hps.
Qed.

(** ** The loop of place_piece *)

Lemma commit_spec color positions (grid : Grid) :
  wf_grid grid →
  ∃ grid', TetrisGame.commit color positions grid = Some grid' ∧
    wf_grid grid' ∧
    (∀ r c, (Z.of_nat c, Z.of_nat r) ∈ positions →
            in_field (Z.of_nat c) (Z.of_nat r) →
            Py.getitem2 grid' r c = Some (Some color)) ∧
    (∀ r c, (Z.of_nat c, Z.of_nat r) ∉ positions →
            Py.getitem2 grid' r c = Py.getitem2 grid r c).
Proof.
  intros Hwf. unfold TetrisGame.commit.
  destruct (for_each_invariant
    (λ done (m : Grid), wf_grid m ∧
       (∀ r c, (Z.of_nat c, Z.of_nat r) ∈ done →
               in_field (Z.of_nat c) (Z.of_nat r) →
               Py.getitem2 m r c = Some (Some color)) ∧
       (∀ r c, (Z.of_nat c, Z.of_nat r) ∉ done →
               Py.getitem2 m r c = Py.getitem2 grid r c))
    positions
    (λ '(x, y) grid,
      if ((0 <=? y) && (y <? GRID_HEIGHT) && (0 <=? x) && (x <? GRID_WIDTH))%Z
      then Py.setitem2 grid (Z.to_nat y) (Z.to_nat x) (Some color)
      else Some grid) grid) as (m' & Hrun & Hm').
  - split; [done|]. split; [|done]. intros r c H. by apply not_elem_of_nil in H.
  - intros done [x y] m _ (Hm & Hin & Hout).
    destruct ((0 <=? y) && (y <? GRID_HEIGHT) && (0 <=? x) && (x <? GRID_WIDTH))%Z
      eqn:Hguard.
    + assert (in_field x y) as Hxy by (unfold in_field; lia).
      destruct (setitem2_spec _ _ m (Z.to_nat y) (Z.to_nat x) (Some color) Hm)
        as (m2 & -> & Hm2 & Hg2).
      { unfold in_field, GRID_HEIGHT in *. lia. }
      { unfold in_field, GRID_WIDTH in *. lia. }
      eexists. split; [done|]. split; [done|]. split.
      * intros r c Hrc Hfield. rewrite Hg2.
        destruct (decide (r = Z.to_nat y ∧ c = Z.to_nat x)); [done|].
        apply Hin; [|done].
        apply elem_of_app in Hrc as [Hrc|Hrc]; [done|].
        apply list_elem_of_singleton in Hrc. injection Hrc as <- <-. lia.
      * intros r c Hrc. rewrite Hg2.
        rewrite decide_False.
        -- apply Hout. intros H. apply Hrc. apply elem_of_app. by left.
        -- intros [-> ->]. apply Hrc. apply elem_of_app. right.
           apply list_elem_of_singleton. unfold in_field in Hxy.
           f_equal; lia.
    + eexists. split; [done|]. split; [done|]. split.
      * intros r c Hrc Hfield.
        apply elem_of_app in Hrc as [Hrc|Hrc]; [by apply Hin|].
        apply list_elem_of_singleton in Hrc. injection Hrc as <- <-.
        unfold in_field in Hfield. lia.
      * intros r c Hrc. apply Hout. intros H. apply Hrc.
        apply elem_of_app. by left.
  - exists m'. done.
Qed.

(** ** clear_lines: the scan for full rows *)

Lemma forallb_truthy_full_row (grid : Grid) y row :
  wf_grid grid → grid !! y = Some row →
  forallb truthy row = true ↔ full_row grid y.
Proof.
  intros Hwf Hrow.
  destruct (rect_lookup _ _ _ _ _ Hwf Hrow) as [Hy Hlen].
  rewrite forallb_forall. unfold full_row, Py.getitem2. rewrite Hrow. simpl.
  split.
  - intros Hall x Hx.
    destruct (lookup_lt_is_Some_2 row x) as [cell Hcell]; [lia|].
    specialize (Hall cell). rewrite <-list_elem_of_In in Hall.
    destruct cell as [color|].
    + by exists color.
    + discriminate Hall. by eapply list_elem_of_lookup_2.
  - intros Hfull cell Hin. apply list_elem_of_In in Hin.
    apply list_elem_of_lookup in Hin as [x Hx].
    destruct (Hfull x) as [color Hc].
    { rewrite <-Hlen. by eapply lookup_lt_Some. }
    rewrite Hx in Hc. by injection Hc as ->.
Qed.

Lemma full_rows_spec (grid : Grid) :
  wf_grid grid →
  ∃ lines, TetrisGame.full_rows grid = Some lines ∧
           ∀ y, y ∈ lines ↔ y < Z.to_nat GRID_HEIGHT ∧ full_row grid y.
Proof.
  intros Hwf. unfold TetrisGame.full_rows.
  destruct (for_each_invariant
    (λ done lines, ∀ y, y ∈ lines ↔ y ∈ done ∧ full_row grid y)
    (Py.range (Z.to_nat GRID_HEIGHT))
    (λ y lines_to_clear,
      row ← grid !! y;
      if forallb truthy row
      then Some (lines_to_clear ++ [y])
      else Some lines_to_clear) []) as (lines & Hrun & Hlines).
  - intros y. split; [intros H|intros [H _]]; by apply not_elem_of_nil in H.
  - intros done y lines Hy Hl. apply elem_of_seq in Hy.
    destruct (rect_row _ _ _ y Hwf) as (row & Hrow & _); [lia|].
    rewrite Hrow. simpl.
    pose proof (forallb_truthy_full_row grid y row Hwf Hrow) as Hfull.
    destruct (forallb truthy row).
    + eexists. split; [done|]. intros y'.
      rewrite !elem_of_app, !list_elem_of_singleton, Hl. split.
      * intros [[? ?]| ->]; [by split; [left|]|].
        split; [by right|]. by apply Hfull.
      * intros [[?| ->] ?]; [by left|by right].
    + eexists. split; [done|]. intros y'.
      rewrite elem_of_app, list_elem_of_singleton, Hl. split.
      * intros [? ?]. by split; [left|].
      * intros [[?| ->] Hf]; [done|]. apply Hfull in Hf. done.
  - exists lines. split; [done|]. intros y. rewrite Hlines.
    unfold Py.range. rewrite elem_of_seq. split; intros [? ?]; split; [lia|done|lia|done].
Qed.

(** ** sorted(..., reverse=True) *)

Lemma insert_desc_perm a l : Py.insert_desc a l ≡ₚ a :: l.
Proof.
  induction l as [|b l IH]; simpl; [done|].
  destruct (decide (b ≤ a)); [done|].
  rewrite IH. apply Permutation_swap.
Qed.

Lemma sorted_reverse_perm l : Py.sorted_reverse l ≡ₚ l.
Proof.
  induction l as [|a l IH]; simpl; [done|].
  by rewrite insert_desc_perm, IH.
Qed.

Lemma insert_desc_sorted a l :
  StronglySorted ge l → StronglySorted ge (Py.insert_desc a l).
Proof.
  induction 1 as [|b l Hl IH Hb]; simpl.
  - repeat constructor.
  - destruct (decide (b ≤ a)) as [Hle|Hgt].
    + constructor; [by constructor|].
      constructor; [done|]. eapply Forall_impl; [exact Hb|].
      intros c Hc. simpl in *. lia.
    + constructor; [done|].
      rewrite insert_desc_perm. constructor; [lia|done].
Qed.

Lemma sorted_reverse_sorted l : StronglySorted ge (Py.sorted_reverse l).
Proof.
  induction l as [|a l IH]; simpl; [constructor|].
  by apply insert_desc_sorted.
Qed.

Lemma sorted_reverse_elem_of y l : y ∈ Py.sorted_reverse l ↔ y ∈ l.
Proof. by rewrite sorted_reverse_perm. Qed.

(** ** finish_line_clear *)

Lemma empty_row_length : length empty_row = Z.to_nat GRID_WIDTH.
Proof. apply length_replicate. Qed.

(** One iteration of the compaction loop keeps the playfield's shape. *)
Lemma compact_step_wf (grid : Grid) y :
  wf_grid grid → y < Z.to_nat GRID_HEIGHT →
  ∃ grid1, Py.delitem grid y = Some grid1 ∧
           wf_grid (Py.insert0 empty_row grid1).
Proof.
  intros [Hlen Hrows] Hy. unfold Py.delitem.
  rewrite decide_True by lia. eexists. split; [done|].
  unfold Py.insert0. split.
  - simpl. rewrite length_delete by (apply lookup_lt_is_Some_2; lia). lia.
  - constructor; [apply empty_row_length|].
    by apply Forall_delete.
Qed.

Lemma compact_loop_wf lines (grid : Grid) :
  wf_grid grid → Forall (λ y, y < Z.to_nat GRID_HEIGHT) lines →
  ∃ grid', Py.for_each lines (λ y grid,
             grid1 ← Py.delitem grid y;
             Some (Py.insert0 (replicate (Z.to_nat GRID_WIDTH) None) grid1))
             grid = Some grid' ∧ wf_grid grid'.
Proof.
  intros Hwf Hlines.
  destruct (for_each_invariant (λ _ (m : Grid), wf_grid m) lines
    (λ y grid, grid1 ← Py.delitem grid y;
               Some (Py.insert0 (replicate (Z.to_nat GRID_WIDTH) None) grid1))
    grid Hwf) as (grid' & Hrun & Hwf'); [|by exists grid'].
  intros _ y m Hy Hm.
  destruct (compact_step_wf m y Hm) as (m1 & -> & Hm1).
  { by apply (proj1 (Forall_forall _ _) Hlines). }
  eexists. split; [done|]. done.
Qed.

Lemma finish_line_clear_idle g :
  TetrisGame.lines_clearing g = [] → TetrisGame.finish_line_clear g = Some g.
Proof. unfold TetrisGame.finish_line_clear. by intros ->. Qed.

Lemma finish_line_clear_spec g :
  wf_grid (TetrisGame.grid g) → pending_full g →
  ∃ g', TetrisGame.finish_line_clear g = Some g' ∧
        wf_grid (TetrisGame.grid g') ∧
        TetrisGame.current_piece g' = TetrisGame.current_piece g ∧
        TetrisGame.next_piece g' = TetrisGame.next_piece g ∧
        TetrisGame.lines_clearing g' = [].
Proof.
  intros Hwf Hpend. unfold TetrisGame.finish_line_clear.
  destruct (TetrisGame.lines_clearing g) as [|y0 lines] eqn:Hlines.
  { exists g. done. }
  destruct (compact_loop_wf (Py.sorted_reverse (y0 :: lines))
              (TetrisGame.grid g) Hwf) as (grid' & -> & Hwf').
  { apply Forall_forall. intros y Hy. apply (proj1 (sorted_reverse_elem_of _ _)) in Hy.
    destruct (Hpend y) as [? _]; [by rewrite Hlines|done]. }
  simpl. eexists. split; [done|]. done.
Qed.

(** The bookkeeping of a compaction. *)
Lemma finish_line_clear_scoring g g' :
  TetrisGame.lines_clearing g ≠ [] →
  TetrisGame.finish_line_clear g = Some g' →
  let n := Z.of_nat (length (TetrisGame.lines_clearing g)) in
  (TetrisGame.score g' = TetrisGame.score g + n * 100 * TetrisGame.level g ∧
   TetrisGame.lines_cleared g' = TetrisGame.lines_cleared g + n ∧
   TetrisGame.level g' = TetrisGame.lines_cleared g' / 10 + 1 ∧
   TetrisGame.fall_speed g' =
     Z.max 100 (1000 - (TetrisGame.level g' - 1) * 100) ∧
   TetrisGame.lines_clearing g' = [] ∧
   TetrisGame.clear_animation_time g' = 0)%Z.
Proof.
  unfold TetrisGame.finish_line_clear. intros Hne.
  destruct (TetrisGame.lines_clearing g) as [|y0 lines]; [done|].
  destruct (Py.for_each _ _ _) as [grid'|]; [|done].
  simpl. intros [= <-]. simpl. done.
Qed.

(** ** Well-formed pieces *)

Lemma init_lookup x y shape_idx :
  TETROMINOS !! shape_index shape_idx =
    Some (Tetromino.shape (Tetromino.init x y shape_idx)) ∧
  TETROMINO_COLORS !! shape_index shape_idx =
    Some (Tetromino.color (Tetromino.init x y shape_idx)).
Proof. by destruct shape_idx. Qed.

Lemma init_wf_piece x y shape_idx : wf_piece (Tetromino.init x y shape_idx).
Proof.
  unfold wf_piece, rect.
  destruct shape_idx; simpl;
    [exists 1, 4|exists 2, 2|exists 2, 3|exists 2, 3|exists 2, 3
    |exists 2, 3|exists 2, 3];
    (split; [lia|]); (split; [lia|]);
    (split; [split; [done|repeat constructor]|vm_compute; lia]).
Qed.

Lemma set_xy_wf_piece x y piece :
  wf_piece piece → wf_piece (Tetromino.set_xy x y piece).
Proof. done. Qed.

Lemma rotate_spec piece :
  wf_piece piece →
  ∃ rotated, Tetromino.rotate_shape (Tetromino.shape piece) = Some rotated ∧
             Tetromino.rotate piece = Some (Tetromino.set_shape rotated piece) ∧
             wf_piece (Tetromino.set_shape rotated piece).
Proof.
  intros (rows & cols & Hrows & Hcols & Hrect & Hcount).
  destruct (rotate_shape_spec rows cols _ Hrows Hrect) as (rotated & Hrot & Hr & _).
  exists rotated. split; [done|]. unfold Tetromino.rotate. rewrite Hrot.
  split; [done|]. exists cols, rows. simpl.
  split; [done|]. split; [done|]. split; [done|].
  by rewrite (rotate_shape_count rows cols _ _ Hrows Hrect Hrot).
Qed.

Lemma wf_piece_valid g piece :
  wf_grid (TetrisGame.grid g) → wf_piece piece →
  ∃ valid, TetrisGame.is_valid_position g piece = Some valid ∧
           (valid = false ↔
            ∃ x y, occupied piece x y ∧ blocked (TetrisGame.grid g) x y).
Proof.
  intros Hwf (rows & cols & _ & _ & Hrect & _).
  by eapply is_valid_position_spec.
Qed.

(** The validity test reads the grid and nothing else of the game. *)
Lemma is_valid_position_grid g1 g2 piece :
  TetrisGame.grid g1 = TetrisGame.grid g2 →
  TetrisGame.is_valid_position g1 piece = TetrisGame.is_valid_position g2 piece.
Proof. unfold TetrisGame.is_valid_position. by intros ->. Qed.

(** ** spawn_new_piece *)

Lemma spawn_new_piece_spec shape_idx g next :
  wf_grid (TetrisGame.grid g) →
  TetrisGame.next_piece g = Some next → wf_piece next →
  ∃ valid g',
    TetrisGame.is_valid_position g next = Some valid ∧
    TetrisGame.spawn_new_piece shape_idx g = Some g' ∧
    TetrisGame.grid g' = TetrisGame.grid g ∧
    TetrisGame.current_piece g' = Some next ∧
    TetrisGame.next_piece g' =
      Some (Tetromino.init (GRID_WIDTH / 2 - 1) 0 shape_idx) ∧
    TetrisGame.lines_clearing g' = TetrisGame.lines_clearing g ∧
    TetrisGame.game_over g' = (if valid then TetrisGame.game_over g else true) ∧
    TetrisGame.lines_cleared g' = TetrisGame.lines_cleared g.
Proof.
  intros Hwf Hnext Hpiece.
  destruct (wf_piece_valid g next Hwf Hpiece) as (valid & Hvalid & _).
  unfold TetrisGame.spawn_new_piece. rewrite Hnext.
  rewrite (is_valid_position_grid (TetrisGame.set_next_piece _ _) g) by done.
  rewrite Hvalid. simpl.
  exists valid. destruct valid; eexists; (split; [done|]); (split; [done|]); done.
Qed.

(** ** clear_lines *)

Lemma clear_lines_spec g :
  wf_grid (TetrisGame.grid g) → pending_full g →
  ∃ lines, TetrisGame.full_rows (TetrisGame.grid g) = Some lines ∧
    (∀ y, y ∈ lines ↔
          y < Z.to_nat GRID_HEIGHT ∧ full_row (TetrisGame.grid g) y) ∧
    TetrisGame.clear_lines g =
      Some (match lines with
            | [] => g
            | _ :: _ => TetrisGame.set_clear_animation_time 0
                          (TetrisGame.set_lines_clearing lines g)
            end).
Proof.
  intros Hwf Hpend.
  destruct (full_rows_spec _ Hwf) as (lines & Hscan & Hlines).
  exists lines. split; [done|]. split; [done|].
  unfold TetrisGame.clear_lines. rewrite Hscan. simpl.
  destruct lines as [|y lines]; [|done].
  apply finish_line_clear_idle.
  destruct (TetrisGame.lines_clearing g) as [|y pending] eqn:Hp; [done|].
  exfalso. eapply not_elem_of_nil, Hlines, Hpend. rewrite Hp. left.
Qed.

(** ** place_piece *)

Lemma blocks_kept_refl (grid : Grid) : blocks_kept grid grid.
Proof. intros r c color H. by exists color. Qed.

Lemma blocks_kept_trans (g1 g2 g3 : Grid) :
  blocks_kept g1 g2 → blocks_kept g2 g3 → blocks_kept g1 g3.
Proof.
  intros H12 H23 r c color H1.
  destruct (H12 r c color H1) as [color' H2]. by eapply H23.
Qed.

Lemma blocks_kept_full_row (grid grid' : Grid) y :
  blocks_kept grid grid' → full_row grid y → full_row grid' y.
Proof.
  intros Hkept Hfull x Hx. destruct (Hfull x Hx) as [color Hc].
  by eapply Hkept.
Qed.

Lemma commit_blocks_kept color positions (grid grid' : Grid) :
  wf_grid grid → TetrisGame.commit color positions grid = Some grid' →
  blocks_kept grid grid'.
Proof.
  intros Hwf Hcommit.
  destruct (commit_spec color positions grid Hwf) as (m & Hm & _ & Hin & Hout).
  rewrite Hcommit in Hm. injection Hm as <-.
  intros r c color' Hcell.
  destruct (decide ((Z.of_nat c, Z.of_nat r) ∈ positions)) as [Hp|Hp].
  - exists color. apply Hin; [done|].
    apply (getitem2_Some_lt _ _ _ _ _ _ Hwf) in Hcell.
    unfold in_field, GRID_WIDTH, GRID_HEIGHT in *. lia.
  - exists color'. by rewrite Hout.
Qed.

Lemma place_piece_spec shape_idx g :
  session_inv g →
  ∃ piece positions grid' g1 g',
    TetrisGame.current_piece g = Some piece ∧
    Tetromino.get_positions piece = Some positions ∧
    TetrisGame.commit (Tetromino.color piece) positions (TetrisGame.grid g)
      = Some grid' ∧
    TetrisGame.clear_lines (TetrisGame.set_grid grid' g) = Some g1 ∧
    TetrisGame.spawn_new_piece shape_idx g1 = Some g' ∧
    TetrisGame.place_piece shape_idx g = Some g' ∧
    session_inv g' ∧
    TetrisGame.grid g' = grid' ∧
    TetrisGame.current_piece g' = TetrisGame.next_piece g ∧
    TetrisGame.next_piece g' =
      Some (Tetromino.init (GRID_WIDTH / 2 - 1) 0 shape_idx) ∧
    (∀ y, y ∈ TetrisGame.lines_clearing g' ↔
          y < Z.to_nat GRID_HEIGHT ∧ full_row grid' y) ∧
    TetrisGame.lines_cleared g' = TetrisGame.lines_cleared g.
Proof.
  intros (Hwf & (piece & Hcur & Hpiece) & (next & Hnext & Hnextwf) & Hpend).
  pose proof Hpiece as (rows & cols & _ & _ & Hrect & _).
  destruct (get_positions_spec _ _ _ Hrect) as (positions & Hpos & _).
  destruct (commit_spec (Tetromino.color piece) positions _ Hwf)
    as (grid' & Hcommit & Hwf' & _).
  pose proof (commit_blocks_kept _ _ _ _ Hwf Hcommit) as Hkept.
  assert (pending_full (TetrisGame.set_grid grid' g)) as Hpend'.
  { intros y Hy. destruct (Hpend y Hy) as [Hlt Hfull].
    split; [done|]. by eapply blocks_kept_full_row. }
  destruct (clear_lines_spec (TetrisGame.set_grid grid' g) Hwf' Hpend')
    as (lines & _ & Hlines & Hclear).
  set (g1 := match lines with
             | [] => TetrisGame.set_grid grid' g
             | _ :: _ => TetrisGame.set_clear_animation_time 0
                           (TetrisGame.set_lines_clearing lines
                              (TetrisGame.set_grid grid' g))
             end) in *.
  assert (TetrisGame.grid g1 = grid' ∧ TetrisGame.next_piece g1 = Some next ∧
          TetrisGame.lines_cleared g1 = TetrisGame.lines_cleared g ∧
          ∀ y, y ∈ TetrisGame.lines_clearing g1 ↔
               y < Z.to_nat GRID_HEIGHT ∧ full_row grid' y)
    as (Hg1 & Hn1 & Hc1 & Hl1).
  { subst g1. destruct lines as [|y0 lines]; simpl; [|done].
    split; [done|]. split; [done|]. split; [done|]. intros y. split.
    - intros Hy. apply Hpend' in Hy. done.
    - intros Hy. apply Hlines in Hy. by apply not_elem_of_nil in Hy. }
  destruct (spawn_new_piece_spec shape_idx g1 next)
    as (valid & g' & _ & Hspawn & Hgrid' & Hcur' & Hnext' & Hlines' & _ & Hcl');
    [by rewrite Hg1|done..|].
  exists piece, positions, grid', g1, g'.
  split; [done|]. split; [done|]. split; [done|]. split; [done|].
  split; [done|]. split.
  { unfold TetrisGame.place_piece. rewrite Hcur. simpl. rewrite Hpos. simpl.
    rewrite Hcommit. simpl. rewrite Hclear. simpl. done. }
  split.
  { split; [by rewrite Hgrid', Hg1|]. split; [by exists next|].
    split; [eexists; split; [done|apply init_wf_piece]|].
    intros y Hy. rewrite Hlines' in Hy. apply Hl1 in Hy.
    by rewrite Hgrid', Hg1. }
  split; [by rewrite Hgrid'|]. split; [by rewrite Hcur'|].
  split; [done|]. split; [|by rewrite Hcl'].
  intros y. by rewrite Hlines'.
Qed.

(** ** move_piece and rotate_piece *)

Lemma set_xy_same piece :
  Tetromino.set_xy (Tetromino.x piece) (Tetromino.y piece) piece = piece.
Proof. by destruct piece. Qed.

Lemma set_xy_set_xy x1 y1 x2 y2 piece :
  Tetromino.set_xy x2 y2 (Tetromino.set_xy x1 y1 piece) =
  Tetromino.set_xy x2 y2 piece.
Proof. done. Qed.

Lemma set_shape_same piece :
  Tetromino.set_shape (Tetromino.shape piece) piece = piece.
Proof. by destruct piece. Qed.

Lemma set_current_piece_same g piece :
  TetrisGame.current_piece g = Some piece →
  TetrisGame.set_current_piece (Some piece) g = g.
Proof. destruct g. simpl. by intros ->. Qed.

Lemma set_current_piece_twice p q g :
  TetrisGame.set_current_piece p (TetrisGame.set_current_piece q g) =
  TetrisGame.set_current_piece p g.
Proof. done. Qed.

Lemma move_piece_spec dx dy shape_idx g piece :
  wf_grid (TetrisGame.grid g) →
  TetrisGame.current_piece g = Some piece → wf_piece piece →
  let moved := Tetromino.set_xy (Tetromino.x piece + dx)
                                (Tetromino.y piece + dy) piece in
  ∃ valid,
    TetrisGame.is_valid_position g moved = Some valid ∧
    TetrisGame.move_piece dx dy shape_idx g =
      if valid
      then Some (true, TetrisGame.set_current_piece (Some moved) g)
      else if (0 <? dy)%Z
           then g' ← TetrisGame.place_piece shape_idx g; Some (false, g')
           else Some (false, g).
Proof.
  intros Hwf Hcur Hpiece moved.
  destruct (wf_piece_valid g moved Hwf) as (valid & Hvalid & _).
  { by apply set_xy_wf_piece. }
  exists valid. split; [done|].
  unfold TetrisGame.move_piece. rewrite Hcur. fold moved.
  rewrite (is_valid_position_grid (TetrisGame.set_current_piece _ _) g) by done.
  rewrite Hvalid. simpl. destruct valid; [done|].
  unfold moved. rewrite set_xy_set_xy, set_xy_same, set_current_piece_twice.
  by rewrite (set_current_piece_same g piece Hcur).
Qed.

Lemma rotate_piece_spec g piece :
  wf_grid (TetrisGame.grid g) →
  TetrisGame.current_piece g = Some piece → wf_piece piece →
  ∃ rotated valid,
    Tetromino.rotate_shape (Tetromino.shape piece) = Some rotated ∧
    wf_piece (Tetromino.set_shape rotated piece) ∧
    TetrisGame.is_valid_position g (Tetromino.set_shape rotated piece)
      = Some valid ∧
    TetrisGame.rotate_piece g =
      Some (if valid
            then TetrisGame.set_current_piece
                   (Some (Tetromino.set_shape rotated piece)) g
            else g).
Proof.
  intros Hwf Hcur Hpiece.
  destruct (rotate_spec piece Hpiece) as (rotated & Hshape & Hrot & Hwf').
  destruct (wf_piece_valid g _ Hwf Hwf') as (valid & Hvalid & _).
  exists rotated, valid. split; [done|]. split; [done|]. split; [done|].
  unfold TetrisGame.rotate_piece. rewrite Hcur, Hrot. simpl.
  rewrite (is_valid_position_grid (TetrisGame.set_current_piece _ _) g) by done.
  rewrite Hvalid. simpl. destruct valid; [done|].
  f_equal. rewrite set_current_piece_twice.
  replace (Tetromino.set_shape (Tetromino.shape piece)
             (Tetromino.set_shape rotated piece)) with piece
    by (by destruct piece).
  by apply set_current_piece_same.
Qed.

(** ** hard_drop *)

Lemma sumn_pos n f : 0 < sumn n f → ∃ i, i < n ∧ 0 < f i.
Proof.
  induction n as [|n IH]; simpl; [lia|]. intros H.
  destruct (decide (0 < f n)) as [Hn|Hn]; [exists n; lia|].
  destruct IH as (i & Hi & Hf); [lia|]. exists i. split; [lia|done].
Qed.

Lemma wf_piece_occupied piece :
  wf_piece piece →
  ∃ r c v, Py.getitem2 (Tetromino.shape piece) r c = Some v ∧ v ≠ 0%Z.
Proof.
  intros (rows & cols & _ & _ & Hrect & Hcount).
  rewrite (count_set_sumn _ _ _ Hrect) in Hcount.
  apply sumn_pos in Hcount as (r & _ & Hr).
  apply sumn_pos in Hr as (c & _ & Hc).
  destruct (Py.getitem2 (Tetromino.shape piece) r c) as [v|] eqn:Hv;
    [|simpl in Hc; lia].
  exists r, c, v. split; [done|]. simpl in Hc.
  destruct (decide (v ≠ 0%Z)); [done|lia].
Qed.

Lemma shift_down_0 piece : shift_down 0 piece = piece.
Proof.
  unfold shift_down. rewrite Z.add_0_r. apply set_xy_same.
Qed.

Lemma shift_down_shift_down i j piece :
  shift_down i (shift_down j piece) = shift_down (j + i) piece.
Proof.
  unfold shift_down, Tetromino.set_xy. simpl. f_equal. lia.
Qed.

Lemma shift_down_wf_piece d piece : wf_piece piece → wf_piece (shift_down d piece).
Proof. done. Qed.

(** A piece whose set cell [shape[r][c]] would end below the floor is
    refused. *)
Lemma below_floor_invalid g piece r c v :
  wf_grid (TetrisGame.grid g) → wf_piece piece →
  Py.getitem2 (Tetromino.shape piece) r c = Some v → v ≠ 0%Z →
  (GRID_HEIGHT ≤ Tetromino.y piece + Z.of_nat r)%Z →
  TetrisGame.is_valid_position g piece = Some false.
Proof.
  intros Hwf Hpiece Hv Hne Hy.
  destruct (wf_piece_valid g piece Hwf Hpiece) as (valid & -> & Hiff).
  f_equal. apply Hiff.
  exists (Tetromino.x piece + Z.of_nat c)%Z, (Tetromino.y piece + Z.of_nat r)%Z.
  split; [by exists r, c, v|]. unfold blocked. tauto.
Qed.

Lemma hard_drop_lands shape_idx (n : nat) : ∀ g piece r c v,
  wf_grid (TetrisGame.grid g) →
  TetrisGame.current_piece g = Some piece → wf_piece piece →
  Py.getitem2 (Tetromino.shape piece) r c = Some v → v ≠ 0%Z →
  (GRID_HEIGHT - (Tetromino.y piece + Z.of_nat r) ≤ Z.of_nat n)%Z →
  ∃ d, lands_at g piece d ∧
       ∀ fuel, d < fuel →
         TetrisGame.hard_drop fuel shape_idx g =
         TetrisGame.of_option
           (TetrisGame.place_piece shape_idx
              (TetrisGame.set_current_piece (Some (shift_down d piece)) g)).
Proof.
  induction n as [|n IH]; intros g piece r c v Hwf Hcur Hpiece Hv Hne Hn.
  - exists 0.
    assert (TetrisGame.is_valid_position g (shift_down 1 piece) = Some false)
      as Hinv.
    { apply (below_floor_invalid g _ r c v); [done..|]. simpl. lia. }
    split; [split; [lia|done]|].
    intros [|fuel] Hfuel; [lia|]. simpl.
    destruct (move_piece_spec 0 1 shape_idx g piece Hwf Hcur Hpiece)
      as (valid & Hvalid & ->).
    rewrite Z.add_0_r in Hvalid. change (Tetromino.set_xy _ _ piece)
      with (shift_down 1 piece) in Hvalid.
    rewrite Hinv in Hvalid. injection Hvalid as <-. simpl.
    rewrite shift_down_0, (set_current_piece_same g piece Hcur).
    by destruct (TetrisGame.place_piece shape_idx g).
  - destruct (move_piece_spec 0 1 shape_idx g piece Hwf Hcur Hpiece)
      as (valid & Hvalid & Hmove).
    rewrite Z.add_0_r in Hvalid, Hmove.
    change (Tetromino.set_xy _ _ piece) with (shift_down 1 piece) in Hvalid, Hmove.
    destruct valid.
    + destruct (IH (TetrisGame.set_current_piece (Some (shift_down 1 piece)) g)
                  (shift_down 1 piece) r c v) as (d & [Hd1 Hd2] & Hrun);
        [done|done|done|done|done|simpl; lia|].
      exists (S d). split; [split|].
      * intros i Hi. destruct (decide (i = 1)) as [->|Hi1]; [done|].
        specialize (Hd1 (i - 1) ltac:(lia)).
        rewrite shift_down_shift_down in Hd1.
        replace (1 + (i - 1)) with i in Hd1 by lia.
        by rewrite <-Hd1.
      * rewrite shift_down_shift_down in Hd2.
        replace (1 + (d + 1)) with (S d + 1) in Hd2 by lia.
        by rewrite <-Hd2.
      * intros [|fuel] Hfuel; [lia|]. simpl. rewrite Hmove.
        rewrite Hrun by lia. rewrite shift_down_shift_down.
        by rewrite set_current_piece_twice.
    + exists 0. split; [split; [lia|done]|].
      intros [|fuel] Hfuel; [lia|]. simpl. rewrite Hmove. simpl.
      rewrite shift_down_0, (set_current_piece_same g piece Hcur).
      by destruct (TetrisGame.place_piece shape_idx g).
Qed.

(** ** spawn_random_block *)

Lemma highest_block_spec (grid : Grid) x n : ∀ a,
  wf_grid grid → x < Z.to_nat GRID_WIDTH → a + n = Z.to_nat GRID_HEIGHT →
  ∃ h, TetrisGame.highest_block grid x (seq a n) = Some h ∧
       a ≤ h ≤ Z.to_nat GRID_HEIGHT ∧
       ∀ y, a ≤ y < h → Py.getitem2 grid y x = Some None.
Proof.
  induction n as [|n IH]; intros a Hwf Hx Han; simpl.
  - exists (Z.to_nat GRID_HEIGHT). split; [done|]. split; [lia|]. lia.
  - destruct (rect_getitem2 _ _ _ a x Hwf) as [cell Hcell]; [lia..|].
    rewrite Hcell. simpl. destruct cell as [color|]; simpl.
    + exists a. split; [done|]. split; [lia|]. lia.
    + destruct (IH (S a) Hwf Hx) as (h & -> & Hh & Hempty); [lia|].
      exists h. split; [done|]. split; [lia|].
      intros y Hy. destruct (decide (y = a)) as [->|Hne]; [done|].
      apply Hempty. lia.
Qed.

Lemma valid_positions_spec (grid : Grid) :
  wf_grid grid →
  ∃ positions, TetrisGame.valid_positions grid = Some positions ∧
    ∀ x y, (x, y) ∈ positions →
           x < Z.to_nat GRID_WIDTH ∧ y < Z.to_nat GRID_HEIGHT ∧
           Py.getitem2 grid y x = Some None.
Proof.
  intros Hwf. unfold TetrisGame.valid_positions.
  destruct (for_each_invariant
    (λ _ (positions : list (nat * nat)), ∀ x y, (x, y) ∈ positions →
       x < Z.to_nat GRID_WIDTH ∧ y < Z.to_nat GRID_HEIGHT ∧
       Py.getitem2 grid y x = Some None)
    (Py.range (Z.to_nat GRID_WIDTH))
    (λ x valid_positions,
      highest_block_y ← TetrisGame.highest_block grid x
                          (Py.range (Z.to_nat GRID_HEIGHT));
      if decide (0 < highest_block_y)
      then Some (valid_positions ++ [(x, highest_block_y - 1)])
      else Some valid_positions) []) as (ps & Hrun & Hps); [| |by exists ps].
  - intros x y H. by apply not_elem_of_nil in H.
  - intros _ x ps Hx Hps. apply elem_of_seq in Hx.
    destruct (highest_block_spec grid x (Z.to_nat GRID_HEIGHT) 0 Hwf)
      as (h & Hh & Hrange & Hempty); [lia|lia|].
    unfold Py.range. rewrite Hh. simpl.
    destruct (decide (0 < h)) as [Hpos|Hzero]; (eexists; split; [done|]); [|done].
    intros x' y' Hin. apply elem_of_app in Hin as [Hin|Hin]; [by apply Hps|].
    apply list_elem_of_singleton in Hin. injection Hin as -> ->.
    split; [lia|]. split; [lia|]. apply Hempty. lia.
Qed.

Lemma spawn_random_block_spec choice color g :
  wf_grid (TetrisGame.grid g) →
  ∃ g', TetrisGame.spawn_random_block choice color g = Some g' ∧
        wf_grid (TetrisGame.grid g') ∧
        blocks_kept (TetrisGame.grid g) (TetrisGame.grid g') ∧
        (g' = g ∨
         ∃ x y grid',
           x < Z.to_nat GRID_WIDTH ∧ y < Z.to_nat GRID_HEIGHT ∧
           Py.getitem2 (TetrisGame.grid g) y x = Some None ∧
           Py.setitem2 (TetrisGame.grid g) y x (Some color) = Some grid' ∧
           g' = TetrisGame.set_grid grid' g).
Proof.
  intros Hwf. unfold TetrisGame.spawn_random_block.
  destruct (valid_positions_spec _ Hwf) as (ps & -> & Hps). simpl.
  destruct ps as [|p0 ps'] eqn:Heq.
  { exists g. split; [done|]. split; [done|].
    split; [apply blocks_kept_refl|by left]. }
  rewrite <-Heq in *.
  destruct (lookup_lt_is_Some_2 ps (choice mod length ps)) as [[x y] Hxy].
  { apply Nat.mod_upper_bound. rewrite Heq. simpl. lia. }
  rewrite Hxy. simpl.
  destruct (Hps x y) as (Hx & Hy & Hempty); [by eapply list_elem_of_lookup_2|].
  destruct (setitem2_spec _ _ (TetrisGame.grid g) y x (Some color) Hwf Hy Hx)
    as (grid' & Hset & Hwf' & Hget).
  rewrite Hset. simpl. eexists. split; [done|]. split; [done|]. split.
  - intros r c color' Hcell. simpl. rewrite Hget.
    destruct (decide (r = y ∧ c = x)); [by exists color|by exists color'].
  - right. by exists x, y, grid'.
Qed.

(** ** The session invariant *)

Lemma session_inv_fields g g' :
  TetrisGame.grid g' = TetrisGame.grid g →
  TetrisGame.current_piece g' = TetrisGame.current_piece g →
  TetrisGame.next_piece g' = TetrisGame.next_piece g →
  TetrisGame.lines_clearing g' = TetrisGame.lines_clearing g →
  session_inv g → session_inv g'.
Proof.
  unfold session_inv, pending_full. intros -> -> -> ->. done.
Qed.

Lemma quiet_refl g : quiet g g.
Proof. split; [apply blocks_kept_refl|done]. Qed.

Lemma quiet_trans g1 g2 g3 : quiet g1 g2 → quiet g2 g3 → quiet g1 g3.
Proof.
  intros (B12 & L12 & C12) (B23 & L23 & C23). split; [|split].
  - by eapply blocks_kept_trans.
  - intros y Hy. by apply L23, L12.
  - by rewrite C23.
Qed.

Lemma quiet_fields g g' :
  TetrisGame.grid g' = TetrisGame.grid g →
  TetrisGame.lines_clearing g' = TetrisGame.lines_clearing g →
  TetrisGame.lines_cleared g' = TetrisGame.lines_cleared g →
  quiet g g'.
Proof.
  intros Hg Hl Hc. unfold quiet. rewrite Hg, Hl, Hc.
  split; [apply blocks_kept_refl|done].
Qed.

Lemma init_spec d :
  ∃ g, TetrisGame.init d = Some g ∧ session_inv g ∧
       TetrisGame.grid g =
         replicate (Z.to_nat GRID_HEIGHT) (replicate (Z.to_nat GRID_WIDTH) None) ∧
       TetrisGame.lines_clearing g = [].
Proof.
  unfold TetrisGame.init.
  set (g0 := TetrisGame.Mk _ _ _ _ _ _ _ _ _ _ _ _ _ _ _).
  set (first := Tetromino.init (GRID_WIDTH / 2 - 1) 0 (shape_draw d)).
  change (TetrisGame.spawn_new_piece (shape_draw d) g0)
    with (Some (TetrisGame.set_next_piece (Some first) g0)).
  cbn [mbind option_bind].
  set (g1 := TetrisGame.set_next_piece (Some first) g0).
  destruct (spawn_new_piece_spec (shape_draw' d) g1 first)
    as (valid & g & _ & -> & Hgrid & Hcur & Hnext & Hlines & _).
  { apply rect_replicate. }
  { done. }
  { apply init_wf_piece. }
  exists g. split; [done|]. split; [|by rewrite Hgrid, Hlines].
  split; [rewrite Hgrid; apply rect_replicate|].
  split; [eexists; split; [done|apply init_wf_piece]|].
  split; [eexists; split; [done|apply init_wf_piece]|].
  intros y Hy. rewrite Hlines in Hy. by apply not_elem_of_nil in Hy.
Qed.

Lemma place_piece_inv shape_idx g :
  session_inv g →
  ∃ g', TetrisGame.place_piece shape_idx g = Some g' ∧
        session_inv g' ∧ quiet g g'.
Proof.
  intros Hinv.
  destruct (place_piece_spec shape_idx g Hinv)
    as (piece & ps & grid' & g1 & g' & _ & _ & Hcommit & _ & _ & Hplace &
        Hinv' & Hgrid & _ & _ & Hlines & Hcleared).
  exists g'. split; [done|]. split; [done|].
  destruct Hinv as (Hwf & _ & _ & Hpend).
  pose proof (commit_blocks_kept _ _ _ _ Hwf Hcommit) as Hkept.
  split; [by rewrite Hgrid|]. split; [|done].
  intros y Hy. apply Hlines. destruct (Hpend y Hy) as [Hlt Hfull].
  split; [done|]. by eapply blocks_kept_full_row.
Qed.

Lemma move_piece_inv dx dy shape_idx g :
  session_inv g →
  ∃ moved g', TetrisGame.move_piece dx dy shape_idx g = Some (moved, g') ∧
              session_inv g' ∧ quiet g g'.
Proof.
  intros Hinv. pose proof Hinv as (Hwf & (piece & Hcur & Hpiece) & _).
  destruct (move_piece_spec dx dy shape_idx g piece Hwf Hcur Hpiece)
    as (valid & _ & ->).
  destruct valid.
  - eexists _, _. split; [done|]. split; [|by apply quiet_fields].
    destruct Hinv as (? & _ & ? & ?). split; [done|].
    split; [|done]. eexists. split; [done|]. by apply set_xy_wf_piece.
  - destruct (0 <? dy)%Z.
    + destruct (place_piece_inv shape_idx g Hinv) as (g' & -> & ? & ?).
      by exists false, g'.
    + exists false, g. split; [done|]. split; [done|apply quiet_refl].
Qed.

Lemma rotate_piece_inv g :
  session_inv g →
  ∃ g', TetrisGame.rotate_piece g = Some g' ∧ session_inv g' ∧ quiet g g'.
Proof.
  intros Hinv. pose proof Hinv as (Hwf & (piece & Hcur & Hpiece) & Hnext & Hpend).
  destruct (rotate_piece_spec g piece Hwf Hcur Hpiece)
    as (rotated & valid & _ & Hwf' & _ & ->).
  eexists. split; [done|]. destruct valid; [|split; [done|apply quiet_refl]].
  split; [|by apply quiet_fields].
  split; [done|]. split; [|done]. by eexists.
Qed.

Lemma hard_drop_inv shape_idx fuel : ∀ g g',
  session_inv g →
  TetrisGame.hard_drop fuel shape_idx g = TetrisGame.Returned g' →
  session_inv g' ∧ quiet g g'.
Proof.
  induction fuel as [|fuel IH]; intros g g' Hinv; simpl; [done|].
  destruct (move_piece_inv 0 1 shape_idx g Hinv) as (moved & g1 & -> & Hinv1 & Hq1).
  destruct moved.
  - intros Hrun. destruct (IH g1 g' Hinv1 Hrun) as [? ?].
    split; [done|]. by eapply quiet_trans.
  - by intros [= <-].
Qed.

Lemma hard_drop_not_raised shape_idx fuel : ∀ g,
  session_inv g → TetrisGame.hard_drop fuel shape_idx g ≠ TetrisGame.Raised.
Proof.
  induction fuel as [|fuel IH]; intros g Hinv; simpl; [done|].
  destruct (move_piece_inv 0 1 shape_idx g Hinv) as (moved & g1 & -> & Hinv1 & _).
  destruct moved; [by apply IH|done].
Qed.

(** ** update *)

Lemma update_fall_inv dt d g :
  session_inv g →
  ∃ g', TetrisGame.update_fall dt d g = Some g' ∧ session_inv g' ∧ quiet g g'.
Proof.
  intros Hinv. unfold TetrisGame.update_fall.
  set (g1 := TetrisGame.set_fall_time _ g).
  assert (session_inv g1) as Hinv1 by (by apply (session_inv_fields g)).
  assert (quiet g g1) as Hq1 by (by apply quiet_fields).
  destruct (TetrisGame.fall_speed g1 <=? TetrisGame.fall_time g1)%Z.
  - destruct (move_piece_inv 0 1 (shape_draw d) g1 Hinv1)
      as (moved & g2 & -> & Hinv2 & Hq2).
    simpl. eexists. split; [done|]. split.
    + by apply (session_inv_fields g2).
    + eapply quiet_trans; [exact Hq1|]. eapply quiet_trans; [exact Hq2|].
      by apply quiet_fields.
  - by exists g1.
Qed.

(** The animation block compacts exactly when rows are pending and the
    clock, advanced by [dt], has reached the duration. *)
Lemma update_clear_spec dt g :
  TetrisGame.update_clear dt g =
  if decide (TetrisGame.lines_clearing g ≠ [] ∧
             (TetrisGame.clear_animation_duration ≤
              TetrisGame.clear_animation_time g + dt)%Z)
  then TetrisGame.finish_line_clear
         (TetrisGame.set_clear_animation_time
            (TetrisGame.clear_animation_time g + dt) g)
  else Some (match TetrisGame.lines_clearing g with
             | [] => g
             | _ :: _ => TetrisGame.set_clear_animation_time
                           (TetrisGame.clear_animation_time g + dt) g
             end).
Proof.
  unfold TetrisGame.update_clear.
  destruct (TetrisGame.lines_clearing g) as [|y lines] eqn:Hlines.
  { rewrite decide_False; [done|]. by intros [? _]. }
  simpl.
  destruct (Z.leb_spec TetrisGame.clear_animation_duration
              (TetrisGame.clear_animation_time g + dt)) as [Hle|Hlt].
  - rewrite decide_True; done.
  - rewrite decide_False; [done|]. intros [_ ?]. lia.
Qed.

Lemma update_clear_inv dt g :
  session_inv g →
  ∃ g', TetrisGame.update_clear dt g = Some g' ∧ session_inv g' ∧
        (quiet g g' ∨
         (TetrisGame.lines_clearing g ≠ [] ∧
          (TetrisGame.clear_animation_duration ≤
           TetrisGame.clear_animation_time g + dt)%Z ∧
          TetrisGame.lines_clearing g' = [] ∧
          (TetrisGame.lines_cleared g < TetrisGame.lines_cleared g')%Z)).
Proof.
  intros Hinv. rewrite update_clear_spec.
  set (g1 := TetrisGame.set_clear_animation_time _ g).
  assert (session_inv g1) as Hinv1 by (by apply (session_inv_fields g)).
  destruct (decide _) as [[Hne Hle]|Hno].
  - pose proof Hinv1 as (Hwf & Hcur & Hnext & Hpend).
    destruct (finish_line_clear_spec g1 Hwf Hpend)
      as (g' & Hfin & Hwf' & Hcur' & Hnext' & Hlines').
    exists g'. split; [done|]. split.
    + split; [done|]. split; [by rewrite Hcur'|]. split; [by rewrite Hnext'|].
      intros y Hy. rewrite Hlines' in Hy. by apply not_elem_of_nil in Hy.
    + right. split; [done|]. split; [done|]. split; [done|].
      destruct (finish_line_clear_scoring g1 g' Hne Hfin) as (_ & -> & _).
      change (TetrisGame.lines_cleared g1) with (TetrisGame.lines_cleared g).
      change (TetrisGame.lines_clearing g1) with (TetrisGame.lines_clearing g).
      destruct (TetrisGame.lines_clearing g); [done|]. simpl. lia.
  - eexists. split; [done|].
    destruct (TetrisGame.lines_clearing g) eqn:Hl.
    + split; [done|]. left. apply quiet_refl.
    + split; [done|]. left. by apply quiet_fields.
Qed.

Lemma update_random_inv dt d g :
  session_inv g →
  ∃ g', TetrisGame.update_random dt d g = Some g' ∧ session_inv g' ∧
        quiet g g' ∧
        TetrisGame.lines_clearing g' = TetrisGame.lines_clearing g.
Proof.
  intros Hinv. unfold TetrisGame.update_random.
  destruct (TetrisGame.random_blocks_enabled g);
    [|exists g; split; [done|]; split; [done|]; split; [apply quiet_refl|done]].
  set (g1 := TetrisGame.set_random_block_time _ g).
  assert (session_inv g1) as Hinv1 by (by apply (session_inv_fields g)).
  destruct (TetrisGame.random_block_interval g1 <=? TetrisGame.random_block_time g1)%Z;
    [|exists g1; split; [done|]; split; [done|];
      split; [by apply quiet_fields|done]].
  pose proof Hinv1 as (Hwf & Hcur & Hnext & Hpend).
  destruct (spawn_random_block_spec (choice_draw d) (color_draw d) g1 Hwf)
    as (g2 & -> & Hwf2 & Hkept & Hcase).
  simpl. eexists. split; [done|].
  assert (TetrisGame.current_piece g2 = TetrisGame.current_piece g ∧
          TetrisGame.next_piece g2 = TetrisGame.next_piece g ∧
          TetrisGame.lines_clearing g2 = TetrisGame.lines_clearing g ∧
          TetrisGame.lines_cleared g2 = TetrisGame.lines_cleared g)
    as (Hc2 & Hn2 & Hl2 & Hd2).
  { destruct Hcase as [->|(x & y & grid' & _ & _ & _ & _ & ->)]; done. }
  split.
  - split; [done|]. simpl. rewrite Hc2, Hn2. split; [done|]. split; [done|].
    intros y Hy. simpl in Hy. rewrite Hl2 in Hy.
    destruct (Hpend y Hy) as [Hlt Hfull]. split; [done|].
    by eapply blocks_kept_full_row.
  - split; [|done]. split; [done|]. simpl. rewrite Hl2, Hd2. done.
Qed.

Lemma update_inv dt d g :
  session_inv g →
  ∃ g', TetrisGame.update dt d g = Some g' ∧ session_inv g' ∧
        (quiet g g' ∨
         ((TetrisGame.lines_cleared g < TetrisGame.lines_cleared g')%Z ∧
          TetrisGame.lines_clearing g' = [])).
Proof.
  intros Hinv. unfold TetrisGame.update.
  destruct (TetrisGame.game_over g || TetrisGame.paused g).
  { exists g. split; [done|]. split; [done|]. left. apply quiet_refl. }
  destruct (update_fall_inv dt d g Hinv) as (g1 & -> & Hinv1 & Hq1). simpl.
  destruct (update_clear_inv dt g1 Hinv1) as (g2 & -> & Hinv2 & Hq2). simpl.
  destruct (update_random_inv dt d g2 Hinv2) as (g3 & -> & Hinv3 & Hq3 & Hl3).
  exists g3. split; [done|]. split; [done|].
  destruct Hq2 as [Hq2|(_ & _ & Hl2 & Hlt)].
  - left. eapply quiet_trans; [exact Hq1|]. by eapply quiet_trans.
  - right. destruct Hq1 as (_ & _ & Hc1). destruct Hq3 as (_ & _ & Hc3).
    rewrite Hc3, Hl3. split; [by rewrite <-Hc1|done].
Qed.

(** ** Every reachable state satisfies the session invariant *)

Lemma handle_key_inv fuel key d g g' :
  session_inv g →
  TetrisGame.handle_key fuel key d g = TetrisGame.Returned g' →
  session_inv g' ∧ (key = TetrisGame.K_r ∨ quiet g g').
Proof.
  intros Hinv.
  assert (∀ dx dy, TetrisGame.of_option
            (snd <$> TetrisGame.move_piece dx dy (shape_draw d) g)
            = TetrisGame.Returned g' → session_inv g' ∧ quiet g g') as Hmove.
  { intros dx dy.
    destruct (move_piece_inv dx dy (shape_draw d) g Hinv) as (m & g1 & -> & ? & ?).
    simpl. by intros [= <-]. }
  unfold TetrisGame.handle_key. destruct key.
  - destruct (init_spec d) as (g0 & -> & Hinv0 & _). simpl.
    intros [= <-]. split; [done|by left].
  - intros [= <-]. split; [by apply (session_inv_fields g)|].
    right. by apply quiet_fields.
  - intros [= <-]. split; [by apply (session_inv_fields g)|].
    right. by apply quiet_fields.
  - destruct (negb _ && negb _).
    + intros H. destruct (Hmove _ _ H). split; [done|by right].
    + intros [= <-]. split; [done|right; apply quiet_refl].
  - destruct (negb _ && negb _).
    + intros H. destruct (Hmove _ _ H). split; [done|by right].
    + intros [= <-]. split; [done|right; apply quiet_refl].
  - destruct (negb _ && negb _).
    + intros H. destruct (Hmove _ _ H). split; [done|by right].
    + intros [= <-]. split; [done|right; apply quiet_refl].
  - destruct (negb _ && negb _).
    + destruct (rotate_piece_inv g Hinv) as (g1 & -> & ? & ?). simpl.
      intros [= <-]. split; [done|by right].
    + intros [= <-]. split; [done|right; apply quiet_refl].
  - destruct (negb _ && negb _).
    + intros H. destruct (hard_drop_inv _ _ _ _ Hinv H). split; [done|by right].
    + intros [= <-]. split; [done|right; apply quiet_refl].
Qed.

Lemma run_input_inv fuel i d g g' :
  session_inv g →
  TetrisGame.run_input fuel i d g = TetrisGame.Returned g' →
  session_inv g'.
Proof.
  intros Hinv. destruct i as [key|dt]; simpl.
  - intros H. by destruct (handle_key_inv _ _ _ _ _ Hinv H).
  - destruct (update_inv dt d g Hinv) as (g1 & -> & ? & _). simpl.
    by intros [= <-].
Qed.

Lemma reachable_inv g : reachable g → session_inv g.
Proof.
  induction 1 as [d g Hinit|fuel i d g g' _ IH _ Hrun].
  - destruct (init_spec d) as (g0 & Hg0 & Hinv & _).
    rewrite Hinit in Hg0. by injection Hg0 as ->.
  - by eapply run_input_inv.
Qed.

Lemma reachable_run fuel trace : ∀ g g',
  reachable g → Forall (λ step, valid_input step.1) trace →
  run_trace fuel trace g = TetrisGame.Returned g' → reachable g'.
Proof.
  induction trace as [|[i d] trace IH]; intros g g' Hg Hvalid; simpl.
  - by intros [= <-].
  - apply Forall_cons in Hvalid as [Hi Hvalid].
    destruct (TetrisGame.run_input fuel i d g) as [g1| |] eqn:Hrun; [|done..].
    apply IH; [|done]. by eapply reachable_step.
Qed.

(** ** Concrete sessions are sessions *)

Lemma init_fresh d : TetrisGame.init d = Some (fresh d).
Proof. destruct d as [a b ? ? ?]. by destruct a, b. Qed.

Lemma reachable_fresh d : reachable (fresh d).
Proof. apply (reachable_init d), init_fresh. Qed.

(** A trace of key presses and non-negative ticks that runs to the end
    leads from a reachable state to a reachable state. *)
Lemma reachable_after trace g :
  reachable g →
  forallb (λ step, match step.1 with
                   | TetrisGame.Tick dt => (0 <=? dt)%Z
                   | TetrisGame.KeyDown _ => true
                   end) trace = true →
  (if run_trace 32 trace g is TetrisGame.Returned _ then true else false) = true →
  reachable (after trace g).
Proof.
  intros Hg Hvalid Hrun. unfold after.
  destruct (run_trace 32 trace g) as [g'| |] eqn:Htrace; [|done..].
  apply (reachable_run 32 trace g g' Hg); [|done].
  apply Forall_forall. intros [i d] Hin.
  rewrite forallb_forall in Hvalid. apply list_elem_of_In, Hvalid in Hin.
  destruct i as [key|dt]; simpl in *; [done|lia].
Qed.

Lemma reachable_clearing : reachable Example.clearing.
Proof. by apply reachable_after; [apply reachable_fresh|vm_compute..]. Qed.

Lemma reachable_resting : reachable Example.resting.
Proof. by apply reachable_after; [apply reachable_clearing|vm_compute..]. Qed.

Lemma reachable_two_pending : reachable Example.two_pending.
Proof. by apply reachable_after; [apply reachable_fresh|vm_compute..]. Qed.

Lemma reachable_two_pending_under_blocks :
  reachable Example.two_pending_under_blocks.
Proof. by apply reachable_after; [apply reachable_fresh|vm_compute..]. Qed.

Lemma reachable_over_cave : reachable Example.over_cave.
Proof. by apply reachable_after; [apply reachable_fresh|vm_compute..]. Qed.

Lemma reachable_topped_out : reachable Example.topped_out.
Proof. by apply reachable_after; [apply reachable_fresh|vm_compute..]. Qed.

Lemma reachable_at_right_wall : reachable Example.at_right_wall.
Proof. by apply reachable_after; [apply reachable_fresh|vm_compute..]. Qed.

(** * The claims *)

(** ** C7: rotation *)

(** C7.  For every piece whose shape is a non-empty rectangular matrix
    ([rows] by [cols], both positive), [rotate] returns a piece whose shape
    has [cols] rows of [rows] entries with
    [new[c][rows - 1 - r] = old[r][c]] and the same number of set cells,
    and four rotations in succession return the piece itself, shape
    identical entry for entry. *)
Theorem C7_rotate_four_times_identity piece rows cols :
  0 < rows → 0 < cols → rect rows cols (Tetromino.shape piece) →
  (∃ rotated,
     Tetromino.rotate piece = Some rotated ∧
     rect cols rows (Tetromino.shape rotated) ∧
     (∀ r c, r < rows → c < cols →
        Py.getitem2 (Tetromino.shape rotated) c (rows - 1 - r) =
        Py.getitem2 (Tetromino.shape piece) r c) ∧
     count_set (Tetromino.shape rotated) = count_set (Tetromino.shape piece)) ∧
  (p1 ← Tetromino.rotate piece;
   p2 ← Tetromino.rotate p1;
   p3 ← Tetromino.rotate p2;
   Tetromino.rotate p3) = Some piece.
Proof.
  intros Hrows Hcols Hrect. split.
  - destruct (rotate_shape_spec rows cols _ Hrows Hrect) as (rotated & Hrot & Hr & Hget).
    exists (Tetromino.set_shape rotated piece).
    unfold Tetromino.rotate. rewrite Hrot. simpl.
    split; [done|]. split; [done|]. split.
    + intros r c Hr' Hc. rewrite Hget by lia. f_equal. lia.
    + by apply (rotate_shape_count rows cols).
  - pose proof (rotate_shape_four rows cols _ Hrows Hcols Hrect) as Hfour.
    unfold Tetromino.rotate.
    destruct (Tetromino.rotate_shape (Tetromino.shape piece)) as [s1|]; [|done].
    simpl in *.
    destruct (Tetromino.rotate_shape s1) as [s2|]; [|done]. simpl in *.
    destruct (Tetromino.rotate_shape s2) as [s3|]; [|done]. simpl in *.
    rewrite Hfour. simpl. by destruct piece.
Qed.

Lemma C7_witness :
  let piece := Tetromino.init 4 0 T_ in
  (∃ rotated,
     Tetromino.rotate piece = Some rotated ∧
     rect 3 2 (Tetromino.shape rotated) ∧
     (∀ r c, r < 2 → c < 3 →
        Py.getitem2 (Tetromino.shape rotated) c (2 - 1 - r) =
        Py.getitem2 (Tetromino.shape piece) r c) ∧
     count_set (Tetromino.shape rotated) = count_set (Tetromino.shape piece)) ∧
  (p1 ← Tetromino.rotate piece;
   p2 ← Tetromino.rotate p1;
   p3 ← Tetromino.rotate p2;
   Tetromino.rotate p3) = Some piece.
Proof.
  apply (C7_rotate_four_times_identity (Tetromino.init 4 0 T_) 2 3).
  - lia.
  - lia.
  - split; [reflexivity|]. repeat constructor.
Defined.

(** ** C6: is_valid_position *)

(** C6.  On a playfield of 20 rows of 10 cells, [is_valid_position] returns
    for every piece with a rectangular shape, and it returns [False]
    exactly when some occupied cell [(x, y)] of the piece has [x < 0], or
    [x >= 10], or [y >= 20], or [y >= 0] with [grid[y][x]] non-empty.
    Cells with [y < 0] are never compared with the grid: there is a piece
    with an occupied cell above the field whose position is valid. *)
Theorem C6_is_valid_position_iff :
  (∀ g piece rows cols,
     wf_grid (TetrisGame.grid g) → rect rows cols (Tetromino.shape piece) →
     ∃ valid, TetrisGame.is_valid_position g piece = Some valid ∧
       (valid = false ↔
        ∃ x y, occupied piece x y ∧
               ((x < 0)%Z ∨ (GRID_WIDTH ≤ x)%Z ∨ (GRID_HEIGHT ≤ y)%Z ∨
                ((0 ≤ y)%Z ∧ filled (TetrisGame.grid g) x y)))) ∧
  (∃ g piece x y,
     reachable g ∧ occupied piece x y ∧ (y < 0)%Z ∧
     TetrisGame.is_valid_position g piece = Some true).
Proof.
  split.
  - intros g piece rows cols Hwf Hrect.
    by apply (is_valid_position_spec rows cols).
  - exists (fresh (Example.draw T_)), (Tetromino.init 4 (-1) T_), 4%Z, (-1)%Z.
    split; [apply reachable_fresh|]. split; [|done].
    by exists 0, 0, 1%Z.
Qed.

Lemma C6_witness :
  ∃ valid,
    TetrisGame.is_valid_position Example.clearing (Tetromino.init 4 18 T_)
      = Some valid ∧
    (valid = false ↔
     ∃ x y, occupied (Tetromino.init 4 18 T_) x y ∧
            ((x < 0)%Z ∨ (GRID_WIDTH ≤ x)%Z ∨ (GRID_HEIGHT ≤ y)%Z ∨
             ((0 ≤ y)%Z ∧ filled (TetrisGame.grid Example.clearing) x y))).
Proof.
  apply (proj1 C6_is_valid_position_iff Example.clearing
           (Tetromino.init 4 18 T_) 2 3).
  - split; [reflexivity|]. vm_compute. repeat constructor.
  - split; [reflexivity|]. repeat constructor.
Defined.

(** ** C3: a blocked spawn *)

(** C3.  Whenever [spawn_new_piece] promotes a next piece whose position is
    invalid, it returns with [game_over] set, the promoted piece as current
    piece and a new next piece at the spawn position; the grid is the one
    before the call, cell for cell (nothing is cleared, nothing is
    committed), and so are the score and the pending rows. *)
Theorem C3_blocked_spawn_sets_game_over shape_idx g next :
  TetrisGame.next_piece g = Some next →
  TetrisGame.is_valid_position g next = Some false →
  ∃ g', TetrisGame.spawn_new_piece shape_idx g = Some g' ∧
        TetrisGame.game_over g' = true ∧
        TetrisGame.grid g' = TetrisGame.grid g ∧
        TetrisGame.current_piece g' = Some next ∧
        TetrisGame.next_piece g' =
          Some (Tetromino.init (GRID_WIDTH / 2 - 1) 0 shape_idx) ∧
        TetrisGame.lines_clearing g' = TetrisGame.lines_clearing g ∧
        TetrisGame.score g' = TetrisGame.score g.
Proof.
  intros Hnext Hinvalid. unfold TetrisGame.spawn_new_piece. rewrite Hnext.
  rewrite (is_valid_position_grid (TetrisGame.set_next_piece _ _) g) by done.
  rewrite Hinvalid. simpl. eexists. split; [done|]. done.
Qed.

Lemma C3_witness :
  ∃ g', TetrisGame.spawn_new_piece J_ Example.topped_out = Some g' ∧
        TetrisGame.game_over g' = true ∧
        TetrisGame.grid g' = TetrisGame.grid Example.topped_out ∧
        TetrisGame.current_piece g' = Some (Tetromino.init 4 0 O_) ∧
        TetrisGame.next_piece g' =
          Some (Tetromino.init (GRID_WIDTH / 2 - 1) 0 J_) ∧
        TetrisGame.lines_clearing g' =
          TetrisGame.lines_clearing Example.topped_out ∧
        TetrisGame.score g' = TetrisGame.score Example.topped_out.
Proof.
  apply (C3_blocked_spawn_sets_game_over J_ Example.topped_out
           (Tetromino.init 4 0 O_)).
  - vm_compute. reflexivity.
  - vm_compute. reflexivity.
Defined.

(** ** C4: move_piece *)

(** C4.  In a session state with current piece [piece], [move_piece(dx, dy)]
    tests the piece at [(x + dx, y + dy)].  If that position is valid it
    returns [True] and the piece is there.  If it is invalid it returns
    [False] with the piece back at [(x, y)]; when [dy <= 0] nothing else
    changes.  When [dy > 0] the piece is committed where it was before the
    attempt: in the grid that [move_piece] leaves, every cell of the
    playfield that the piece occupies at [(x, y)] holds the colour of the
    piece and every other cell is as it was, so a cell that only the
    attempted position covers is not written.  Full rows are detected on
    that grid: the pending rows are exactly its full rows.  The next piece
    is spawned: it is the current piece and a new next piece is drawn.  The
    state is the one that the commit loop, [clear_lines] and
    [spawn_new_piece] produce in this order. *)
Theorem C4_move_piece dx dy shape_idx g piece :
  session_inv g → TetrisGame.current_piece g = Some piece →
  let moved := Tetromino.set_xy (Tetromino.x piece + dx)
                                (Tetromino.y piece + dy) piece in
  ∃ valid,
    TetrisGame.is_valid_position g moved = Some valid ∧
    if valid
    then TetrisGame.move_piece dx dy shape_idx g =
           Some (true, TetrisGame.set_current_piece (Some moved) g)
    else if decide (0 < dy)%Z
    then ∃ positions grid' g1 g',
           Tetromino.get_positions piece = Some positions ∧
           TetrisGame.commit (Tetromino.color piece) positions
             (TetrisGame.grid g) = Some grid' ∧
           TetrisGame.clear_lines (TetrisGame.set_grid grid' g) = Some g1 ∧
           TetrisGame.spawn_new_piece shape_idx g1 = Some g' ∧
           TetrisGame.move_piece dx dy shape_idx g = Some (false, g') ∧
           wf_grid (TetrisGame.grid g') ∧
           (∀ r c, r < Z.to_nat GRID_HEIGHT → c < Z.to_nat GRID_WIDTH →
              (occupied piece (Z.of_nat c) (Z.of_nat r) →
               Py.getitem2 (TetrisGame.grid g') r c
               = Some (Some (Tetromino.color piece))) ∧
              (¬ occupied piece (Z.of_nat c) (Z.of_nat r) →
               Py.getitem2 (TetrisGame.grid g') r c
               = Py.getitem2 (TetrisGame.grid g) r c)) ∧
           (∀ r c, r < Z.to_nat GRID_HEIGHT → c < Z.to_nat GRID_WIDTH →
              occupied moved (Z.of_nat c) (Z.of_nat r) →
              ¬ occupied piece (Z.of_nat c) (Z.of_nat r) →
              Py.getitem2 (TetrisGame.grid g') r c
              = Py.getitem2 (TetrisGame.grid g) r c) ∧
           (∀ y, y ∈ TetrisGame.lines_clearing g' ↔
                 y < Z.to_nat GRID_HEIGHT ∧
                 full_row (TetrisGame.grid g') y) ∧
           TetrisGame.current_piece g' = TetrisGame.next_piece g ∧
           TetrisGame.next_piece g' =
             Some (Tetromino.init (GRID_WIDTH / 2 - 1) 0 shape_idx)
    else TetrisGame.move_piece dx dy shape_idx g = Some (false, g).
Proof.
  intros Hinv Hcur moved.
  pose proof Hinv as (Hwf & (piece' & Hcur' & Hpiece) & _).
  rewrite Hcur in Hcur'. injection Hcur' as <-.
  destruct (move_piece_spec dx dy shape_idx g piece Hwf Hcur Hpiece)
    as (valid & Hvalid & Hmove).
  exists valid. split; [done|]. destruct valid; [done|].
  destruct (Z.ltb_spec 0 dy) as [Hdown|Hnot].
  - rewrite decide_True by done.
    destruct (place_piece_spec shape_idx g Hinv)
      as (piece' & ps & grid' & g1 & g' & Hcur' & Hps & Hcommit & Hclear &
          Hspawn & Hplace & Hinv' & Hgrid & Hpromoted & Hdrawn & Hlines & _).
    rewrite Hcur in Hcur'. injection Hcur' as <-.
    pose proof Hpiece as (rows & cols & _ & _ & Hrect & _).
    destruct (get_positions_spec rows cols piece Hrect)
      as (ps' & Hps' & Hocc).
    rewrite Hps in Hps'. injection Hps' as <-.
    destruct (commit_spec (Tetromino.color piece) ps _ Hwf)
      as (grid'' & Hcommit' & _ & Hin & Hout).
    rewrite Hcommit in Hcommit'. injection Hcommit' as <-.
    assert (∀ r c, r < Z.to_nat GRID_HEIGHT → c < Z.to_nat GRID_WIDTH →
              (occupied piece (Z.of_nat c) (Z.of_nat r) →
               Py.getitem2 (TetrisGame.grid g') r c
               = Some (Some (Tetromino.color piece))) ∧
              (¬ occupied piece (Z.of_nat c) (Z.of_nat r) →
               Py.getitem2 (TetrisGame.grid g') r c
               = Py.getitem2 (TetrisGame.grid g) r c)) as Hcells.
    { intros r c Hr Hc. rewrite Hgrid. split.
      - intros Hcell. apply Hin; [by apply Hocc|].
        unfold in_field, GRID_WIDTH, GRID_HEIGHT in *. lia.
      - intros Hfree. apply Hout. by rewrite Hocc. }
    exists ps, grid', g1, g'. rewrite Hmove, Hplace.
    split; [done|]. split; [done|]. split; [done|]. split; [done|].
    split; [done|]. split; [apply Hinv'|]. split; [exact Hcells|].
    split; [|by rewrite Hgrid].
    intros r c Hr Hc _ Hfree. by apply Hcells.
  - rewrite decide_False by lia. done.
Qed.

Lemma C4_witness :
  let g := Example.resting in
  let piece := Tetromino.Mk 4 17 [[1; 1; 1]; [0; 1; 0]]%Z MAGENTA 0 in
  let moved := Tetromino.set_xy (4 + 0) (17 + 1) piece in
  ∃ valid,
    TetrisGame.is_valid_position g moved = Some valid ∧
    if valid
    then TetrisGame.move_piece 0 1 J_ g =
           Some (true, TetrisGame.set_current_piece (Some moved) g)
    else if decide (0 < 1)%Z
    then ∃ positions grid' g1 g',
           Tetromino.get_positions piece = Some positions ∧
           TetrisGame.commit (Tetromino.color piece) positions
             (TetrisGame.grid g) = Some grid' ∧
           TetrisGame.clear_lines (TetrisGame.set_grid grid' g) = Some g1 ∧
           TetrisGame.spawn_new_piece J_ g1 = Some g' ∧
           TetrisGame.move_piece 0 1 J_ g = Some (false, g') ∧
           wf_grid (TetrisGame.grid g') ∧
           (∀ r c, r < Z.to_nat GRID_HEIGHT → c < Z.to_nat GRID_WIDTH →
              (occupied piece (Z.of_nat c) (Z.of_nat r) →
               Py.getitem2 (TetrisGame.grid g') r c
               = Some (Some (Tetromino.color piece))) ∧
              (¬ occupied piece (Z.of_nat c) (Z.of_nat r) →
               Py.getitem2 (TetrisGame.grid g') r c
               = Py.getitem2 (TetrisGame.grid g) r c)) ∧
           (∀ r c, r < Z.to_nat GRID_HEIGHT → c < Z.to_nat GRID_WIDTH →
              occupied moved (Z.of_nat c) (Z.of_nat r) →
              ¬ occupied piece (Z.of_nat c) (Z.of_nat r) →
              Py.getitem2 (TetrisGame.grid g') r c
              = Py.getitem2 (TetrisGame.grid g) r c) ∧
           (∀ y, y ∈ TetrisGame.lines_clearing g' ↔
                 y < Z.to_nat GRID_HEIGHT ∧
                 full_row (TetrisGame.grid g') y) ∧
           TetrisGame.current_piece g' = TetrisGame.next_piece g ∧
           TetrisGame.next_piece g' =
             Some (Tetromino.init (GRID_WIDTH / 2 - 1) 0 J_)
    else TetrisGame.move_piece 0 1 J_ g = Some (false, g).
Proof.
  apply (C4_move_piece 0 1 J_ Example.resting
           (Tetromino.Mk 4 17 [[1; 1; 1]; [0; 1; 0]]%Z MAGENTA 0)).
  - apply reachable_inv, reachable_resting.
  - vm_compute. reflexivity.
Defined.

(** ** C9: a refused rotation *)

(** C9.  Whenever the rotated shape of the current piece is at an invalid
    position, [rotate_piece] returns and leaves the whole game state as it
    was: the shape and the origin of the piece, the grid and every other
    field.  No other position is tried and no exception is raised. *)
Theorem C9_refused_rotation_changes_nothing g piece rotated :
  TetrisGame.current_piece g = Some piece →
  Tetromino.rotate piece = Some rotated →
  TetrisGame.is_valid_position g rotated = Some false →
  TetrisGame.rotate_piece g = Some g.
Proof.
  intros Hcur Hrot Hinvalid. unfold TetrisGame.rotate_piece.
  rewrite Hcur, Hrot. simpl.
  rewrite (is_valid_position_grid (TetrisGame.set_current_piece _ _) g) by done.
  rewrite Hinvalid. simpl. f_equal.
  unfold Tetromino.rotate in Hrot.
  destruct (Tetromino.rotate_shape (Tetromino.shape piece)) as [sh|]; [|done].
  injection Hrot as <-. rewrite set_current_piece_twice.
  replace (Tetromino.set_shape (Tetromino.shape piece)
             (Tetromino.set_shape sh piece)) with piece by (by destruct piece).
  by apply set_current_piece_same.
Qed.

Lemma C9_witness :
  TetrisGame.rotate_piece Example.at_right_wall = Some Example.at_right_wall.
Proof.
  apply (C9_refused_rotation_changes_nothing Example.at_right_wall
           (Tetromino.Mk 9 0 [[1]; [1]; [1]; [1]]%Z CYAN 0)
           (Tetromino.Mk 9 0 [[1; 1; 1; 1]]%Z CYAN 0)).
  - vm_compute. reflexivity.
  - vm_compute. reflexivity.
  - vm_compute. reflexivity.
Defined.

(** ** C5: hard_drop *)

Lemma Returned_inj g1 g2 :
  TetrisGame.Returned g1 = TetrisGame.Returned g2 → g1 = g2.
Proof. by intros [= ->]. Qed.

Lemma hard_drop_more_fuel shape_idx fuel : ∀ fuel' g g',
  TetrisGame.hard_drop fuel shape_idx g = TetrisGame.Returned g' →
  fuel ≤ fuel' →
  TetrisGame.hard_drop fuel' shape_idx g = TetrisGame.Returned g'.
Proof.
  induction fuel as [|fuel IH]; intros fuel' g g'; simpl; [done|].
  intros Hrun Hle. destruct fuel' as [|fuel']; [lia|]. simpl.
  destruct (TetrisGame.move_piece 0 1 shape_idx g) as [[[] g1]|]; [|done..].
  apply IH; [done|lia].
Qed.

(** C5, amended.  In every session state [hard_drop] returns: the loop
    makes [d] successful downward steps, where each of the translations by
    [1, ..., d] rows is valid and the translation by [d + 1] rows is not,
    and the refused step places the piece at the translation by [d]: its
    positions there are written into the grid, followed by the full-row
    scan and the spawn. *)
Theorem C5_hard_drop_lands_on_first_obstruction shape_idx g piece :
  session_inv g → TetrisGame.current_piece g = Some piece →
  ∃ d positions g',
    (∀ i, 1 ≤ i ≤ d →
       TetrisGame.is_valid_position g (shift_down i piece) = Some true) ∧
    TetrisGame.is_valid_position g (shift_down (d + 1) piece) = Some false ∧
    (∀ fuel, d < fuel →
       TetrisGame.hard_drop fuel shape_idx g = TetrisGame.Returned g') ∧
    TetrisGame.place_piece shape_idx
      (TetrisGame.set_current_piece (Some (shift_down d piece)) g) = Some g' ∧
    Tetromino.get_positions (shift_down d piece) = Some positions ∧
    TetrisGame.commit (Tetromino.color piece) positions (TetrisGame.grid g)
      = Some (TetrisGame.grid g').
Proof.
  intros Hinv Hcur.
  pose proof Hinv as (Hwf & (piece' & Hcur' & Hpiece) & Hnext & Hpend).
  rewrite Hcur in Hcur'. injection Hcur' as <-.
  destruct (wf_piece_occupied piece Hpiece) as (r & c & v & Hv & Hne).
  destruct (hard_drop_lands shape_idx
              (Z.to_nat (GRID_HEIGHT - (Tetromino.y piece + Z.of_nat r)))
              g piece r c v Hwf Hcur Hpiece Hv Hne) as (d & [Hsteps Hstop] & Hrun);
    [lia|].
  set (g_d := TetrisGame.set_current_piece (Some (shift_down d piece)) g) in *.
  assert (session_inv g_d) as Hinv_d.
  { split; [done|]. split; [|done]. eexists. split; [done|].
    by apply shift_down_wf_piece. }
  destruct (place_piece_spec shape_idx g_d Hinv_d)
    as (piece_d & ps & grid' & g1 & g' & Hcur_d & Hps & Hcommit & _ & _ &
        Hplace & _ & Hgrid' & _).
  injection Hcur_d as <-.
  exists d, ps, g'. split; [done|]. split; [done|]. split.
  { intros fuel Hfuel. rewrite (Hrun fuel Hfuel), Hplace. done. }
  split; [done|]. split; [done|]. by rewrite Hgrid'.
Qed.

Lemma C5_witness :
  ∃ d positions g',
    (∀ i, 1 ≤ i ≤ d →
       TetrisGame.is_valid_position Example.over_cave
         (shift_down i (Tetromino.init 1 0 O_)) = Some true) ∧
    TetrisGame.is_valid_position Example.over_cave
      (shift_down (d + 1) (Tetromino.init 1 0 O_)) = Some false ∧
    (∀ fuel, d < fuel →
       TetrisGame.hard_drop fuel J_ Example.over_cave = TetrisGame.Returned g') ∧
    TetrisGame.place_piece J_
      (TetrisGame.set_current_piece
         (Some (shift_down d (Tetromino.init 1 0 O_))) Example.over_cave)
      = Some g' ∧
    Tetromino.get_positions (shift_down d (Tetromino.init 1 0 O_))
      = Some positions ∧
    TetrisGame.commit (Tetromino.color (Tetromino.init 1 0 O_)) positions
      (TetrisGame.grid Example.over_cave) = Some (TetrisGame.grid g').
Proof.
  apply (C5_hard_drop_lands_on_first_obstruction J_ Example.over_cave
           (Tetromino.init 1 0 O_)).
  - apply reachable_inv, reachable_over_cave.
  - vm_compute. reflexivity.
Defined.

(** Over the cave the O piece stops on the roof, 13 rows down, although
    the position 18 rows down, on the floor of the cave, is valid and is
    the deepest landing. *)
Lemma C5_counterexample : ¬ hard_drop_reaches_deepest_landing.
Proof.
  intros Hclaim.
  assert (TetrisGame.current_piece Example.over_cave
          = Some (Tetromino.init 1 0 O_)) as Hcur by (vm_compute; reflexivity).
  destruct (Hclaim Example.over_cave (Tetromino.init 1 0 O_) J_
              reachable_over_cave Hcur)
    as (fuel & d & g' & Hrun & (Hvalid & _ & Hmax) & Hplace).
  pose proof (reachable_inv _ reachable_over_cave) as (Hwf & _).
  assert (TetrisGame.hard_drop 32 J_ Example.over_cave
          = TetrisGame.Returned Example.dropped) as Hrun32
    by (vm_compute; reflexivity).
  apply (hard_drop_more_fuel _ _ (fuel `max` 32)) in Hrun; [|lia].
  apply (hard_drop_more_fuel _ _ (fuel `max` 32)) in Hrun32; [|lia].
  rewrite Hrun in Hrun32. apply Returned_inj in Hrun32. subst g'.
  assert (TetrisGame.is_valid_position Example.over_cave
            (shift_down 18 (Tetromino.init 1 0 O_)) = Some true) as H18
    by (vm_compute; reflexivity).
  assert (TetrisGame.is_valid_position Example.over_cave
            (shift_down (18 + 1) (Tetromino.init 1 0 O_)) = Some false) as H19
    by (vm_compute; reflexivity).
  pose proof (Hmax 18 H18 H19) as Hdeep.
  assert (d ≤ 18) as Hfloor.
  { destruct (decide (d ≤ 18)) as [|Hbelow]; [done|]. exfalso.
    pose proof (below_floor_invalid Example.over_cave
                  (shift_down d (Tetromino.init 1 0 O_)) 1 0 1%Z Hwf
                  (shift_down_wf_piece d _ (init_wf_piece 1 0 O_))
                  eq_refl ltac:(lia)) as Hinv.
    rewrite Hinv in Hvalid.
    - discriminate Hvalid.
    - unfold GRID_HEIGHT. cbn [Tetromino.y shift_down Tetromino.set_xy Tetromino.init]. lia. }
  assert (d = 18) as -> by lia.
  apply (f_equal (λ o, g ← o; Py.getitem2 (TetrisGame.grid g) 19 1)) in Hplace.
  vm_compute in Hplace. discriminate Hplace.
Qed.

(** ** C1: spawning while rows are pending *)

Lemma finish_line_clear_pieces g g' :
  TetrisGame.finish_line_clear g = Some g' →
  TetrisGame.current_piece g' = TetrisGame.current_piece g ∧
  TetrisGame.next_piece g' = TetrisGame.next_piece g.
Proof.
  unfold TetrisGame.finish_line_clear.
  destruct (TetrisGame.lines_clearing g); [by intros [= <-]|].
  destruct (Py.for_each _ _ _); [|done]. simpl. by intros [= <-].
Qed.

Lemma update_clear_pieces dt g g' :
  TetrisGame.update_clear dt g = Some g' →
  TetrisGame.current_piece g' = TetrisGame.current_piece g ∧
  TetrisGame.next_piece g' = TetrisGame.next_piece g.
Proof.
  unfold TetrisGame.update_clear.
  destruct (TetrisGame.lines_clearing g); [by intros [= <-]|].
  destruct (_ <=? _)%Z; [|by intros [= <-]].
  intros H. by apply finish_line_clear_pieces in H.
Qed.

Lemma update_random_pieces dt d g g' :
  TetrisGame.update_random dt d g = Some g' →
  TetrisGame.current_piece g' = TetrisGame.current_piece g ∧
  TetrisGame.next_piece g' = TetrisGame.next_piece g.
Proof.
  unfold TetrisGame.update_random.
  destruct (TetrisGame.random_blocks_enabled g); [|by intros [= <-]].
  destruct (_ <=? _)%Z; [|by intros [= <-]].
  unfold TetrisGame.spawn_random_block.
  destruct (TetrisGame.valid_positions _) as [[|p ps]|]; simpl; [by intros [= <-]| |done].
  destruct (_ !! _) as [[x y]|]; simpl; [|done].
  destruct (Py.setitem2 _ _ _ _); simpl; [|done]. by intros [= <-].
Qed.

(** What the gravity block of [update] does to the two pieces. *)
Lemma update_fall_pieces dt d g piece :
  session_inv g → TetrisGame.current_piece g = Some piece →
  ∃ g', TetrisGame.update_fall dt d g = Some g' ∧
    ((TetrisGame.next_piece g' = TetrisGame.next_piece g ∧
      (TetrisGame.current_piece g' = Some piece ∨
       TetrisGame.current_piece g' = Some (shift_down 1 piece))) ∨
     ((TetrisGame.fall_speed g ≤ TetrisGame.fall_time g + dt)%Z ∧
      TetrisGame.is_valid_position g (shift_down 1 piece) = Some false ∧
      TetrisGame.current_piece g' = TetrisGame.next_piece g ∧
      TetrisGame.next_piece g' =
        Some (Tetromino.init (GRID_WIDTH / 2 - 1) 0 (shape_draw d)))).
Proof.
  intros Hinv Hcur. unfold TetrisGame.update_fall.
  set (g1 := TetrisGame.set_fall_time _ g).
  assert (session_inv g1) as Hinv1 by (by apply (session_inv_fields g)).
  change (TetrisGame.fall_speed g1) with (TetrisGame.fall_speed g).
  change (TetrisGame.fall_time g1) with (TetrisGame.fall_time g + dt)%Z.
  destruct (Z.leb_spec (TetrisGame.fall_speed g) (TetrisGame.fall_time g + dt))
    as [Hfire|Hwait].
  - pose proof Hinv1 as (Hwf & (piece' & Hcur' & Hpiece) & _).
    change (TetrisGame.current_piece g1) with (TetrisGame.current_piece g) in Hcur'.
    rewrite Hcur in Hcur'. injection Hcur' as <-.
    destruct (move_piece_spec 0 1 (shape_draw d) g1 piece Hwf Hcur Hpiece)
      as (valid & Hvalid & ->).
    rewrite Z.add_0_r in *.
    change (Tetromino.set_xy _ _ piece) with (shift_down 1 piece) in *.
    rewrite (is_valid_position_grid g1 g) in Hvalid by done.
    destruct valid.
    + simpl. eexists. split; [done|]. left. split; [done|by right].
    + change (0 <? 1)%Z with true. cbn iota.
      destruct (place_piece_spec (shape_draw d) g1 Hinv1)
        as (? & ? & ? & ? & g2 & _ & _ & _ & _ & _ & -> & _ & _ & Hc2 & Hn2 & _).
      simpl. eexists. split; [done|]. right. done.
  - exists g1. split; [done|]. left. split; [done|by left].
Qed.

(** C1, amended.  In every session state, with or without pending rows:
    - [finish_line_clear] leaves the current and the next piece as they
      are, so neither the animation nor the compaction spawns;
    - [place_piece] returns with the former next piece as current piece
      and a new next piece, so every placement spawns in the same call;
    - [update] replaces the next piece only through such a placement: when
      the fall timer has reached [fall_speed] and the step down is refused.
      Otherwise the next piece is the same and the current piece is the
      same piece, at most one row lower. *)
Theorem C1_spawn_follows_every_placement g :
  reachable g →
  (∀ g', TetrisGame.finish_line_clear g = Some g' →
         TetrisGame.current_piece g' = TetrisGame.current_piece g ∧
         TetrisGame.next_piece g' = TetrisGame.next_piece g) ∧
  (∀ shape_idx, ∃ g',
     TetrisGame.place_piece shape_idx g = Some g' ∧
     TetrisGame.current_piece g' = TetrisGame.next_piece g ∧
     TetrisGame.next_piece g' =
       Some (Tetromino.init (GRID_WIDTH / 2 - 1) 0 shape_idx)) ∧
  (∀ dt d, ∃ piece g',
     TetrisGame.current_piece g = Some piece ∧
     TetrisGame.update dt d g = Some g' ∧
     ((TetrisGame.next_piece g' = TetrisGame.next_piece g ∧
       (TetrisGame.current_piece g' = Some piece ∨
        TetrisGame.current_piece g' = Some (shift_down 1 piece))) ∨
      (TetrisGame.game_over g = false ∧ TetrisGame.paused g = false ∧
       (TetrisGame.fall_speed g ≤ TetrisGame.fall_time g + dt)%Z ∧
       TetrisGame.is_valid_position g (shift_down 1 piece) = Some false ∧
       TetrisGame.current_piece g' = TetrisGame.next_piece g ∧
       TetrisGame.next_piece g' =
         Some (Tetromino.init (GRID_WIDTH / 2 - 1) 0 (shape_draw d))))).
Proof.
  intros Hreach. pose proof (reachable_inv g Hreach) as Hinv.
  split; [intros g'; apply finish_line_clear_pieces|]. split.
  - intros shape_idx.
    destruct (place_piece_spec shape_idx g Hinv)
      as (? & ? & ? & ? & g' & _ & _ & _ & _ & _ & Hplace & _ & _ & Hc & Hn & _).
    by exists g'.
  - intros dt d. pose proof Hinv as (_ & (piece & Hcur & _) & _).
    exists piece. unfold TetrisGame.update.
    destruct (TetrisGame.game_over g) eqn:Hover;
      [exists g; split; [done|]; split; [done|]; left; split; [done|by left]|].
    destruct (TetrisGame.paused g) eqn:Hpaused;
      [exists g; split; [done|]; split; [done|]; left; split; [done|by left]|].
    simpl.
    destruct (update_fall_pieces dt d g piece Hinv Hcur) as (g1 & Hfall & Hcase).
    destruct (update_fall_inv dt d g Hinv) as (g1' & Hfall' & Hinv1 & _).
    rewrite Hfall in Hfall'. injection Hfall' as <-. rewrite Hfall. simpl.
    destruct (update_clear_inv dt g1 Hinv1) as (g2 & Hclear & Hinv2 & _).
    rewrite Hclear. simpl.
    destruct (update_random_inv dt d g2 Hinv2) as (g3 & Hrandom & _).
    exists g3. split; [done|]. split; [done|].
    destruct (update_clear_pieces _ _ _ Hclear) as [Hc2 Hn2].
    destruct (update_random_pieces _ _ _ _ Hrandom) as [Hc3 Hn3].
    rewrite Hc3, Hn3, Hc2, Hn2.
    destruct Hcase as [?|(? & ? & ? & ?)]; [by left|by right].
Qed.

Lemma C1_witness :
  let g := Example.resting in
  (∀ g', TetrisGame.finish_line_clear g = Some g' →
         TetrisGame.current_piece g' = TetrisGame.current_piece g ∧
         TetrisGame.next_piece g' = TetrisGame.next_piece g) ∧
  (∀ shape_idx, ∃ g',
     TetrisGame.place_piece shape_idx g = Some g' ∧
     TetrisGame.current_piece g' = TetrisGame.next_piece g ∧
     TetrisGame.next_piece g' =
       Some (Tetromino.init (GRID_WIDTH / 2 - 1) 0 shape_idx)) ∧
  (∀ dt d, ∃ piece g',
     TetrisGame.current_piece g = Some piece ∧
     TetrisGame.update dt d g = Some g' ∧
     ((TetrisGame.next_piece g' = TetrisGame.next_piece g ∧
       (TetrisGame.current_piece g' = Some piece ∨
        TetrisGame.current_piece g' = Some (shift_down 1 piece))) ∨
      (TetrisGame.game_over g = false ∧ TetrisGame.paused g = false ∧
       (TetrisGame.fall_speed g ≤ TetrisGame.fall_time g + dt)%Z ∧
       TetrisGame.is_valid_position g (shift_down 1 piece) = Some false ∧
       TetrisGame.current_piece g' = TetrisGame.next_piece g ∧
       TetrisGame.next_piece g' =
         Some (Tetromino.init (GRID_WIDTH / 2 - 1) 0 (shape_draw d))))).
Proof.
  apply (C1_spawn_follows_every_placement Example.resting).
  apply reachable_after; [apply reachable_clearing|vm_compute; reflexivity..].
Defined.

(** Row 19 is pending, the T piece rests on the stack and the fall timer
    stands at 500 ms.  A tick of 500 ms places the T piece and spawns: the
    L piece that was next is the current piece, a J piece is next, and row
    19 is still pending. *)
Lemma tick_spawns_while_clearing :
  ∃ g', TetrisGame.update 500 (Example.draw J_) Example.resting = Some g' ∧
        TetrisGame.lines_clearing Example.resting = [19] ∧
        TetrisGame.lines_clearing g' = [19] ∧
        TetrisGame.next_piece Example.resting = Some (Tetromino.init 4 0 L_) ∧
        TetrisGame.current_piece g' = Some (Tetromino.init 4 0 L_) ∧
        TetrisGame.next_piece g' = Some (Tetromino.init 4 0 J_).
Proof. eexists. vm_compute. repeat split; reflexivity. Qed.

(** The same with a hard drop of the T piece from the top. *)
Lemma hard_drop_spawns_while_clearing :
  ∃ g', TetrisGame.hard_drop 32 J_ Example.clearing = TetrisGame.Returned g' ∧
        TetrisGame.lines_clearing Example.clearing = [19] ∧
        TetrisGame.lines_clearing g' = [19] ∧
        TetrisGame.next_piece Example.clearing = Some (Tetromino.init 4 0 L_) ∧
        TetrisGame.current_piece g' = Some (Tetromino.init 4 0 L_) ∧
        TetrisGame.next_piece g' = Some (Tetromino.init 4 0 J_).
Proof. eexists. vm_compute. repeat split; reflexivity. Qed.

Lemma C1_counterexample : ¬ no_spawn_while_clearing.
Proof.
  intros Hclaim.
  destruct tick_spawns_while_clearing
    as (g' & Hupdate & Hpending & Hpending' & Hnext & _ & Hnext').
  assert (TetrisGame.next_piece g' = TetrisGame.next_piece Example.resting)
    as Hsame.
  { apply (Hclaim Example.resting 32 (TetrisGame.Tick 500) (Example.draw J_) g').
    - apply reachable_resting.
    - by rewrite Hpending.
    - simpl. lia.
    - done.
    - unfold TetrisGame.run_input. by rewrite Hupdate.
    - by rewrite Hpending'. }
  rewrite Hnext, Hnext' in Hsame. discriminate Hsame.
Qed.

(** ** C10: pending rows *)

(** C10, amended.  In every reachable state each row recorded in
    [lines_clearing] is a row of the playfield and is fully occupied.
    Every input other than a restart either keeps every block, every
    pending row and [lines_cleared], or it is a tick that performs the
    compaction, after which no row is pending.  A restart replaces the
    state by the one [__init__] builds: empty grid, no pending row.  A
    placement's scan finds every row that was pending before it, and the
    row is full in the grid it leaves. *)
Theorem C10_pending_rows_stay_full g :
  reachable g →
  pending_full g ∧
  (∀ fuel i d g',
     i ≠ TetrisGame.KeyDown TetrisGame.K_r →
     TetrisGame.run_input fuel i d g = TetrisGame.Returned g' →
     quiet g g' ∨
     ((TetrisGame.lines_cleared g < TetrisGame.lines_cleared g')%Z ∧
      TetrisGame.lines_clearing g' = [])) ∧
  (∀ fuel d g',
     TetrisGame.run_input fuel (TetrisGame.KeyDown TetrisGame.K_r) d g
       = TetrisGame.Returned g' →
     g' = fresh d) ∧
  (∀ shape_idx g',
     TetrisGame.place_piece shape_idx g = Some g' →
     ∀ y, y ∈ TetrisGame.lines_clearing g →
          y ∈ TetrisGame.lines_clearing g' ∧
          full_row (TetrisGame.grid g') y).
Proof.
  intros Hreach. pose proof (reachable_inv g Hreach) as Hinv.
  split; [apply Hinv|]. split; [|split].
  - intros fuel [key|dt] d g' Hkey Hrun.
    + destruct (handle_key_inv fuel key d g g' Hinv Hrun) as [_ [->|Hq]];
        [done|by left].
    + unfold TetrisGame.run_input in Hrun.
      destruct (update_inv dt d g Hinv) as (g1 & Hup & _ & Hcase).
      rewrite Hup in Hrun. apply Returned_inj in Hrun. by subst g1.
  - intros fuel d g'. unfold TetrisGame.run_input, TetrisGame.handle_key.
    rewrite init_fresh. intros H. by apply Returned_inj in H.
  - intros shape_idx g' Hplace y Hy.
    destruct (place_piece_inv shape_idx g Hinv) as (g1 & Hp & Hinv1 & _ & Hsub & _).
    rewrite Hplace in Hp. injection Hp as <-.
    split; [by apply Hsub|]. destruct Hinv1 as (_ & _ & _ & Hpend).
    by apply Hpend, Hsub.
Qed.

Lemma C10_witness :
  let g := Example.clearing in
  pending_full g ∧
  (∀ fuel i d g',
     i ≠ TetrisGame.KeyDown TetrisGame.K_r →
     TetrisGame.run_input fuel i d g = TetrisGame.Returned g' →
     quiet g g' ∨
     ((TetrisGame.lines_cleared g < TetrisGame.lines_cleared g')%Z ∧
      TetrisGame.lines_clearing g' = [])) ∧
  (∀ fuel d g',
     TetrisGame.run_input fuel (TetrisGame.KeyDown TetrisGame.K_r) d g
       = TetrisGame.Returned g' →
     g' = fresh d) ∧
  (∀ shape_idx g',
     TetrisGame.place_piece shape_idx g = Some g' →
     ∀ y, y ∈ TetrisGame.lines_clearing g →
          y ∈ TetrisGame.lines_clearing g' ∧
          full_row (TetrisGame.grid g') y).
Proof.
  apply (C10_pending_rows_stay_full Example.clearing).
  apply reachable_after; [apply reachable_fresh|vm_compute; reflexivity..].
Defined.

(** While row 19 is pending, the R key empties it: no compaction is
    counted, and the block at the left end of the row is gone. *)
Lemma C10_counterexample : ¬ pending_rows_kept_until_compaction.
Proof.
  intros [_ Hclaim].
  assert (TetrisGame.run_input 32 (TetrisGame.KeyDown TetrisGame.K_r)
            (Example.draw I_) Example.clearing
          = TetrisGame.Returned (fresh (Example.draw I_))) as Hrestart
    by (vm_compute; reflexivity).
  assert (Py.getitem2 (TetrisGame.grid Example.clearing) 19 0 = Some (Some CYAN))
    as Hblock by (vm_compute; reflexivity).
  assert (TetrisGame.lines_cleared Example.clearing = 0%Z) as Hcount
    by (vm_compute; reflexivity).
  destruct (Hclaim Example.clearing 32 (TetrisGame.KeyDown TetrisGame.K_r)
              (Example.draw I_) (fresh (Example.draw I_))
              reachable_clearing I Hrestart)
    as [(Hkept & _)|Hlt].
  - destruct (Hkept 19 0 CYAN Hblock) as [color' Hcell].
    vm_compute in Hcell. discriminate Hcell.
  - rewrite Hcount in Hlt. vm_compute in Hlt. discriminate Hlt.
Qed.

(** ** C8: the shape of the playfield *)

(** C8.  In every reachable state the grid has 20 rows of 10 cells, and
    from there each operation returns with such a grid: [place_piece],
    [spawn_random_block] (which writes at most one cell, at a column below
    10 and a row below 20), [finish_line_clear] and [update].  The loop of
    [place_piece] returns for every list of positions: cells at listed
    positions inside the field receive the colour, all other cells keep
    their content, so positions outside the field write nothing. *)
Theorem C8_grid_shape_and_bounds g :
  reachable g →
  wf_grid (TetrisGame.grid g) ∧
  (∀ shape_idx, ∃ g',
     TetrisGame.place_piece shape_idx g = Some g' ∧
     wf_grid (TetrisGame.grid g')) ∧
  (∀ choice color, ∃ g',
     TetrisGame.spawn_random_block choice color g = Some g' ∧
     wf_grid (TetrisGame.grid g') ∧
     (g' = g ∨
      ∃ x y grid',
        x < Z.to_nat GRID_WIDTH ∧ y < Z.to_nat GRID_HEIGHT ∧
        Py.setitem2 (TetrisGame.grid g) y x (Some color) = Some grid' ∧
        g' = TetrisGame.set_grid grid' g)) ∧
  (∃ g', TetrisGame.finish_line_clear g = Some g' ∧
         wf_grid (TetrisGame.grid g')) ∧
  (∀ dt d, ∃ g',
     TetrisGame.update dt d g = Some g' ∧ wf_grid (TetrisGame.grid g')) ∧
  (∀ color positions, ∃ grid',
     TetrisGame.commit color positions (TetrisGame.grid g) = Some grid' ∧
     wf_grid grid' ∧
     (∀ r c, (Z.of_nat c, Z.of_nat r) ∈ positions →
             in_field (Z.of_nat c) (Z.of_nat r) →
             Py.getitem2 grid' r c = Some (Some color)) ∧
     (∀ r c, (Z.of_nat c, Z.of_nat r) ∉ positions →
             Py.getitem2 grid' r c = Py.getitem2 (TetrisGame.grid g) r c)).
Proof.
  intros Hreach. pose proof (reachable_inv g Hreach) as Hinv.
  pose proof Hinv as (Hwf & _ & _ & Hpend).
  split; [done|]. split; [|split; [|split; [|split]]].
  - intros shape_idx.
    destruct (place_piece_inv shape_idx g Hinv) as (g' & Hp & Hinv' & _).
    exists g'. split; [done|apply Hinv'].
  - intros choice color.
    destruct (spawn_random_block_spec choice color g Hwf)
      as (g' & Hs & Hwf' & _ & Hcase).
    exists g'. split; [done|]. split; [done|].
    destruct Hcase as [->|(x & y & grid' & ? & ? & _ & ? & ?)]; [by left|].
    right. by exists x, y, grid'.
  - destruct (finish_line_clear_spec g Hwf Hpend) as (g' & Hf & Hwf' & _).
    by exists g'.
  - intros dt d. destruct (update_inv dt d g Hinv) as (g' & Hu & Hinv' & _).
    exists g'. split; [done|apply Hinv'].
  - intros color positions. by apply commit_spec.
Qed.

Lemma C8_witness :
  let g := Example.two_pending in
  wf_grid (TetrisGame.grid g) ∧
  (∀ shape_idx, ∃ g',
     TetrisGame.place_piece shape_idx g = Some g' ∧
     wf_grid (TetrisGame.grid g')) ∧
  (∀ choice color, ∃ g',
     TetrisGame.spawn_random_block choice color g = Some g' ∧
     wf_grid (TetrisGame.grid g') ∧
     (g' = g ∨
      ∃ x y grid',
        x < Z.to_nat GRID_WIDTH ∧ y < Z.to_nat GRID_HEIGHT ∧
        Py.setitem2 (TetrisGame.grid g) y x (Some color) = Some grid' ∧
        g' = TetrisGame.set_grid grid' g)) ∧
  (∃ g', TetrisGame.finish_line_clear g = Some g' ∧
         wf_grid (TetrisGame.grid g')) ∧
  (∀ dt d, ∃ g',
     TetrisGame.update dt d g = Some g' ∧ wf_grid (TetrisGame.grid g')) ∧
  (∀ color positions, ∃ grid',
     TetrisGame.commit color positions (TetrisGame.grid g) = Some grid' ∧
     wf_grid grid' ∧
     (∀ r c, (Z.of_nat c, Z.of_nat r) ∈ positions →
             in_field (Z.of_nat c) (Z.of_nat r) →
             Py.getitem2 grid' r c = Some (Some color)) ∧
     (∀ r c, (Z.of_nat c, Z.of_nat r) ∉ positions →
             Py.getitem2 grid' r c = Py.getitem2 (TetrisGame.grid g) r c)).
Proof.
  apply (C8_grid_shape_and_bounds Example.two_pending).
  apply reachable_after; [apply reachable_fresh|vm_compute; reflexivity..].
Defined.

(** ** C2: compaction *)

(** The parts of C2 that hold: when the compaction runs, and what it does
    to score, level and speed. *)

Lemma compaction_runs_at_duration dt g :
  TetrisGame.lines_clearing g ≠ [] →
  (TetrisGame.update_clear dt g =
     TetrisGame.finish_line_clear
       (TetrisGame.set_clear_animation_time
          (TetrisGame.clear_animation_time g + dt) g) ∧
   (800 ≤ TetrisGame.clear_animation_time g + dt)%Z) ∨
  (TetrisGame.update_clear dt g =
     Some (TetrisGame.set_clear_animation_time
             (TetrisGame.clear_animation_time g + dt) g) ∧
   (TetrisGame.clear_animation_time g + dt < 800)%Z).
Proof.
  intros Hne. rewrite update_clear_spec.
  unfold TetrisGame.clear_animation_duration.
  destruct (decide _) as [[_ Hle]|Hno]; [by left|]. right.
  destruct (TetrisGame.lines_clearing g); [done|].
  split; [done|]. destruct (decide (800 ≤ TetrisGame.clear_animation_time g + dt)%Z);
    [|lia]. exfalso. by apply Hno.
Qed.

Lemma four_rows_at_level_one g g' :
  length (TetrisGame.lines_clearing g) = 4 → TetrisGame.level g = 1%Z →
  TetrisGame.finish_line_clear g = Some g' →
  TetrisGame.score g' = (TetrisGame.score g + 400)%Z.
Proof.
  intros Hfour Hlevel Hfin.
  assert (TetrisGame.lines_clearing g ≠ []) as Hne
    by (by destruct (TetrisGame.lines_clearing g)).
  pose proof (finish_line_clear_scoring g g' Hne Hfin) as Hs.
  cbv zeta in Hs. destruct Hs as (-> & _).
  rewrite Hfour, Hlevel. lia.
Qed.

Lemma level_and_speed_after g g' :
  TetrisGame.lines_clearing g ≠ [] →
  TetrisGame.finish_line_clear g = Some g' →
  (TetrisGame.lines_cleared g' = 10%Z →
   TetrisGame.level g' = 2%Z ∧ TetrisGame.fall_speed g' = 900%Z) ∧
  ((100 ≤ TetrisGame.lines_cleared g')%Z → TetrisGame.fall_speed g' = 100%Z).
Proof.
  intros Hne Hfin.
  pose proof (finish_line_clear_scoring g g' Hne Hfin) as Hs.
  cbv zeta in Hs. destruct Hs as (_ & _ & Hlevel & Hspeed & _).
  rewrite Hspeed, Hlevel. split.
  - intros ->. done.
  - intros Hmany.
    assert (10 ≤ TetrisGame.lines_cleared g' `div` 10)%Z
      by (apply Z.div_le_lower_bound; lia).
    lia.
Qed.

(** With one pending row the loop does what the spec describes. *)
Lemma drop_rows_single y (grid : Grid) : ∀ k,
  drop_rows [y] k grid = if decide (k ≤ y) then delete (y - k) grid else grid.
Proof.
  induction grid as [|row rest IH]; intros k; simpl.
  - by destruct (decide (k ≤ y)).
  - rewrite IH. destruct (decide (k ∈ [y])) as [Hin|Hout].
    + apply list_elem_of_singleton in Hin. subst k.
      rewrite (decide_False (P := S y ≤ y)) by lia.
      rewrite (decide_True (P := y ≤ y)) by lia.
      by rewrite Nat.sub_diag.
    + rewrite list_elem_of_singleton in Hout.
      destruct (decide (k ≤ y)) as [Hle|Hgt].
      * rewrite (decide_True (P := S k ≤ y)) by lia.
        destruct (y - k) as [|n] eqn:Hdiff; [lia|]. simpl.
        do 2 f_equal. lia.
      * by rewrite (decide_False (P := S k ≤ y)) by lia.
Qed.

Lemma single_row_compaction g g' y :
  TetrisGame.lines_clearing g = [y] →
  TetrisGame.finish_line_clear g = Some g' →
  TetrisGame.grid g' = remove_rows [y] (TetrisGame.grid g).
Proof.
  unfold TetrisGame.finish_line_clear, remove_rows. intros ->. simpl.
  unfold Py.delitem. destruct (decide (y < _)); simpl; [|done].
  intros [= <-]. simpl. rewrite drop_rows_single.
  rewrite decide_True by lia. by rewrite Nat.sub_0_r.
Qed.

(** C2, where the code fails it.  Rows 18 and 19 are pending and rows 16
    and 17 hold blocks in columns 0 and 9.  The tick that brings the clock
    to 800 ms counts two rows (score 0 to 200, two lines cleared, nothing
    pending afterwards), but the grid it leaves is not the one with rows
    18 and 19 removed: the bottom row is the former row 18, still full,
    above it lies the former row 16, and the former row 17, which was not
    pending, is gone.  Deleting row 19 and inserting the empty row on top
    moved row 18 to index 19 before [del self.grid[18]] ran. *)
Theorem C2_compaction_deletes_wrong_row :
  let g := Example.two_pending_under_blocks in
  TetrisGame.lines_clearing g = [18; 19] ∧
  TetrisGame.clear_animation_time g = 0%Z ∧
  TetrisGame.level g = 1%Z ∧ TetrisGame.score g = 0%Z ∧
  ∃ g', TetrisGame.update 800 (Example.draw J_) g = Some g' ∧
        TetrisGame.score g' = 200%Z ∧
        TetrisGame.lines_cleared g' = 2%Z ∧
        TetrisGame.lines_clearing g' = [] ∧
        TetrisGame.grid g' !! 19 = TetrisGame.grid g !! 18 ∧
        TetrisGame.grid g' !! 18 = TetrisGame.grid g !! 16 ∧
        remove_rows [18; 19] (TetrisGame.grid g) !! 19 = TetrisGame.grid g !! 17 ∧
        remove_rows [18; 19] (TetrisGame.grid g) !! 18 = TetrisGame.grid g !! 16 ∧
        TetrisGame.grid g' ≠ remove_rows [18; 19] (TetrisGame.grid g).
Proof.
  cbv zeta.
  assert (∃ g', TetrisGame.update 800 (Example.draw J_)
                  Example.two_pending_under_blocks = Some g') as [g' Hg'].
  { destruct (update_inv 800 (Example.draw J_) Example.two_pending_under_blocks)
      as (g' & Hg' & _); [|by exists g'].
    apply reachable_inv, reachable_two_pending_under_blocks. }
  split; [vm_compute; reflexivity|]. split; [vm_compute; reflexivity|].
  split; [vm_compute; reflexivity|]. split; [vm_compute; reflexivity|].
  exists g'. split; [done|].
  assert (Some g' = TetrisGame.update 800 (Example.draw J_)
                      Example.two_pending_under_blocks) as Heq by done.
  clear Hg'.
  assert (∀ A (f : TetrisGame.t → A) (v : A),
            f <$> TetrisGame.update 800 (Example.draw J_)
                    Example.two_pending_under_blocks = Some v → f g' = v)
    as Hfield.
  { intros A f v. rewrite <-Heq. simpl. by intros [= <-]. }
  split; [apply (Hfield _ TetrisGame.score); vm_compute; reflexivity|].
  split; [apply (Hfield _ TetrisGame.lines_cleared); vm_compute; reflexivity|].
  split; [apply (Hfield _ TetrisGame.lines_clearing); vm_compute; reflexivity|].
  rewrite (Hfield _ TetrisGame.grid _ ltac:(vm_compute; reflexivity)).
  split; [vm_compute; reflexivity|]. split; [vm_compute; reflexivity|].
  split; [vm_compute; reflexivity|]. split; [vm_compute; reflexivity|].
  intros Hsame. apply (f_equal (λ grid : Grid, grid !! 19)) in Hsame.
  vm_compute in Hsame. discriminate Hsame.
Qed.

(** * Further properties of the code *)

(** ** get_positions in closed form *)

Lemma get_positions_cells rows cols (piece : Tetromino.t) :
  rect rows cols (Tetromino.shape piece) →
  Tetromino.get_positions piece = Some (cells piece rows cols).
Proof.
  intros Hrect. unfold Tetromino.get_positions.
  pose proof Hrect as [Hlen _]. rewrite Hlen.
  destruct (for_each_invariant
    (λ done positions, positions = (done ≫= row_cells piece cols))
    (Py.range rows)
    (λ r positions,
      row0 ← Tetromino.shape piece !! 0;
      Py.for_each (Py.range (length row0)) (λ c positions,
        v ← Py.getitem2 (Tetromino.shape piece) r c;
        if decide (v ≠ 0%Z)
        then Some (positions ++ [(Tetromino.x piece + Z.of_nat c,
                                  Tetromino.y piece + Z.of_nat r)%Z])
        else Some positions) positions) [])
    as (ps & Hrun & Hps); [done| |by rewrite Hrun, Hps].
  intros done r ps0 Hr ->. apply elem_of_seq in Hr.
  destruct (rect_row _ _ _ 0 Hrect) as (row0 & -> & Hlen0); [lia|]. simpl.
  rewrite Hlen0.
  set (cell c := match Py.getitem2 (Tetromino.shape piece) r c with
                 | Some v =>
                     if decide (v ≠ 0%Z)
                     then [(Tetromino.x piece + Z.of_nat c,
                            Tetromino.y piece + Z.of_nat r)%Z]
                     else []
                 | None => []
                 end).
  destruct (for_each_invariant
    (λ done' positions, positions = (done ≫= row_cells piece cols) ++ (done' ≫= cell))
    (Py.range cols)
    (λ c positions,
      v ← Py.getitem2 (Tetromino.shape piece) r c;
      if decide (v ≠ 0%Z)
      then Some (positions ++ [(Tetromino.x piece + Z.of_nat c,
                                Tetromino.y piece + Z.of_nat r)%Z])
      else Some positions) (done ≫= row_cells piece cols))
    as (ps1 & Hrun1 & Hps1).
  - by rewrite app_nil_r.
  - intros done' c ps' Hc ->. apply elem_of_seq in Hc.
    destruct (rect_getitem2 _ _ _ r c Hrect) as [v Hv]; [lia..|].
    rewrite Hv. simpl. rewrite bind_app, bind_singleton.
    assert (cell c = if decide (v ≠ 0%Z)
                     then [(Tetromino.x piece + Z.of_nat c,
                            Tetromino.y piece + Z.of_nat r)%Z]
                     else []) as -> by (unfold cell; by rewrite Hv).
    destruct (decide (v ≠ 0%Z)); eexists; (split; [done|]).
    + by rewrite app_assoc.
    + by rewrite app_nil_r.
  - exists ps1. split; [done|]. rewrite Hps1, bind_app, bind_singleton. done.
Qed.

Lemma row_cells_elem_of piece cols r x y :
  (x, y) ∈ row_cells piece cols r ↔
  ∃ c v, c < cols ∧ Py.getitem2 (Tetromino.shape piece) r c = Some v ∧
         v ≠ 0%Z ∧ x = (Tetromino.x piece + Z.of_nat c)%Z ∧
         y = (Tetromino.y piece + Z.of_nat r)%Z.
Proof.
  unfold row_cells. rewrite list_elem_of_bind. split.
  - intros (c & Hin & Hc). apply elem_of_seq in Hc.
    destruct (Py.getitem2 _ r c) as [v|] eqn:Hv; [|by apply not_elem_of_nil in Hin].
    destruct (decide (v ≠ 0%Z)); [|by apply not_elem_of_nil in Hin].
    apply list_elem_of_singleton in Hin. injection Hin as -> ->.
    exists c, v. split; [lia|done].
  - intros (c & v & Hc & Hv & Hne & -> & ->). exists c. split.
    + rewrite Hv, decide_True by done. apply list_elem_of_singleton. done.
    + apply elem_of_seq. lia.
Qed.

Lemma row_cells_length cols piece r :
  length (row_cells piece cols r) =
  sumn cols (λ c, is_set (Py.getitem2 (Tetromino.shape piece) r c)).
Proof.
  unfold row_cells. induction cols as [|n IH]; [done|].
  rewrite seq_S, bind_app, length_app, IH. simpl. f_equal.
  destruct (Py.getitem2 _ r n) as [v|]; [|done]. simpl.
  by destruct (decide (v ≠ 0%Z)).
Qed.

Lemma cells_length rows cols piece :
  rect rows cols (Tetromino.shape piece) →
  length (cells piece rows cols) = count_set (Tetromino.shape piece).
Proof.
  intros Hrect. rewrite (count_set_sumn _ _ _ Hrect). unfold cells.
  assert (∀ n, n ≤ rows →
            length (seq 0 n ≫= row_cells piece cols) =
            sumn n (λ r, sumn cols (λ c,
              is_set (Py.getitem2 (Tetromino.shape piece) r c)))) as H.
  { induction n as [|n IH]; intros Hn; [done|].
    rewrite seq_S, bind_app, length_app, IH by lia. simpl. f_equal.
    rewrite app_nil_r. apply row_cells_length. }
  by apply H.
Qed.

Lemma row_cells_NoDup piece cols r : NoDup (row_cells piece cols r).
Proof.
  unfold row_cells. apply NoDup_bind.
  - intros c1 c2 p _ _ Hin1 Hin2.
    destruct (Py.getitem2 _ r c1) as [v1|]; [|by apply not_elem_of_nil in Hin1].
    destruct (decide (v1 ≠ 0%Z)); [|by apply not_elem_of_nil in Hin1].
    destruct (Py.getitem2 _ r c2) as [v2|]; [|by apply not_elem_of_nil in Hin2].
    destruct (decide (v2 ≠ 0%Z)); [|by apply not_elem_of_nil in Hin2].
    apply list_elem_of_singleton in Hin1, Hin2. subst p.
    injection Hin2 as Hx. lia.
  - intros c _. destruct (Py.getitem2 _ r c) as [v|]; [|constructor].
    destruct (decide (v ≠ 0%Z)); [apply NoDup_singleton|constructor].
  - apply NoDup_seq.
Qed.

Lemma cells_NoDup piece rows cols : NoDup (cells piece rows cols).
Proof.
  unfold cells. apply NoDup_bind.
  - intros r1 r2 [x y] _ _ Hin1 Hin2.
    apply row_cells_elem_of in Hin1 as (? & ? & _ & _ & _ & _ & Hy1).
    apply row_cells_elem_of in Hin2 as (? & ? & _ & _ & _ & _ & Hy2).
    lia.
  - intros r _. apply row_cells_NoDup.
  - apply NoDup_seq.
Qed.

Lemma fmap_list_bind {A B C} (f : B → C) (g : A → list B) (l : list A) :
  f <$> (l ≫= g) = l ≫= (λ a, f <$> g a).
Proof.
  induction l as [|a l IH]; [done|].
  by rewrite !bind_cons, fmap_app, IH.
Qed.

Lemma cells_set_xy x' y' piece rows cols :
  cells (Tetromino.set_xy x' y' piece) rows cols =
  translate (x' - Tetromino.x piece) (y' - Tetromino.y piece)
    <$> cells piece rows cols.
Proof.
  unfold cells, row_cells. rewrite fmap_list_bind.
  apply list_bind_ext; [|done]. intros r. simpl.
  rewrite fmap_list_bind. apply list_bind_ext; [|done]. intros c. simpl.
  destruct (Py.getitem2 _ r c) as [v|]; [|done].
  destruct (decide (v ≠ 0%Z)); [|done]. simpl. unfold translate. simpl.
  do 2 f_equal; lia.
Qed.

(** ** The effect of the piece operations on the other fields *)

Lemma bookkeeping_kept_fields g g' :
  TetrisGame.score g' = TetrisGame.score g →
  TetrisGame.lines_cleared g' = TetrisGame.lines_cleared g →
  TetrisGame.level g' = TetrisGame.level g →
  TetrisGame.fall_speed g' = TetrisGame.fall_speed g →
  TetrisGame.paused g' = TetrisGame.paused g →
  TetrisGame.fall_time g' = TetrisGame.fall_time g →
  TetrisGame.random_block_time g' = TetrisGame.random_block_time g →
  TetrisGame.random_block_interval g' = TetrisGame.random_block_interval g →
  TetrisGame.random_blocks_enabled g' = TetrisGame.random_blocks_enabled g →
  TetrisGame.clear_animation_time g' = TetrisGame.clear_animation_time g →
  TetrisGame.lines_clearing g' = TetrisGame.lines_clearing g →
  bookkeeping_kept g g'.
Proof. intros. unfold bookkeeping_kept. split_and!; try done. by left. Qed.

Lemma bookkeeping_kept_refl g : bookkeeping_kept g g.
Proof. by apply bookkeeping_kept_fields. Qed.

Lemma bookkeeping_kept_trans g1 g2 g3 :
  bookkeeping_kept g1 g2 → bookkeeping_kept g2 g3 → bookkeeping_kept g1 g3.
Proof.
  intros (A1 & A2 & A3 & A4 & A5 & A6 & A7 & A8 & A9 & A10)
         (B1 & B2 & B3 & B4 & B5 & B6 & B7 & B8 & B9 & B10).
  unfold bookkeeping_kept.
  rewrite B1, B2, B3, B4, B5, B6, B7, B8, B9. split_and!; try done.
  destruct B10 as [[-> ->]|?]; [done|by right].
Qed.

Lemma spawn_new_piece_effect shape_idx g g' next :
  TetrisGame.next_piece g = Some next →
  TetrisGame.spawn_new_piece shape_idx g = Some g' →
  bookkeeping_kept g g' ∧
  TetrisGame.grid g' = TetrisGame.grid g ∧
  TetrisGame.lines_clearing g' = TetrisGame.lines_clearing g ∧
  TetrisGame.clear_animation_time g' = TetrisGame.clear_animation_time g ∧
  TetrisGame.current_piece g' = Some next ∧
  TetrisGame.next_piece g' =
    Some (Tetromino.init (GRID_WIDTH / 2 - 1) 0 shape_idx) ∧
  ∃ valid, TetrisGame.is_valid_position g' next = Some valid ∧
           TetrisGame.game_over g' =
             (if valid then TetrisGame.game_over g else true).
Proof.
  intros Hnext. unfold TetrisGame.spawn_new_piece. rewrite Hnext.
  destruct (TetrisGame.is_valid_position _ next) as [valid|] eqn:Hvalid; [|done].
  simpl. destruct valid; intros [= <-];
    (split; [by apply bookkeeping_kept_fields|]);
    (split; [done|]); (split; [done|]); (split; [done|]); (split; [done|]);
    (split; [done|]).
  - exists true. done.
  - exists false. split; [|done].
    by rewrite (is_valid_position_grid (TetrisGame.set_game_over _ _)
                  (TetrisGame.set_next_piece
                     (Some (Tetromino.init (GRID_WIDTH / 2 - 1) 0 shape_idx))
                     (TetrisGame.set_current_piece (Some next) g))).
Qed.

Lemma place_piece_effect shape_idx g g' :
  session_inv g → TetrisGame.place_piece shape_idx g = Some g' →
  bookkeeping_kept g g' ∧ piece_placed g g'.
Proof.
  intros Hinv Hplace.
  destruct (place_piece_spec shape_idx g Hinv)
    as (piece & ps & grid' & g1 & g2 & _ & _ & _ & Hclear & Hspawn & Hplace' &
        Hinv' & Hgrid & _ & _ & Hlines & _).
  rewrite Hplace in Hplace'. injection Hplace' as <-.
  destruct (place_piece_inv shape_idx g Hinv) as (g2 & Hp2 & _ & _ & Hsub & _).
  rewrite Hplace in Hp2. injection Hp2 as <-.
  pose proof Hinv as (_ & _ & (next & Hnext & _) & _).
  assert (bookkeeping_kept g g1 ∧ TetrisGame.next_piece g1 = Some next ∧
          TetrisGame.game_over g1 = TetrisGame.game_over g) as (Hk1 & Hn1 & Ho1).
  { unfold TetrisGame.clear_lines in Hclear.
    change (TetrisGame.grid (TetrisGame.set_grid grid' g)) with grid' in Hclear.
    destruct (full_rows_spec grid') as (lines & Hscan & Hiff).
    { rewrite <-Hgrid. apply Hinv'. }
    rewrite Hscan in Hclear. simpl in Hclear.
    destruct lines as [|y lines].
    - destruct (TetrisGame.lines_clearing g) as [|y0 pending] eqn:Hpending.
      + rewrite finish_line_clear_idle in Hclear by done.
        injection Hclear as <-. split; [by apply bookkeeping_kept_fields|done].
      + exfalso. eapply not_elem_of_nil, Hiff, Hlines, Hsub. left.
    - injection Hclear as <-. split; [|done].
      unfold bookkeeping_kept. simpl. split_and!; try done. by right. }
  destruct (spawn_new_piece_effect shape_idx g1 g' next Hn1 Hspawn)
    as (Hk2 & _ & Hl2 & Ha2 & Hc2 & Hn2 & valid & Hvalid & Hover).
  split.
  - destruct Hk1 as (A1 & A2 & A3 & A4 & A5 & A6 & A7 & A8 & A9 & A10).
    destruct Hk2 as (B1 & B2 & B3 & B4 & B5 & B6 & B7 & B8 & B9 & _).
    unfold bookkeeping_kept.
    rewrite B1, B2, B3, B4, B5, B6, B7, B8, B9, Hl2, Ha2. done.
  - split; [by rewrite Hc2, Hnext|]. split; [by eexists|].
    exists next, valid. rewrite Hover, Ho1. done.
Qed.

Lemma move_piece_effect dx dy shape_idx g moved g' :
  session_inv g →
  TetrisGame.move_piece dx dy shape_idx g = Some (moved, g') →
  bookkeeping_kept g g' ∧
  (g' = g ∨ piece_changed g g' ∨ piece_placed g g').
Proof.
  intros Hinv. pose proof Hinv as (Hwf & (piece & Hcur & Hpiece) & _).
  destruct (move_piece_spec dx dy shape_idx g piece Hwf Hcur Hpiece)
    as (valid & _ & ->).
  destruct valid.
  - intros [= <- <-]. split; [by apply bookkeeping_kept_fields|].
    right; left. unfold piece_changed. split_and!; try done.
    eexists piece, _. split; [done|]. split; [done|].
    unfold piece_step. split_and!; try done. by left.
  - destruct (0 <? dy)%Z.
    + destruct (TetrisGame.place_piece shape_idx g) as [g1|] eqn:Hplace; [|done].
      simpl. intros [= <- <-].
      destruct (place_piece_effect shape_idx g g1 Hinv Hplace). split; [done|].
      by right; right.
    + intros [= <- <-]. split; [apply bookkeeping_kept_refl|by left].
Qed.

Lemma rotate_piece_effect g g' :
  session_inv g → TetrisGame.rotate_piece g = Some g' →
  bookkeeping_kept g g' ∧ (g' = g ∨ piece_changed g g').
Proof.
  intros Hinv. pose proof Hinv as (Hwf & (piece & Hcur & Hpiece) & _).
  destruct (rotate_piece_spec g piece Hwf Hcur Hpiece)
    as (rotated & valid & Hrot & _ & _ & ->).
  destruct valid; intros [= <-].
  - split; [by apply bookkeeping_kept_fields|]. right.
    unfold piece_changed. split_and!; try done.
    eexists piece, _. split; [done|]. split; [done|].
    unfold piece_step. split_and!; try done. by right.
  - split; [apply bookkeeping_kept_refl|by left].
Qed.

Lemma hard_drop_effect shape_idx fuel g g' :
  session_inv g →
  TetrisGame.hard_drop fuel shape_idx g = TetrisGame.Returned g' →
  bookkeeping_kept g g' ∧ piece_placed g g'.
Proof.
  intros Hinv Hrun.
  pose proof Hinv as (Hwf & (piece & Hcur & Hpiece) & Hnext & Hpend).
  destruct (wf_piece_occupied piece Hpiece) as (r & c & v & Hv & Hne).
  destruct (hard_drop_lands shape_idx
              (Z.to_nat (GRID_HEIGHT - (Tetromino.y piece + Z.of_nat r)))
              g piece r c v Hwf Hcur Hpiece Hv Hne) as (d & _ & Hclosed); [lia|].
  set (g_d := TetrisGame.set_current_piece (Some (shift_down d piece)) g) in *.
  assert (session_inv g_d) as Hinv_d.
  { split; [done|]. split; [|done]. eexists. split; [done|].
    by apply shift_down_wf_piece. }
  apply (hard_drop_more_fuel _ _ (fuel `max` S d)) in Hrun; [|lia].
  rewrite Hclosed in Hrun by lia.
  destruct (TetrisGame.place_piece shape_idx g_d) as [g1|] eqn:Hplace; [|done].
  apply Returned_inj in Hrun. subst g1.
  destruct (place_piece_effect shape_idx g_d g' Hinv_d Hplace) as [Hk Hp].
  split; [exact Hk|exact Hp].
Qed.

(** ** Bookkeeping invariants *)

Lemma random_interval_range r : (15000 ≤ random_interval r ≤ 30000)%Z.
Proof.
  unfold random_interval.
  pose proof (Z.mod_pos_bound (Z.of_nat r) 15001 ltac:(lia)). lia.
Qed.

Lemma stats_ok_kept g g' : bookkeeping_kept g g' → stats_ok g → stats_ok g'.
Proof.
  intros (H1 & H2 & H3 & H4 & _). unfold stats_ok.
  by rewrite H1, H2, H3, H4.
Qed.

Lemma timers_ok_kept g g' : bookkeeping_kept g g' → timers_ok g → timers_ok g'.
Proof.
  intros (_ & _ & _ & _ & _ & H6 & H7 & H8 & _ & Hclock).
  unfold timers_ok. rewrite H6, H7, H8.
  intros (Hc & Hidle & Hf & Hr & Hi).
  destruct Hclock as [[-> ->]|[-> Hpending]]; [done|].
  split; [unfold TetrisGame.clear_animation_duration; lia|]. done.
Qed.

Lemma stats_ok_speed g :
  stats_ok g →
  (1 ≤ TetrisGame.level g)%Z ∧ (100 ≤ TetrisGame.fall_speed g ≤ 1000)%Z.
Proof.
  intros (_ & Hlines & Hlevel & Hspeed).
  assert (0 ≤ TetrisGame.lines_cleared g `div` 10)%Z
    by (apply Z.div_pos; lia).
  lia.
Qed.

Lemma init_tetromino x y shape_idx :
  (0 ≤ y)%Z → tetromino (Tetromino.init x y shape_idx).
Proof.
  intros Hy. exists shape_idx. split; [apply init_lookup|].
  split; [done|]. split; [constructor|]. done.
Qed.

Lemma piece_step_tetromino p p' :
  piece_step p p' → (0 ≤ Tetromino.y p')%Z → tetromino p → tetromino p'.
Proof.
  intros (Hcolor & Hrot & Hshape) Hy (k & Hk & Hc & Ht & Hr & _).
  exists k. rewrite Hcolor, Hrot. split_and!; try done.
  destruct Hshape as [->|(Hrotate & _)]; [done|].
  by eapply turned_once.
Qed.

(** A tetromino is a well-formed piece with four set cells. *)
Lemma turned_four_cells shape shape' :
  turned shape shape' →
  (∃ rows cols, 0 < rows ∧ 0 < cols ∧ rect rows cols shape) →
  (∃ rows cols, 0 < rows ∧ 0 < cols ∧ rect rows cols shape') ∧
  count_set shape' = count_set shape.
Proof.
  induction 1 as [|shape1 shape2 _ IH Hrot]; intros Hrect; [done|].
  destruct (IH Hrect) as [(rows & cols & Hrows & Hcols & Hr1) Hcount].
  destruct (rotate_shape_spec rows cols shape1 Hrows Hr1) as (m & Hm & Hr2 & _).
  rewrite Hrot in Hm. injection Hm as <-. split.
  - by exists cols, rows.
  - by rewrite (rotate_shape_count rows cols shape1 shape2 Hrows Hr1 Hrot).
Qed.

Lemma tetromino_four_cells piece :
  tetromino piece →
  (∃ rows cols, 0 < rows ∧ 0 < cols ∧ rect rows cols (Tetromino.shape piece)) ∧
  count_set (Tetromino.shape piece) = 4.
Proof.
  intros (k & _ & _ & Ht & _).
  destruct (turned_four_cells _ _ Ht) as [Hrect ->].
  - destruct (init_wf_piece 0 0 k) as (rows & cols & ? & ? & ? & _).
    by exists rows, cols.
  - split; [done|]. by destruct k.
Qed.

(** The origin of the piece a move leaves behind. *)
Lemma move_piece_current dx dy shape_idx g piece moved g' :
  session_inv g → TetrisGame.current_piece g = Some piece →
  TetrisGame.move_piece dx dy shape_idx g = Some (moved, g') →
  TetrisGame.current_piece g' =
    Some (Tetromino.set_xy (Tetromino.x piece + dx) (Tetromino.y piece + dy) piece) ∨
  TetrisGame.current_piece g' = Some piece ∨
  TetrisGame.current_piece g' = TetrisGame.next_piece g.
Proof.
  intros Hinv Hcur. pose proof Hinv as (Hwf & (piece' & Hcur' & Hpiece) & _).
  rewrite Hcur in Hcur'. injection Hcur' as <-.
  destruct (move_piece_spec dx dy shape_idx g piece Hwf Hcur Hpiece)
    as (valid & _ & ->).
  destruct valid; [intros [= <- <-]; by left|].
  destruct (0 <? dy)%Z; [|intros [= <- <-]; by right; left].
  destruct (TetrisGame.place_piece shape_idx g) as [g1|] eqn:Hplace; [|done].
  simpl. intros [= <- <-].
  destruct (place_piece_effect shape_idx g g1 Hinv Hplace) as [_ [? _]].
  by right; right.
Qed.

Lemma pieces_ok_placed g g' : pieces_ok g → piece_placed g g' → pieces_ok g'.
Proof.
  intros [_ (k & Hnext)] (Hcur & Hnext' & _). split; [|done].
  rewrite Hcur, Hnext. eexists. split; [done|]. by apply init_tetromino.
Qed.

Lemma pieces_ok_moved dx dy shape_idx g moved g' :
  session_inv g → pieces_ok g → (0 ≤ dy)%Z →
  TetrisGame.move_piece dx dy shape_idx g = Some (moved, g') →
  pieces_ok g'.
Proof.
  intros Hinv Hok Hdy Hmove. pose proof Hok as [(piece & Hcur & Htet) Hnext].
  destruct (move_piece_effect dx dy shape_idx g moved g' Hinv Hmove)
    as [_ [->|[Hchanged|Hplaced]]]; [done| |by eapply pieces_ok_placed].
  destruct Hchanged as (_ & Hn & _ & _ & _ & p & p' & Hp & Hp' & Hstep).
  rewrite Hcur in Hp. injection Hp as <-.
  split; [|by rewrite Hn]. exists p'. split; [done|].
  apply (piece_step_tetromino piece); [done| |done].
  destruct Htet as (_ & _ & _ & _ & _ & Hy).
  destruct (move_piece_current dx dy shape_idx g piece moved g' Hinv Hcur Hmove)
    as [H|[H|H]]; rewrite Hp' in H.
  - injection H as ->. simpl. lia.
  - by injection H as ->.
  - destruct Hnext as (k & Hk). rewrite Hk in H. by injection H as ->.
Qed.

Lemma pieces_ok_rotated g g' :
  session_inv g → pieces_ok g → TetrisGame.rotate_piece g = Some g' →
  pieces_ok g'.
Proof.
  intros Hinv Hok Hrot. pose proof Hok as [(piece & Hcur & Htet) Hnext].
  destruct (rotate_piece_effect g g' Hinv Hrot) as [_ [->|Hchanged]]; [done|].
  destruct Hchanged as (_ & Hn & _ & _ & _ & p & p' & Hp & Hp' & Hstep).
  rewrite Hcur in Hp. injection Hp as <-.
  split; [|by rewrite Hn]. exists p'. split; [done|].
  apply (piece_step_tetromino piece); [done| |done].
  destruct Htet as (_ & _ & _ & _ & _ & Hy).
  destruct Hstep as (_ & _ & [Hsame|(_ & _ & ->)]); [|done].
  (* the shape is unchanged only when the rotation was refused *)
  pose proof Hinv as (Hwf & (q & Hq & Hpiece) & _).
  rewrite Hcur in Hq. injection Hq as <-.
  destruct (rotate_piece_spec g piece Hwf Hcur Hpiece)
    as (rotated & valid & _ & _ & _ & Hres).
  rewrite Hrot in Hres. injection Hres as ->.
  destruct valid; simpl in Hp'.
  - by injection Hp' as <-.
  - rewrite Hcur in Hp'. by injection Hp' as <-.
Qed.

Lemma finish_line_clear_frame g g' :
  TetrisGame.finish_line_clear g = Some g' →
  TetrisGame.game_over g' = TetrisGame.game_over g ∧
  TetrisGame.paused g' = TetrisGame.paused g ∧
  TetrisGame.fall_time g' = TetrisGame.fall_time g ∧
  TetrisGame.random_block_time g' = TetrisGame.random_block_time g ∧
  TetrisGame.random_block_interval g' = TetrisGame.random_block_interval g ∧
  TetrisGame.random_blocks_enabled g' = TetrisGame.random_blocks_enabled g.
Proof.
  unfold TetrisGame.finish_line_clear.
  destruct (TetrisGame.lines_clearing g); [by intros [= <-]|].
  destruct (Py.for_each _ _ _); [|done]. simpl. by intros [= <-].
Qed.

Lemma update_fall_book dt d g g' :
  session_inv g → book_inv g → (0 ≤ dt)%Z →
  TetrisGame.update_fall dt d g = Some g' → book_inv g'.
Proof.
  intros Hinv (Hstats & Htimers & Hpieces) Hdt. unfold TetrisGame.update_fall.
  set (g1 := TetrisGame.set_fall_time (TetrisGame.fall_time g + dt) g).
  change (TetrisGame.fall_speed g1) with (TetrisGame.fall_speed g).
  change (TetrisGame.fall_time g1) with (TetrisGame.fall_time g + dt)%Z.
  destruct (stats_ok_speed g Hstats) as [_ Hspeed].
  destruct (Z.leb_spec (TetrisGame.fall_speed g) (TetrisGame.fall_time g + dt))
    as [Hfire|Hwait].
  - assert (session_inv g1) as Hinv1 by (by apply (session_inv_fields g)).
    destruct (TetrisGame.move_piece 0 1 (shape_draw d) g1)
      as [[moved g2]|] eqn:Hmove; [|done].
    simpl. intros [= <-].
    destruct (move_piece_effect 0 1 (shape_draw d) g1 moved g2 Hinv1 Hmove)
      as [Hkept _].
    assert (bookkeeping_kept (TetrisGame.set_fall_time 0 g)
              (TetrisGame.set_fall_time 0 g2)) as Hkept0.
    { destruct Hkept as (A1 & A2 & A3 & A4 & A5 & A6 & A7 & A8 & A9 & A10).
      unfold bookkeeping_kept. simpl. split_and!; done. }
    split; [|split].
    + apply (stats_ok_kept _ _ Hkept0). exact Hstats.
    + apply (timers_ok_kept _ _ Hkept0).
      destruct Htimers as (? & ? & ? & ? & ?). unfold timers_ok. simpl.
      split_and!; try done; lia.
    + assert (pieces_ok g2) as [? ?]; [|done].
      apply (pieces_ok_moved 0 1 (shape_draw d) g1 moved); [done|done|lia|done].
  - intros [= <-]. split; [done|]. split; [|done].
    destruct Htimers as (? & ? & ? & ? & ?). unfold timers_ok. simpl.
    split_and!; try done; lia.
Qed.

Lemma update_clear_book dt g g' :
  book_inv g → (0 ≤ dt)%Z →
  TetrisGame.update_clear dt g = Some g' → book_inv g'.
Proof.
  intros (Hstats & Htimers & Hpieces) Hdt. rewrite update_clear_spec.
  set (g1 := TetrisGame.set_clear_animation_time _ g).
  destruct (decide _) as [[Hne Hle]|Hno].
  - intros Hfin.
    pose proof (finish_line_clear_scoring g1 g' Hne Hfin) as Hscore.
    cbv zeta in Hscore.
    destruct Hscore as (Hs & Hl & Hlevel & Hspeed & Hlines & Hclock).
    destruct (finish_line_clear_frame g1 g' Hfin) as (_ & _ & Hf & Hr & Hi & _).
    destruct (finish_line_clear_pieces g1 g' Hfin) as [Hc Hn].
    destruct Hstats as (S1 & S2 & S3 & S4).
    destruct Htimers as (T1 & T2 & T3 & T4 & T5).
    destruct (stats_ok_speed g) as [Hlevel1 _]; [done|].
    change (TetrisGame.score g1) with (TetrisGame.score g) in Hs.
    change (TetrisGame.lines_cleared g1) with (TetrisGame.lines_cleared g) in Hl.
    change (TetrisGame.level g1) with (TetrisGame.level g) in Hs.
    split; [|split].
    + unfold stats_ok. rewrite Hs, Hl. split_and!; [nia|lia|by rewrite <-Hl|done].
    + unfold timers_ok. rewrite Hclock, Hf, Hr, Hi. subst g1. simpl.
      unfold TetrisGame.clear_animation_duration. split_and!; try done; lia.
    + unfold pieces_ok. by rewrite Hc, Hn.
  - destruct (TetrisGame.lines_clearing g) eqn:Hlines; intros [= <-]; [done|].
    split; [done|]. split; [|done].
    destruct Htimers as (T1 & T2 & T3 & T4 & T5). unfold timers_ok. simpl.
    rewrite Hlines. split_and!; try done; try lia.
    destruct (decide (TetrisGame.clear_animation_duration ≤
                      TetrisGame.clear_animation_time g + dt)%Z); [|lia].
    exfalso. apply Hno. done.
Qed.

Lemma update_random_book dt d g g' :
  session_inv g → book_inv g → (0 ≤ dt)%Z →
  TetrisGame.update_random dt d g = Some g' → book_inv g'.
Proof.
  intros Hinv (Hstats & Htimers & Hpieces) Hdt. unfold TetrisGame.update_random.
  destruct (TetrisGame.random_blocks_enabled g); [|by intros [= <-]].
  set (g1 := TetrisGame.set_random_block_time _ g).
  change (TetrisGame.random_block_interval g1)
    with (TetrisGame.random_block_interval g).
  change (TetrisGame.random_block_time g1)
    with (TetrisGame.random_block_time g + dt)%Z.
  destruct Htimers as (T1 & T2 & T3 & T4 & T5).
  destruct (Z.leb_spec (TetrisGame.random_block_interval g)
              (TetrisGame.random_block_time g + dt)) as [Hfire|Hwait].
  - destruct (spawn_random_block_spec (choice_draw d) (color_draw d) g1)
      as (g2 & -> & _ & _ & Hcase); [apply Hinv|].
    simpl. intros [= <-].
    pose proof (random_interval_range (interval_draw d)).
    destruct Hcase as [->|(x & y & grid' & _ & _ & _ & _ & ->)];
      (split; [done|]); (split; [|done]);
      unfold timers_ok; simpl; split_and!; try done; lia.
  - intros [= <-]. split; [done|]. split; [|done].
    unfold timers_ok. simpl. split_and!; try done; lia.
Qed.

Lemma update_book dt d g g' :
  session_inv g → book_inv g → (0 ≤ dt)%Z →
  TetrisGame.update dt d g = Some g' → book_inv g'.
Proof.
  intros Hinv Hbook Hdt. unfold TetrisGame.update.
  destruct (_ || _); [by intros [= <-]|].
  destruct (update_fall_inv dt d g Hinv) as (g1 & Hfall & Hinv1 & _).
  rewrite Hfall. simpl.
  destruct (update_clear_inv dt g1 Hinv1) as (g2 & Hclear & Hinv2 & _).
  rewrite Hclear. simpl. intros Hrandom.
  eapply update_random_book; [exact Hinv2| |exact Hdt|exact Hrandom].
  eapply update_clear_book; [|exact Hdt|exact Hclear].
  exact (update_fall_book dt d g g1 Hinv Hbook Hdt Hfall).
Qed.

Lemma fresh_book d : book_inv (fresh d).
Proof.
  split; [|split].
  - unfold stats_ok. simpl. done.
  - pose proof (random_interval_range (interval_draw d)).
    unfold timers_ok, TetrisGame.clear_animation_duration. simpl.
    split_and!; try done; lia.
  - split; [|by eexists]. eexists. split; [done|]. by apply init_tetromino.
Qed.

Lemma handle_key_book fuel key d g g' :
  session_inv g → book_inv g →
  TetrisGame.handle_key fuel key d g = TetrisGame.Returned g' → book_inv g'.
Proof.
  intros Hinv Hbook.
  assert (∀ dx dy, (0 ≤ dy)%Z →
            TetrisGame.of_option
              (snd <$> TetrisGame.move_piece dx dy (shape_draw d) g)
            = TetrisGame.Returned g' → book_inv g') as Hmove.
  { intros dx dy Hdy.
    destruct (TetrisGame.move_piece dx dy (shape_draw d) g)
      as [[moved g1]|] eqn:Hm; [|done].
    simpl. intros H. apply Returned_inj in H. subst g1.
    destruct (move_piece_effect _ _ _ _ _ _ Hinv Hm) as [Hkept _].
    destruct Hbook as (? & ? & ?). split; [by eapply stats_ok_kept|].
    split; [by eapply timers_ok_kept|]. by eapply pieces_ok_moved. }
  unfold TetrisGame.handle_key. destruct key.
  - rewrite init_fresh. simpl. intros H. apply Returned_inj in H. subst g'.
    apply fresh_book.
  - intros H. apply Returned_inj in H. subst g'. exact Hbook.
  - intros H. apply Returned_inj in H. subst g'. exact Hbook.
  - destruct (negb _ && negb _); [by apply Hmove|].
    intros H. apply Returned_inj in H. by subst g'.
  - destruct (negb _ && negb _); [by apply Hmove|].
    intros H. apply Returned_inj in H. by subst g'.
  - destruct (negb _ && negb _); [by apply Hmove|].
    intros H. apply Returned_inj in H. by subst g'.
  - destruct (negb _ && negb _);
      [|intros H; apply Returned_inj in H; by subst g'].
    destruct (TetrisGame.rotate_piece g) as [g1|] eqn:Hrot; [|done].
    simpl. intros H. apply Returned_inj in H. subst g1.
    destruct (rotate_piece_effect g g' Hinv Hrot) as [Hkept _].
    destruct Hbook as (? & ? & ?). split; [by eapply stats_ok_kept|].
    split; [by eapply timers_ok_kept|]. by eapply pieces_ok_rotated.
  - destruct (negb _ && negb _);
      [|intros H; apply Returned_inj in H; by subst g'].
    intros Hdrop.
    destruct (hard_drop_effect _ _ _ _ Hinv Hdrop) as [Hkept Hplaced].
    destruct Hbook as (? & ? & ?). split; [by eapply stats_ok_kept|].
    split; [by eapply timers_ok_kept|]. by eapply pieces_ok_placed.
Qed.

Lemma reachable_book g : reachable g → book_inv g.
Proof.
  induction 1 as [d g Hinit|fuel i d g g' Hreach IH Hvalid Hrun].
  - rewrite init_fresh in Hinit. injection Hinit as <-. apply fresh_book.
  - pose proof (reachable_inv g Hreach) as Hinv.
    destruct i as [key|dt]; unfold TetrisGame.run_input in Hrun.
    + by eapply handle_key_book.
    + destruct (TetrisGame.update dt d g) as [g1|] eqn:Hup; [|done].
      apply Returned_inj in Hrun. subst g1. by eapply update_book.
Qed.

(** ** Termination of hard_drop within the height of the field *)

Lemma lands_within_field g piece d r c v :
  wf_grid (TetrisGame.grid g) → wf_piece piece →
  Py.getitem2 (Tetromino.shape piece) r c = Some v → v ≠ 0%Z →
  (0 ≤ Tetromino.y piece)%Z →
  lands_at g piece d → d < 20.
Proof.
  intros Hwf Hpiece Hv Hne Hy [Hsteps _].
  destruct (decide (d < 20)) as [|Hfar]; [done|]. exfalso.
  specialize (Hsteps d ltac:(lia)).
  rewrite (below_floor_invalid g (shift_down d piece) r c v) in Hsteps;
    [done|done|by apply shift_down_wf_piece|done|done|].
  unfold GRID_HEIGHT. simpl. lia.
Qed.

Lemma hard_drop_returns shape_idx g :
  session_inv g → pieces_ok g →
  ∃ g', ∀ fuel, 20 ≤ fuel →
    TetrisGame.hard_drop fuel shape_idx g = TetrisGame.Returned g'.
Proof.
  intros Hinv [(piece & Hcur & Htet) _].
  pose proof Hinv as (Hwf & (piece' & Hcur' & Hpiece) & Hnext & Hpend).
  rewrite Hcur in Hcur'. injection Hcur' as <-.
  destruct Htet as (_ & _ & _ & _ & _ & Hy).
  destruct (wf_piece_occupied piece Hpiece) as (r & c & v & Hv & Hne).
  destruct (hard_drop_lands shape_idx
              (Z.to_nat (GRID_HEIGHT - (Tetromino.y piece + Z.of_nat r)))
              g piece r c v Hwf Hcur Hpiece Hv Hne) as (d & Hlands & Hclosed);
    [lia|].
  pose proof (lands_within_field g piece d r c v Hwf Hpiece Hv Hne Hy Hlands).
  set (g_d := TetrisGame.set_current_piece (Some (shift_down d piece)) g) in *.
  assert (session_inv g_d) as Hinv_d.
  { split; [done|]. split; [|done]. eexists. split; [done|].
    by apply shift_down_wf_piece. }
  destruct (place_piece_inv shape_idx g_d Hinv_d) as (g' & Hplace & _).
  exists g'. intros fuel Hfuel. rewrite Hclosed by lia. by rewrite Hplace.
Qed.

(** * Further properties *)

(** X1.  In every reachable state every key press and every [update(dt)]
    returns: no exception escapes, and the loop of [hard_drop] ends within
    20 iterations. *)
Theorem X1_every_input_returns g i d :
  reachable g →
  ∃ g', ∀ fuel, 20 ≤ fuel →
    TetrisGame.run_input fuel i d g = TetrisGame.Returned g'.
Proof.
  intros Hreach. pose proof (reachable_inv g Hreach) as Hinv.
  pose proof (reachable_book g Hreach) as (_ & _ & Hpieces).
  assert (∀ dx dy, ∃ g', TetrisGame.of_option
             (snd <$> TetrisGame.move_piece dx dy (shape_draw d) g)
             = TetrisGame.Returned g') as Hmove.
  { intros dx dy.
    destruct (move_piece_inv dx dy (shape_draw d) g Hinv) as (m & g' & -> & _).
    by exists g'. }
  destruct i as [key|dt]; unfold TetrisGame.run_input.
  - unfold TetrisGame.handle_key. destruct key.
    + rewrite init_fresh. by eexists.
    + by eexists.
    + by eexists.
    + destruct (negb _ && negb _); [|by eexists].
      destruct (Hmove (-1)%Z 0%Z) as [g' ->]. by exists g'.
    + destruct (negb _ && negb _); [|by eexists].
      destruct (Hmove 1%Z 0%Z) as [g' ->]. by exists g'.
    + destruct (negb _ && negb _); [|by eexists].
      destruct (Hmove 0%Z 1%Z) as [g' ->]. by exists g'.
    + destruct (negb _ && negb _); [|by eexists].
      destruct (rotate_piece_inv g Hinv) as (g' & -> & _). by exists g'.
    + destruct (negb _ && negb _); [|by eexists].
      by apply hard_drop_returns.
  - destruct (update_inv dt d g Hinv) as (g' & -> & _). by exists g'.
Qed.

Lemma X1_witness :
  ∃ g', ∀ fuel, 20 ≤ fuel →
    TetrisGame.run_input fuel (TetrisGame.KeyDown TetrisGame.K_SPACE)
      (Example.draw J_) Example.over_cave = TetrisGame.Returned g'.
Proof.
  apply (X1_every_input_returns Example.over_cave
           (TetrisGame.KeyDown TetrisGame.K_SPACE) (Example.draw J_)).
  apply reachable_after; [apply reachable_fresh|vm_compute; reflexivity..].
Defined.

(** X2.  In every reachable state the score and the number of cleared
    lines are not negative, the level is [lines_cleared // 10 + 1], and
    [fall_speed] is [max(100, 1000 - (level - 1) * 100)], hence between 100
    and 1000. *)
Theorem X2_level_and_speed_follow_lines g :
  reachable g →
  (0 ≤ TetrisGame.score g)%Z ∧
  (0 ≤ TetrisGame.lines_cleared g)%Z ∧
  TetrisGame.level g = (TetrisGame.lines_cleared g / 10 + 1)%Z ∧
  (1 ≤ TetrisGame.level g)%Z ∧
  TetrisGame.fall_speed g =
    Z.max 100 (1000 - (TetrisGame.level g - 1) * 100) ∧
  (100 ≤ TetrisGame.fall_speed g ≤ 1000)%Z.
Proof.
  intros Hreach. destruct (reachable_book g Hreach) as (Hstats & _).
  destruct (stats_ok_speed g Hstats) as [? ?].
  destruct Hstats as (? & ? & ? & ?). done.
Qed.

Lemma X2_witness :
  let g := Example.two_pending in
  (0 ≤ TetrisGame.score g)%Z ∧
  (0 ≤ TetrisGame.lines_cleared g)%Z ∧
  TetrisGame.level g = (TetrisGame.lines_cleared g / 10 + 1)%Z ∧
  (1 ≤ TetrisGame.level g)%Z ∧
  TetrisGame.fall_speed g =
    Z.max 100 (1000 - (TetrisGame.level g - 1) * 100) ∧
  (100 ≤ TetrisGame.fall_speed g ≤ 1000)%Z.
Proof.
  apply (X2_level_and_speed_follow_lines Example.two_pending).
  apply reachable_after; [apply reachable_fresh|vm_compute; reflexivity..].
Defined.

(** X3.  In every reachable state the animation clock is in [0, 800) and
    is 0 when no row is pending, the fall timer is in [0, 1000), and the
    random-block timer is in [0, random_block_interval) with the interval
    between 15000 and 30000. *)
Theorem X3_timers_stay_below_thresholds g :
  reachable g →
  (0 ≤ TetrisGame.clear_animation_time g < 800)%Z ∧
  (TetrisGame.lines_clearing g = [] →
   TetrisGame.clear_animation_time g = 0%Z) ∧
  (0 ≤ TetrisGame.fall_time g < 1000)%Z ∧
  (0 ≤ TetrisGame.random_block_time g < TetrisGame.random_block_interval g)%Z ∧
  (15000 ≤ TetrisGame.random_block_interval g ≤ 30000)%Z.
Proof.
  intros Hreach. destruct (reachable_book g Hreach) as (_ & Htimers & _).
  exact Htimers.
Qed.

Lemma X3_witness :
  let g := Example.resting in
  (0 ≤ TetrisGame.clear_animation_time g < 800)%Z ∧
  (TetrisGame.lines_clearing g = [] →
   TetrisGame.clear_animation_time g = 0%Z) ∧
  (0 ≤ TetrisGame.fall_time g < 1000)%Z ∧
  (0 ≤ TetrisGame.random_block_time g < TetrisGame.random_block_interval g)%Z ∧
  (15000 ≤ TetrisGame.random_block_interval g ≤ 30000)%Z.
Proof.
  apply (X3_timers_stay_below_thresholds Example.resting).
  apply reachable_after; [|vm_compute; reflexivity..].
  apply reachable_after; [apply reachable_fresh|vm_compute; reflexivity..].
Defined.

(** X4.  In every reachable state the next piece is an unrotated tetromino
    at the spawn position, column [GRID_WIDTH // 2 - 1] and row 0, and the
    current piece is a tetromino in its own colour, rotated some number of
    times, with its origin at or below row 0.  [get_positions] returns
    four pairwise distinct positions for it, the occupied cells. *)
Theorem X4_pieces_are_tetrominoes g :
  reachable g →
  (∃ shape_idx, TetrisGame.next_piece g =
                Some (Tetromino.init (GRID_WIDTH / 2 - 1) 0 shape_idx)) ∧
  ∃ piece shape_idx positions,
    TetrisGame.current_piece g = Some piece ∧
    Tetromino.color piece = Tetromino.color (Tetromino.init 0 0 shape_idx) ∧
    turned (Tetromino.shape (Tetromino.init 0 0 shape_idx))
           (Tetromino.shape piece) ∧
    (0 ≤ Tetromino.y piece)%Z ∧
    Tetromino.get_positions piece = Some positions ∧
    length positions = 4 ∧ NoDup positions ∧
    ∀ x y, (x, y) ∈ positions ↔ occupied piece x y.
Proof.
  intros Hreach.
  destruct (reachable_book g Hreach) as (_ & _ & (piece & Hcur & Htet) & Hnext).
  split; [done|].
  destruct (tetromino_four_cells piece Htet) as [(rows & cols & _ & _ & Hrect) Hfour].
  destruct Htet as (k & _ & Hcolor & Hturned & _ & Hy).
  destruct (get_positions_spec rows cols piece Hrect) as (ps & Hps & Hmem).
  exists piece, k, ps. split_and!; try done.
  - rewrite (get_positions_cells rows cols piece Hrect) in Hps.
    injection Hps as <-. by rewrite cells_length.
  - rewrite (get_positions_cells rows cols piece Hrect) in Hps.
    injection Hps as <-. apply cells_NoDup.
Qed.

Lemma X4_witness :
  let g := Example.at_right_wall in
  (∃ shape_idx, TetrisGame.next_piece g =
                Some (Tetromino.init (GRID_WIDTH / 2 - 1) 0 shape_idx)) ∧
  ∃ piece shape_idx positions,
    TetrisGame.current_piece g = Some piece ∧
    Tetromino.color piece = Tetromino.color (Tetromino.init 0 0 shape_idx) ∧
    turned (Tetromino.shape (Tetromino.init 0 0 shape_idx))
           (Tetromino.shape piece) ∧
    (0 ≤ Tetromino.y piece)%Z ∧
    Tetromino.get_positions piece = Some positions ∧
    length positions = 4 ∧ NoDup positions ∧
    ∀ x y, (x, y) ∈ positions ↔ occupied piece x y.
Proof.
  apply (X4_pieces_are_tetrominoes Example.at_right_wall).
  apply reachable_after; [apply reachable_fresh|vm_compute; reflexivity..].
Defined.

(** X5.  For a piece with a rectangular shape, [get_positions] of the
    piece moved to [(x + dx, y + dy)] is the list of its positions before
    the move, each translated by [(dx, dy)], in the same order. *)
Theorem X5_positions_move_with_the_piece rows cols piece dx dy :
  rect rows cols (Tetromino.shape piece) →
  ∃ positions,
    Tetromino.get_positions piece = Some positions ∧
    Tetromino.get_positions
      (Tetromino.set_xy (Tetromino.x piece + dx) (Tetromino.y piece + dy) piece)
    = Some (translate dx dy <$> positions).
Proof.
  intros Hrect. exists (cells piece rows cols).
  split; [by apply get_positions_cells|].
  rewrite (get_positions_cells rows cols) by done.
  rewrite cells_set_xy. do 3 f_equal; lia.
Qed.

Lemma X5_witness :
  ∃ positions,
    Tetromino.get_positions (Tetromino.init 4 0 S_) = Some positions ∧
    Tetromino.get_positions
      (Tetromino.set_xy (4 + -1) (0 + 3) (Tetromino.init 4 0 S_))
    = Some (translate (-1) 3 <$> positions).
Proof.
  apply (X5_positions_move_with_the_piece 2 3 (Tetromino.init 4 0 S_) (-1) 3).
  split; [reflexivity|]. repeat constructor.
Defined.

(** X6.  In a game that is neither over nor paused, a tick of at least
    800 ms leaves no row pending: rows that were pending, and rows that the
    tick's own gravity step completes, are compacted before [update]
    returns, and the animation clock is back at 0. *)
Theorem X6_long_tick_leaves_nothing_pending g dt d g' :
  reachable g → (800 ≤ dt)%Z →
  TetrisGame.game_over g = false → TetrisGame.paused g = false →
  TetrisGame.update dt d g = Some g' →
  TetrisGame.lines_clearing g' = [] ∧ TetrisGame.clear_animation_time g' = 0%Z.
Proof.
  intros Hreach Hdt Hover Hpaused.
  pose proof (reachable_inv g Hreach) as Hinv.
  pose proof (reachable_book g Hreach) as Hbook.
  unfold TetrisGame.update. rewrite Hover, Hpaused. simpl.
  destruct (update_fall_inv dt d g Hinv) as (g1 & Hfall & Hinv1 & _).
  rewrite Hfall. simpl.
  pose proof (update_fall_book dt d g g1 Hinv Hbook ltac:(lia) Hfall) as Hbook1.
  destruct (update_clear_inv dt g1 Hinv1) as (g2 & Hclear & Hinv2 & _).
  rewrite Hclear. simpl. intros Hrandom.
  pose proof (update_clear_book dt g1 g2 Hbook1 ltac:(lia) Hclear) as Hbook2.
  pose proof (update_random_book dt d g2 g' Hinv2 Hbook2 ltac:(lia) Hrandom)
    as (_ & (_ & Hidle & _) & _).
  destruct (update_random_inv dt d g2 Hinv2) as (g3 & Hr3 & _ & _ & Hlines3).
  rewrite Hrandom in Hr3. injection Hr3 as <-.
  assert (TetrisGame.lines_clearing g2 = []) as Hnone.
  { rewrite update_clear_spec in Hclear.
    destruct Hbook1 as (_ & ((Hclock & _) & _) & _).
    destruct (decide _) as [[Hne _]|Hno].
    - pose proof (finish_line_clear_scoring
                    (TetrisGame.set_clear_animation_time
                       (TetrisGame.clear_animation_time g1 + dt) g1)
                    g2 Hne Hclear) as Hscore.
      cbv zeta in Hscore. by destruct Hscore as (_ & _ & _ & _ & ? & _).
    - destruct (TetrisGame.lines_clearing g1) eqn:Hl1.
      + injection Hclear as <-. done.
      + exfalso. apply Hno. split; [done|].
        unfold TetrisGame.clear_animation_duration. lia. }
  rewrite Hlines3, Hnone. split; [done|]. apply Hidle. by rewrite Hlines3.
Qed.

Lemma X6_witness :
  ∃ g',
    TetrisGame.update 1000 (Example.draw J_) Example.resting = Some g' ∧
    TetrisGame.lines_clearing g' = [] ∧
    TetrisGame.clear_animation_time g' = 0%Z.
Proof.
  assert (∃ g', TetrisGame.update 1000 (Example.draw J_) Example.resting
                = Some g') as [g' Hupdate]
    by (eexists; vm_compute; reflexivity).
  exists g'. split; [exact Hupdate|].
  apply (X6_long_tick_leaves_nothing_pending Example.resting 1000
           (Example.draw J_) g').
  - apply reachable_after; [|vm_compute; reflexivity..].
    apply reachable_after; [apply reachable_fresh|vm_compute; reflexivity..].
  - lia.
  - vm_compute. reflexivity.
  - vm_compute. reflexivity.
  - exact Hupdate.
Defined.

(** X7.  With exactly one pending row [y], [finish_line_clear] raises
    [IndexError] when the grid has no row [y]; otherwise it returns the
    grid with an empty row on top, the rows above [y] one index lower and
    the rows below [y] where they were, one line counted and
    [100 * level] added to the score. *)
Theorem X7_one_pending_row_is_removed g y :
  TetrisGame.lines_clearing g = [y] →
  (length (TetrisGame.grid g) ≤ y → TetrisGame.finish_line_clear g = None) ∧
  (y < length (TetrisGame.grid g) →
   ∃ g', TetrisGame.finish_line_clear g = Some g' ∧
         length (TetrisGame.grid g') = length (TetrisGame.grid g) ∧
         TetrisGame.grid g' !! 0 = Some empty_row ∧
         (∀ i, 1 ≤ i ≤ y →
               TetrisGame.grid g' !! i = TetrisGame.grid g !! (i - 1)) ∧
         (∀ i, y < i → TetrisGame.grid g' !! i = TetrisGame.grid g !! i) ∧
         TetrisGame.lines_cleared g' = (TetrisGame.lines_cleared g + 1)%Z ∧
         TetrisGame.score g' =
           (TetrisGame.score g + 100 * TetrisGame.level g)%Z ∧
         TetrisGame.lines_clearing g' = []).
Proof.
  intros Hlines. unfold TetrisGame.finish_line_clear. rewrite Hlines.
  simpl. unfold Py.delitem. split.
  - intros Hshort. by rewrite decide_False by lia.
  - intros Hrow. rewrite decide_True by lia. simpl.
    eexists. split; [done|]. simpl. unfold Py.insert0. split_and!.
    + simpl. rewrite length_delete by (by apply lookup_lt_is_Some_2). lia.
    + done.
    + intros [|j] Hi; [lia|]. simpl. rewrite Nat.sub_0_r.
      apply list_lookup_delete_lt. lia.
    + intros [|j] Hi; [lia|]. simpl. apply list_lookup_delete_ge. lia.
    + done.
    + lia.
    + done.
Qed.

Lemma X7_witness :
  let g := Example.clearing in
  (length (TetrisGame.grid g) ≤ 19 → TetrisGame.finish_line_clear g = None) ∧
  (19 < length (TetrisGame.grid g) →
   ∃ g', TetrisGame.finish_line_clear g = Some g' ∧
         length (TetrisGame.grid g') = length (TetrisGame.grid g) ∧
         TetrisGame.grid g' !! 0 = Some empty_row ∧
         (∀ i, 1 ≤ i ≤ 19 →
               TetrisGame.grid g' !! i = TetrisGame.grid g !! (i - 1)) ∧
         (∀ i, 19 < i → TetrisGame.grid g' !! i = TetrisGame.grid g !! i) ∧
         TetrisGame.lines_cleared g' = (TetrisGame.lines_cleared g + 1)%Z ∧
         TetrisGame.score g' =
           (TetrisGame.score g + 100 * TetrisGame.level g)%Z ∧
         TetrisGame.lines_clearing g' = []).
Proof.
  apply (X7_one_pending_row_is_removed Example.clearing 19).
  vm_compute. reflexivity.
Defined.

(** X8.  A move that succeeds from a valid position is undone by the
    opposite move: [move_piece(-dx, -dy)] succeeds in turn and returns the
    game to the state before the first move. *)
Theorem X8_successful_move_can_be_undone dx dy shape_idx shape_idx' g piece g1 :
  session_inv g → TetrisGame.current_piece g = Some piece →
  TetrisGame.is_valid_position g piece = Some true →
  TetrisGame.move_piece dx dy shape_idx g = Some (true, g1) →
  TetrisGame.move_piece (- dx) (- dy) shape_idx' g1 = Some (true, g).
Proof.
  intros Hinv Hcur Hvalid Hmove.
  pose proof Hinv as (Hwf & (piece' & Hcur' & Hpiece) & _).
  rewrite Hcur in Hcur'. injection Hcur' as <-.
  destruct (move_piece_spec dx dy shape_idx g piece Hwf Hcur Hpiece)
    as (valid & _ & Hres).
  rewrite Hmove in Hres. destruct valid.
  - injection Hres as ->.
    set (moved := Tetromino.set_xy (Tetromino.x piece + dx)
                                   (Tetromino.y piece + dy) piece).
    destruct (move_piece_spec (- dx) (- dy) shape_idx'
                (TetrisGame.set_current_piece (Some moved) g) moved)
      as (valid' & Hvalid' & ->); [done|done|by apply set_xy_wf_piece|].
    assert (Tetromino.set_xy (Tetromino.x moved + - dx)
              (Tetromino.y moved + - dy) moved = piece) as Hback.
    { unfold moved. simpl. rewrite set_xy_set_xy.
      replace (Tetromino.x piece + dx + - dx)%Z with (Tetromino.x piece) by lia.
      replace (Tetromino.y piece + dy + - dy)%Z with (Tetromino.y piece) by lia.
      apply set_xy_same. }
    rewrite Hback in *.
    rewrite (is_valid_position_grid (TetrisGame.set_current_piece _ _) g)
      in Hvalid' by done.
    rewrite Hvalid in Hvalid'. injection Hvalid' as <-.
    rewrite set_current_piece_twice.
    by rewrite (set_current_piece_same g piece Hcur).
  - destruct (0 <? dy)%Z; [|done].
    by destruct (TetrisGame.place_piece shape_idx g).
Qed.

Lemma X8_witness :
  TetrisGame.move_piece (- -1) (- 0) I_
    (after [Example.press TetrisGame.K_LEFT] Example.clearing)
  = Some (true, Example.clearing).
Proof.
  apply (X8_successful_move_can_be_undone (-1) 0 I_ I_ Example.clearing
           (Tetromino.init 4 0 T_)).
  - apply reachable_inv.
    apply reachable_after; [apply reachable_fresh|vm_compute; reflexivity..].
  - vm_compute. reflexivity.
  - vm_compute. reflexivity.
  - vm_compute. reflexivity.
Defined.

(** X9.  When a position is valid on a grid it is valid on every grid
    that has no block the first grid lacks: adding blocks never turns a
    refused position into an accepted one. *)
Theorem X9_blocks_never_make_a_position_valid rows cols g g' piece :
  wf_grid (TetrisGame.grid g) → wf_grid (TetrisGame.grid g') →
  blocks_kept (TetrisGame.grid g) (TetrisGame.grid g') →
  rect rows cols (Tetromino.shape piece) →
  TetrisGame.is_valid_position g' piece = Some true →
  TetrisGame.is_valid_position g piece = Some true.
Proof.
  intros Hwf Hwf' Hkept Hrect Hvalid'.
  destruct (is_valid_position_spec rows cols g piece Hwf Hrect)
    as (valid & -> & Hiff).
  destruct (is_valid_position_spec rows cols g' piece Hwf' Hrect)
    as (valid' & Hv' & Hiff').
  rewrite Hvalid' in Hv'. injection Hv' as <-.
  destruct valid; [done|]. exfalso.
  destruct (proj1 Hiff eq_refl) as (x & y & Hocc & Hblocked).
  assert (true = false) as Habsurd; [|done].
  apply Hiff'. exists x, y. split; [done|].
  destruct Hblocked as [?|[?|[?|[Hy (Hx0 & Hy0 & color & Hcell)]]]];
    [by left|by right; left|by right; right; left|].
  right; right; right. split; [done|]. split; [done|]. split; [done|].
  by eapply Hkept.
Qed.

Lemma X9_witness :
  TetrisGame.is_valid_position (fresh (Example.draw I_)) (Tetromino.init 4 17 T_)
  = Some true.
Proof.
  apply (X9_blocks_never_make_a_position_valid 2 3
           (fresh (Example.draw I_)) Example.clearing (Tetromino.init 4 17 T_)).
  - apply rect_replicate.
  - split; [reflexivity|]. vm_compute. repeat constructor.
  - intros r c color H.
    assert (TetrisGame.grid (fresh (Example.draw I_))
            = replicate 20 (replicate 10 None)) as Hgrid
      by (vm_compute; reflexivity).
    rewrite Hgrid in H.
    assert (r < 20 ∧ c < 10) as [Hr Hc].
    { apply (getitem2_Some_lt 20 10 _ _ _ _ (rect_replicate 20 10 None) H). }
    rewrite (getitem2_replicate 20 10) in H by done. discriminate H.
  - split; [reflexivity|]. repeat constructor.
  - vm_compute. reflexivity.
Defined.

(** ** Hard drop as repeated soft drops *)

Lemma hard_drop_soft_drops d fuel : ∀ g g',
  session_inv g →
  TetrisGame.game_over g = false → TetrisGame.paused g = false →
  TetrisGame.hard_drop fuel (shape_draw d) g = TetrisGame.Returned g' →
  ∃ n, 1 ≤ n ≤ fuel ∧
       ∀ fuel', run_trace fuel'
                  (replicate n (TetrisGame.KeyDown TetrisGame.K_DOWN, d)) g
                = TetrisGame.Returned g'.
Proof.
  induction fuel as [|fuel IH]; intros g g' Hinv Hover Hpaused; simpl; [done|].
  pose proof Hinv as (Hwf & (piece & Hcur & Hpiece) & _).
  destruct (move_piece_inv 0 1 (shape_draw d) g Hinv)
    as (moved & g1 & Hmove & Hinv1 & _).
  rewrite Hmove. destruct moved.
  - intros Hrun.
    destruct (move_piece_spec 0 1 (shape_draw d) g piece Hwf Hcur Hpiece)
      as (valid & _ & Hres).
    rewrite Hmove in Hres.
    assert (TetrisGame.game_over g1 = false ∧ TetrisGame.paused g1 = false)
      as [Hover1 Hpaused1].
    { destruct valid.
      - injection Hres as ->. done.
      - change (0 <? 1)%Z with true in Hres. cbn iota in Hres.
        by destruct (TetrisGame.place_piece (shape_draw d) g). }
    destruct (IH g1 g' Hinv1 Hover1 Hpaused1 Hrun) as (n & Hn & Htrace).
    exists (S n). split; [lia|]. intros fuel'. simpl.
    rewrite Hover, Hpaused, Hmove. simpl. apply Htrace.
  - intros [= <-]. exists 1. split; [lia|]. intros fuel'. simpl.
    by rewrite Hover, Hpaused, Hmove.
Qed.

(** X10.  While the game runs, a hard drop returns the state that some
    number of DOWN key presses, at least one and at most 20, lead to: the
    piece steps down row by row and the last press places it. *)
Theorem X10_hard_drop_is_repeated_soft_drop g d :
  reachable g →
  TetrisGame.game_over g = false → TetrisGame.paused g = false →
  ∃ n g',
    1 ≤ n ≤ 20 ∧
    (∀ fuel, 20 ≤ fuel →
       TetrisGame.run_input fuel (TetrisGame.KeyDown TetrisGame.K_SPACE) d g
       = TetrisGame.Returned g') ∧
    (∀ fuel, run_trace fuel
               (replicate n (TetrisGame.KeyDown TetrisGame.K_DOWN, d)) g
             = TetrisGame.Returned g').
Proof.
  intros Hreach Hover Hpaused.
  pose proof (reachable_inv g Hreach) as Hinv.
  pose proof (reachable_book g Hreach) as (_ & _ & Hpieces).
  destruct (hard_drop_returns (shape_draw d) g Hinv Hpieces) as [g' Hdrop].
  destruct (hard_drop_soft_drops d 20 g g' Hinv Hover Hpaused (Hdrop 20 ltac:(lia)))
    as (n & Hn & Htrace).
  exists n, g'. split; [done|]. split; [|done].
  intros fuel Hfuel. unfold TetrisGame.run_input, TetrisGame.handle_key.
  rewrite Hover, Hpaused. simpl. by apply Hdrop.
Qed.

Lemma X10_witness :
  ∃ n g',
    1 ≤ n ≤ 20 ∧
    (∀ fuel, 20 ≤ fuel →
       TetrisGame.run_input fuel (TetrisGame.KeyDown TetrisGame.K_SPACE)
         (Example.draw J_) Example.over_cave
       = TetrisGame.Returned g') ∧
    (∀ fuel, run_trace fuel
               (replicate n (TetrisGame.KeyDown TetrisGame.K_DOWN,
                             Example.draw J_)) Example.over_cave
             = TetrisGame.Returned g').
Proof.
  apply (X10_hard_drop_is_repeated_soft_drop Example.over_cave (Example.draw J_)).
  - apply reachable_after; [apply reachable_fresh|vm_compute; reflexivity..].
  - vm_compute. reflexivity.
  - vm_compute. reflexivity.
Defined.

(** ** Four rotations *)

Lemma set_shape_twice s1 s2 piece :
  Tetromino.set_shape s1 (Tetromino.set_shape s2 piece) =
  Tetromino.set_shape s1 piece.
Proof. done. Qed.

Lemma rotate_piece_accepted g piece rotated :
  session_inv g → TetrisGame.current_piece g = Some piece →
  Tetromino.rotate_shape (Tetromino.shape piece) = Some rotated →
  TetrisGame.is_valid_position g (Tetromino.set_shape rotated piece)
    = Some true →
  TetrisGame.rotate_piece g =
    Some (TetrisGame.set_current_piece
            (Some (Tetromino.set_shape rotated piece)) g) ∧
  session_inv (TetrisGame.set_current_piece
                 (Some (Tetromino.set_shape rotated piece)) g).
Proof.
  intros Hinv Hcur Hrot Hvalid.
  pose proof Hinv as (Hwf & (piece' & Hcur' & Hpiece) & Hnext & Hpend).
  rewrite Hcur in Hcur'. injection Hcur' as <-.
  destruct (rotate_piece_spec g piece Hwf Hcur Hpiece)
    as (rotated' & valid & Hrot' & Hwf' & Hvalid' & Hres).
  rewrite Hrot in Hrot'. injection Hrot' as <-.
  rewrite Hvalid in Hvalid'. injection Hvalid' as <-.
  split; [done|]. split; [done|]. split; [by eexists|done].
Qed.

(** X11.  When the piece fits in each of its four orientations, four
    calls of [rotate_piece] bring the game back to the state it started
    from. *)
Theorem X11_four_rotations_restore_the_game g piece s1 s2 s3 :
  session_inv g → TetrisGame.current_piece g = Some piece →
  Tetromino.rotate_shape (Tetromino.shape piece) = Some s1 →
  Tetromino.rotate_shape s1 = Some s2 →
  Tetromino.rotate_shape s2 = Some s3 →
  TetrisGame.is_valid_position g (Tetromino.set_shape s1 piece) = Some true →
  TetrisGame.is_valid_position g (Tetromino.set_shape s2 piece) = Some true →
  TetrisGame.is_valid_position g (Tetromino.set_shape s3 piece) = Some true →
  TetrisGame.is_valid_position g piece = Some true →
  (g1 ← TetrisGame.rotate_piece g;
   g2 ← TetrisGame.rotate_piece g1;
   g3 ← TetrisGame.rotate_piece g2;
   TetrisGame.rotate_piece g3) = Some g.
Proof.
  intros Hinv Hcur Hs1 Hs2 Hs3 Hv1 Hv2 Hv3 Hv4.
  pose proof Hinv as (_ & (piece' & Hcur' & rows & cols & Hrows & Hcols &
                            Hrect & _) & _).
  rewrite Hcur in Hcur'. injection Hcur' as <-.
  pose proof (rotate_shape_four rows cols _ Hrows Hcols Hrect) as Hfour.
  rewrite Hs1 in Hfour. simpl in Hfour. rewrite Hs2 in Hfour. simpl in Hfour.
  rewrite Hs3 in Hfour. simpl in Hfour.
  destruct (rotate_piece_accepted g piece s1 Hinv Hcur Hs1 Hv1) as [-> Hinv1].
  simpl.
  set (g1 := TetrisGame.set_current_piece _ g) in *.
  destruct (rotate_piece_accepted g1 (Tetromino.set_shape s1 piece) s2
              Hinv1 eq_refl Hs2) as [-> Hinv2].
  { by rewrite set_shape_twice, (is_valid_position_grid g1 g). }
  simpl. rewrite set_shape_twice.
  set (g2 := TetrisGame.set_current_piece _ g1) in *.
  destruct (rotate_piece_accepted g2 (Tetromino.set_shape s2 piece) s3
              Hinv2 eq_refl Hs3) as [-> Hinv3].
  { by rewrite set_shape_twice, (is_valid_position_grid g2 g). }
  simpl. rewrite set_shape_twice.
  set (g3 := TetrisGame.set_current_piece _ g2) in *.
  destruct (rotate_piece_accepted g3 (Tetromino.set_shape s3 piece)
              (Tetromino.shape piece) Hinv3 eq_refl Hfour) as [-> _].
  { by rewrite set_shape_twice, set_shape_same, (is_valid_position_grid g3 g). }
  f_equal. rewrite set_shape_twice, set_shape_same.
  unfold g3, g2, g1. rewrite !set_current_piece_twice.
  by apply set_current_piece_same.
Qed.

Lemma X11_witness :
  (g1 ← TetrisGame.rotate_piece Example.clearing;
   g2 ← TetrisGame.rotate_piece g1;
   g3 ← TetrisGame.rotate_piece g2;
   TetrisGame.rotate_piece g3) = Some Example.clearing.
Proof.
  apply (X11_four_rotations_restore_the_game Example.clearing
           (Tetromino.init 4 0 T_)
           [[0; 1]; [1; 1]; [0; 1]]%Z
           [[0; 1; 0]; [1; 1; 1]]%Z
           [[1; 0]; [1; 1]; [1; 0]]%Z).
  - apply reachable_inv.
    apply reachable_after; [apply reachable_fresh|vm_compute; reflexivity..].
  - vm_compute. reflexivity.
  - vm_compute. reflexivity.
  - vm_compute. reflexivity.
  - vm_compute. reflexivity.
  - vm_compute. reflexivity.
  - vm_compute. reflexivity.
  - vm_compute. reflexivity.
  - vm_compute. reflexivity.
Defined.

(** ** Game over and pause *)

Lemma set_flags_same g :
  TetrisGame.set_paused (TetrisGame.paused g)
    (TetrisGame.set_random_blocks_enabled (TetrisGame.random_blocks_enabled g) g)
  = g.
Proof. by destruct g. Qed.

(** X12.  Once the game is over, no sequence of key presses and ticks
    without a restart changes anything but the pause flag and the
    random-block switch: grid, pieces, score, timers and the game-over flag
    stay as they are. *)
Theorem X12_game_over_freezes_the_game fuel trace : ∀ g,
  TetrisGame.game_over g = true →
  Forall (λ step, step.1 ≠ TetrisGame.KeyDown TetrisGame.K_r) trace →
  ∃ paused enabled,
    run_trace fuel trace g =
      TetrisGame.Returned
        (TetrisGame.set_paused paused
           (TetrisGame.set_random_blocks_enabled enabled g)).
Proof.
  induction trace as [|[i d] trace IH]; intros g Hover Hkeys.
  - exists (TetrisGame.paused g), (TetrisGame.random_blocks_enabled g).
    simpl. by rewrite set_flags_same.
  - apply Forall_cons in Hkeys as [Hkey Hkeys]. simpl in Hkey.
    assert (∀ g1 p e,
              g1 = TetrisGame.set_paused p
                     (TetrisGame.set_random_blocks_enabled e g) →
              TetrisGame.run_input fuel i d g = TetrisGame.Returned g1 →
              ∃ paused enabled,
                run_trace fuel ((i, d) :: trace) g =
                  TetrisGame.Returned
                    (TetrisGame.set_paused paused
                       (TetrisGame.set_random_blocks_enabled enabled g)))
      as Hstep.
    { intros g1 p e Hg1 Hrun. simpl. rewrite Hrun.
      destruct (IH g1) as (p' & e' & ->); [by subst g1|done|].
      exists p', e'. by subst g1. }
    destruct i as [key|dt].
    + destruct key; try done;
        try (apply (Hstep g (TetrisGame.paused g)
                      (TetrisGame.random_blocks_enabled g));
             [by rewrite set_flags_same|];
             unfold TetrisGame.run_input, TetrisGame.handle_key;
             by rewrite Hover).
      * apply (Hstep (TetrisGame.set_paused (negb (TetrisGame.paused g)) g)
                 (negb (TetrisGame.paused g))
                 (TetrisGame.random_blocks_enabled g)); [|done].
        by destruct g.
      * apply (Hstep (TetrisGame.set_random_blocks_enabled
                        (negb (TetrisGame.random_blocks_enabled g)) g)
                 (TetrisGame.paused g)
                 (negb (TetrisGame.random_blocks_enabled g))); [|done].
        by destruct g.
    + apply (Hstep g (TetrisGame.paused g)
               (TetrisGame.random_blocks_enabled g));
        [by rewrite set_flags_same|].
      unfold TetrisGame.run_input, TetrisGame.update. by rewrite Hover.
Qed.

Lemma X12_witness :
  ∃ paused enabled,
    run_trace 20
      [Example.wait 2000; Example.press TetrisGame.K_LEFT;
       Example.press TetrisGame.K_b; Example.press TetrisGame.K_SPACE;
       Example.wait 20000; Example.press TetrisGame.K_UP]
      Example.topped_out =
      TetrisGame.Returned
        (TetrisGame.set_paused paused
           (TetrisGame.set_random_blocks_enabled enabled Example.topped_out)).
Proof.
  apply (X12_game_over_freezes_the_game 20
           [Example.wait 2000; Example.press TetrisGame.K_LEFT;
            Example.press TetrisGame.K_b; Example.press TetrisGame.K_SPACE;
            Example.wait 20000; Example.press TetrisGame.K_UP]
           Example.topped_out).
  - vm_compute. reflexivity.
  - repeat constructor; discriminate.
Defined.

(** X13.  While the game is paused, ticks and the movement, rotation and
    drop keys change nothing: until P or R is pressed the state differs
    from the paused state in the random-block switch at most, no timer
    advances and no random block appears. *)
Theorem X13_pause_stops_the_game fuel trace : ∀ g,
  TetrisGame.paused g = true →
  Forall (λ step, step.1 ≠ TetrisGame.KeyDown TetrisGame.K_r ∧
                  step.1 ≠ TetrisGame.KeyDown TetrisGame.K_p) trace →
  ∃ enabled,
    run_trace fuel trace g =
      TetrisGame.Returned (TetrisGame.set_random_blocks_enabled enabled g).
Proof.
  induction trace as [|[i d] trace IH]; intros g Hpaused Hkeys.
  - exists (TetrisGame.random_blocks_enabled g). simpl. by destruct g.
  - apply Forall_cons in Hkeys as [[Hr Hp] Hkeys]. simpl in Hr, Hp.
    assert (∀ e,
              TetrisGame.run_input fuel i d g =
                TetrisGame.Returned
                  (TetrisGame.set_random_blocks_enabled e g) →
              ∃ enabled,
                run_trace fuel ((i, d) :: trace) g =
                  TetrisGame.Returned
                    (TetrisGame.set_random_blocks_enabled enabled g))
      as Hstep.
    { intros e Hrun. simpl. rewrite Hrun.
      destruct (IH (TetrisGame.set_random_blocks_enabled e g))
        as (e' & ->); [done|done|].
      by exists e'. }
    assert (TetrisGame.set_random_blocks_enabled
              (TetrisGame.random_blocks_enabled g) g = g) as Hsame
      by (by destruct g).
    destruct i as [key|dt].
    + destruct key; try done;
        try (apply (Hstep (TetrisGame.random_blocks_enabled g));
             rewrite Hsame;
             unfold TetrisGame.run_input, TetrisGame.handle_key;
             rewrite Hpaused, andb_false_r; done).
      by apply (Hstep (negb (TetrisGame.random_blocks_enabled g))).
    + apply (Hstep (TetrisGame.random_blocks_enabled g)). rewrite Hsame.
      unfold TetrisGame.run_input, TetrisGame.update.
      by rewrite Hpaused, orb_true_r.
Qed.

Lemma X13_witness :
  ∃ enabled,
    run_trace 20
      [Example.wait 5000; Example.press TetrisGame.K_b;
       Example.wait 40000; Example.press TetrisGame.K_SPACE]
      (after [Example.press TetrisGame.K_p] Example.resting) =
      TetrisGame.Returned
        (TetrisGame.set_random_blocks_enabled enabled
           (after [Example.press TetrisGame.K_p] Example.resting)).
Proof.
  apply (X13_pause_stops_the_game 20
           [Example.wait 5000; Example.press TetrisGame.K_b;
            Example.wait 40000; Example.press TetrisGame.K_SPACE]
           (after [Example.press TetrisGame.K_p] Example.resting)).
  - vm_compute. reflexivity.
  - repeat constructor; discriminate.
Defined.

(** ** Score and level *)

Lemma update_random_frame dt d g g' :
  TetrisGame.update_random dt d g = Some g' →
  TetrisGame.score g' = TetrisGame.score g ∧
  TetrisGame.lines_cleared g' = TetrisGame.lines_cleared g ∧
  TetrisGame.game_over g' = TetrisGame.game_over g ∧
  TetrisGame.paused g' = TetrisGame.paused g ∧
  TetrisGame.fall_time g' = TetrisGame.fall_time g ∧
  TetrisGame.lines_clearing g' = TetrisGame.lines_clearing g ∧
  TetrisGame.clear_animation_time g' = TetrisGame.clear_animation_time g.
Proof.
  unfold TetrisGame.update_random.
  destruct (TetrisGame.random_blocks_enabled g); [|by intros [= <-]].
  destruct (_ <=? _)%Z; [|by intros [= <-]].
  unfold TetrisGame.spawn_random_block.
  destruct (TetrisGame.valid_positions _) as [[|p ps]|]; simpl;
    [by intros [= <-]| |done].
  destruct (_ !! _) as [[x y]|]; simpl; [|done].
  destruct (Py.setitem2 _ _ _ _); simpl; [|done]. by intros [= <-].
Qed.

Lemma update_fall_frame dt d g g' :
  session_inv g → TetrisGame.update_fall dt d g = Some g' →
  TetrisGame.score g' = TetrisGame.score g ∧
  TetrisGame.lines_cleared g' = TetrisGame.lines_cleared g ∧
  TetrisGame.level g' = TetrisGame.level g ∧
  TetrisGame.paused g' = TetrisGame.paused g.
Proof.
  intros Hinv. unfold TetrisGame.update_fall.
  set (g1 := TetrisGame.set_fall_time (TetrisGame.fall_time g + dt) g).
  assert (session_inv g1) as Hinv1 by (by apply (session_inv_fields g)).
  destruct (_ <=? _)%Z; [|by intros [= <-]].
  destruct (TetrisGame.move_piece 0 1 (shape_draw d) g1)
    as [[moved g2]|] eqn:Hmove; [|done].
  simpl. intros [= <-].
  destruct (move_piece_effect 0 1 (shape_draw d) g1 moved g2 Hinv1 Hmove)
    as [(A1 & A2 & A3 & _ & A5 & _) _].
  simpl. by rewrite A1, A2, A3, A5.
Qed.

Lemma update_clear_stats dt g g' :
  TetrisGame.update_clear dt g = Some g' →
  ∃ n : nat,
    TetrisGame.lines_cleared g' = (TetrisGame.lines_cleared g + Z.of_nat n)%Z ∧
    TetrisGame.score g' =
      (TetrisGame.score g + Z.of_nat n * 100 * TetrisGame.level g)%Z.
Proof.
  rewrite update_clear_spec.
  set (g1 := TetrisGame.set_clear_animation_time _ g).
  destruct (decide _) as [[Hne Hle]|Hno].
  - intros Hfin.
    pose proof (finish_line_clear_scoring g1 g' Hne Hfin) as Hscore.
    cbv zeta in Hscore. destruct Hscore as (Hs & Hl & _).
    exists (length (TetrisGame.lines_clearing g1)). done.
  - intros Hsame. exists 0.
    destruct (TetrisGame.lines_clearing g); injection Hsame as <-; simpl; lia.
Qed.

Lemma handle_key_stats fuel key d g g' :
  session_inv g → key ≠ TetrisGame.K_r →
  TetrisGame.handle_key fuel key d g = TetrisGame.Returned g' →
  TetrisGame.score g' = TetrisGame.score g ∧
  TetrisGame.lines_cleared g' = TetrisGame.lines_cleared g.
Proof.
  intros Hinv Hkey.
  assert (∀ dx dy,
            TetrisGame.of_option
              (snd <$> TetrisGame.move_piece dx dy (shape_draw d) g)
            = TetrisGame.Returned g' →
            TetrisGame.score g' = TetrisGame.score g ∧
            TetrisGame.lines_cleared g' = TetrisGame.lines_cleared g) as Hmove.
  { intros dx dy.
    destruct (TetrisGame.move_piece dx dy (shape_draw d) g)
      as [[moved g1]|] eqn:Hm; [|done].
    simpl. intros H. apply Returned_inj in H. subst g1.
    by destruct (move_piece_effect _ _ _ _ _ _ Hinv Hm) as [(? & ? & _) _]. }
  unfold TetrisGame.handle_key. destruct key; [done|..].
  - intros H. apply Returned_inj in H. by subst g'.
  - intros H. apply Returned_inj in H. by subst g'.
  - destruct (negb _ && negb _); [by apply Hmove|].
    intros H. apply Returned_inj in H. by subst g'.
  - destruct (negb _ && negb _); [by apply Hmove|].
    intros H. apply Returned_inj in H. by subst g'.
  - destruct (negb _ && negb _); [by apply Hmove|].
    intros H. apply Returned_inj in H. by subst g'.
  - destruct (negb _ && negb _);
      [|intros H; apply Returned_inj in H; by subst g'].
    destruct (TetrisGame.rotate_piece g) as [g1|] eqn:Hrot; [|done].
    simpl. intros H. apply Returned_inj in H. subst g1.
    by destruct (rotate_piece_effect g g' Hinv Hrot) as [(? & ? & _) _].
  - destruct (negb _ && negb _);
      [|intros H; apply Returned_inj in H; by subst g'].
    intros Hdrop.
    by destruct (hard_drop_effect _ _ _ _ Hinv Hdrop) as [(? & ? & _) _].
Qed.

(** X14.  No input but a restart lowers the score.  A key press leaves
    score and line count as they are, soft and hard drops included; an
    [update] that removes [n] rows adds [n] to the line count and
    [n * 100 * level] to the score, with the level before the update.  The
    level never falls and the fall interval never grows. *)
Theorem X14_score_grows_by_removed_rows fuel i d g g' :
  reachable g → valid_input i →
  i ≠ TetrisGame.KeyDown TetrisGame.K_r →
  TetrisGame.run_input fuel i d g = TetrisGame.Returned g' →
  ∃ n : nat,
    TetrisGame.lines_cleared g' = (TetrisGame.lines_cleared g + Z.of_nat n)%Z ∧
    TetrisGame.score g' =
      (TetrisGame.score g + Z.of_nat n * 100 * TetrisGame.level g)%Z ∧
    (TetrisGame.level g ≤ TetrisGame.level g')%Z ∧
    (TetrisGame.fall_speed g' ≤ TetrisGame.fall_speed g)%Z ∧
    (∀ key, i = TetrisGame.KeyDown key → n = 0).
Proof.
  intros Hreach Hvalid Hkey Hrun.
  pose proof (reachable_inv g Hreach) as Hinv.
  pose proof (reachable_book g Hreach) as ((_ & _ & Hlevel & Hspeed) & _).
  pose proof (reachable_book g' (reachable_step fuel i d g g' Hreach Hvalid Hrun))
    as ((_ & _ & Hlevel' & Hspeed') & _).
  assert (∃ n : nat,
    TetrisGame.lines_cleared g' = (TetrisGame.lines_cleared g + Z.of_nat n)%Z ∧
    TetrisGame.score g' =
      (TetrisGame.score g + Z.of_nat n * 100 * TetrisGame.level g)%Z ∧
    (∀ key, i = TetrisGame.KeyDown key → n = 0)) as (n & Hl & Hs & Hn).
  { destruct i as [key|dt]; unfold TetrisGame.run_input in Hrun.
    - destruct (handle_key_stats fuel key d g g' Hinv) as [Hs Hl];
        [congruence|done|].
      exists 0. rewrite Hs, Hl. split; [lia|]. split; [lia|done].
    - destruct (TetrisGame.update dt d g) as [g3|] eqn:Hup; [|done].
      apply Returned_inj in Hrun. subst g3.
      unfold TetrisGame.update in Hup.
      destruct (_ || _).
      { injection Hup as <-. exists 0. split; [lia|]. split; [lia|done]. }
      destruct (TetrisGame.update_fall dt d g) as [g1|] eqn:Hfall; [|done].
      simpl in Hup.
      destruct (TetrisGame.update_clear dt g1) as [g2|] eqn:Hclear; [|done].
      simpl in Hup.
      destruct (update_fall_frame dt d g g1 Hinv Hfall) as (F1 & F2 & F3 & _).
      destruct (update_clear_stats dt g1 g2 Hclear) as (n & C1 & C2).
      destruct (update_random_frame dt d g2 g' Hup) as (R1 & R2 & _).
      exists n. rewrite R1, R2, C1, C2, F1, F2, F3. done. }
  exists n. split; [done|]. split; [done|].
  assert (TetrisGame.level g ≤ TetrisGame.level g')%Z as Hmono.
  { rewrite Hlevel, Hlevel', Hl.
    pose proof (Z.div_le_mono (TetrisGame.lines_cleared g)
                  (TetrisGame.lines_cleared g + Z.of_nat n) 10).
    lia. }
  split; [done|]. split; [lia|done].
Qed.

Lemma X14_witness :
  ∃ n : nat,
    TetrisGame.lines_cleared (after [Example.wait 1000] Example.two_pending) =
      (TetrisGame.lines_cleared Example.two_pending + Z.of_nat n)%Z ∧
    TetrisGame.score (after [Example.wait 1000] Example.two_pending) =
      (TetrisGame.score Example.two_pending +
       Z.of_nat n * 100 * TetrisGame.level Example.two_pending)%Z ∧
    (TetrisGame.level Example.two_pending ≤
     TetrisGame.level (after [Example.wait 1000] Example.two_pending))%Z ∧
    (TetrisGame.fall_speed (after [Example.wait 1000] Example.two_pending) ≤
     TetrisGame.fall_speed Example.two_pending)%Z ∧
    (∀ key, TetrisGame.Tick 1000 = TetrisGame.KeyDown key → n = 0).
Proof.
  apply (X14_score_grows_by_removed_rows 20 (TetrisGame.Tick 1000)
           (Example.draw I_) Example.two_pending
           (after [Example.wait 1000] Example.two_pending)).
  - apply reachable_after; [apply reachable_fresh|vm_compute; reflexivity..].
  - simpl. lia.
  - discriminate.
  - vm_compute. reflexivity.
Defined.

(** ** The falling piece stays in the playfield *)

Lemma valid_inside g piece :
  wf_grid (TetrisGame.grid g) → wf_piece piece →
  TetrisGame.is_valid_position g piece = Some true →
  ∀ x y, occupied piece x y → (0 ≤ x < GRID_WIDTH)%Z ∧ (y < GRID_HEIGHT)%Z.
Proof.
  intros Hwf Hpiece Hvalid x y Hocc.
  destruct (wf_piece_valid g piece Hwf Hpiece) as (valid & Hv & Hiff).
  rewrite Hvalid in Hv. injection Hv as <-.
  destruct (decide (0 ≤ x < GRID_WIDTH ∧ y < GRID_HEIGHT)%Z) as [[? ?]|Hout];
    [done|].
  exfalso. assert (true = false) as Habsurd; [|done].
  apply Hiff. exists x, y. split; [done|]. unfold blocked. lia.
Qed.

Lemma spawn_inside shape_idx x y :
  occupied (Tetromino.init (GRID_WIDTH / 2 - 1) 0 shape_idx) x y →
  (0 ≤ x < GRID_WIDTH)%Z ∧ (y < GRID_HEIGHT)%Z.
Proof.
  intros (r & c & v & Hv & _ & -> & ->).
  destruct shape_idx;
    destruct r as [|[|r]]; try discriminate Hv;
    destruct c as [|[|[|[|c]]]]; try discriminate Hv;
    vm_compute; done.
Qed.

Lemma placed_inside g g' :
  pieces_ok g → piece_placed g g' → piece_inside g'.
Proof.
  intros [_ (k & Hnext)] (Hcur & _). rewrite Hnext in Hcur.
  eexists. split; [exact Hcur|]. apply spawn_inside.
Qed.

Lemma move_piece_inside dx dy shape_idx g moved g' :
  session_inv g → pieces_ok g → piece_inside g →
  TetrisGame.move_piece dx dy shape_idx g = Some (moved, g') →
  piece_inside g'.
Proof.
  intros Hinv Hok Hin Hmove.
  pose proof Hinv as (Hwf & (piece & Hcur & Hpiece) & _).
  destruct (move_piece_spec dx dy shape_idx g piece Hwf Hcur Hpiece)
    as (valid & Hvalid & Hres).
  rewrite Hmove in Hres. destruct valid.
  - injection Hres as _ ->. eexists. split; [done|].
    apply (valid_inside g); [done|by apply set_xy_wf_piece|done].
  - destruct (0 <? dy)%Z.
    + destruct (TetrisGame.place_piece shape_idx g) as [g1|] eqn:Hplace; [|done].
      injection Hres as _ ->.
      destruct (place_piece_effect shape_idx g g1 Hinv Hplace) as [_ Hplaced].
      by eapply placed_inside.
    + by injection Hres as _ ->.
Qed.

Lemma rotate_piece_inside g g' :
  session_inv g → piece_inside g →
  TetrisGame.rotate_piece g = Some g' → piece_inside g'.
Proof.
  intros Hinv Hin Hrot.
  pose proof Hinv as (Hwf & (piece & Hcur & Hpiece) & _).
  destruct (rotate_piece_spec g piece Hwf Hcur Hpiece)
    as (rotated & valid & _ & Hwf' & Hvalid & Hres).
  rewrite Hrot in Hres. injection Hres as ->. destruct valid; [|done].
  eexists. split; [done|]. by apply (valid_inside g).
Qed.

Lemma handle_key_inside fuel key d g g' :
  session_inv g → pieces_ok g → piece_inside g →
  TetrisGame.handle_key fuel key d g = TetrisGame.Returned g' →
  piece_inside g'.
Proof.
  intros Hinv Hok Hin.
  assert (∀ dx dy,
            TetrisGame.of_option
              (snd <$> TetrisGame.move_piece dx dy (shape_draw d) g)
            = TetrisGame.Returned g' → piece_inside g') as Hmove.
  { intros dx dy.
    destruct (TetrisGame.move_piece dx dy (shape_draw d) g)
      as [[moved g1]|] eqn:Hm; [|done].
    simpl. intros H. apply Returned_inj in H. subst g1.
    by eapply move_piece_inside. }
  unfold TetrisGame.handle_key. destruct key.
  - rewrite init_fresh. simpl. intros H. apply Returned_inj in H. subst g'.
    eexists. split; [done|]. apply spawn_inside.
  - intros H. apply Returned_inj in H. by subst g'.
  - intros H. apply Returned_inj in H. by subst g'.
  - destruct (negb _ && negb _); [by apply Hmove|].
    intros H. apply Returned_inj in H. by subst g'.
  - destruct (negb _ && negb _); [by apply Hmove|].
    intros H. apply Returned_inj in H. by subst g'.
  - destruct (negb _ && negb _); [by apply Hmove|].
    intros H. apply Returned_inj in H. by subst g'.
  - destruct (negb _ && negb _);
      [|intros H; apply Returned_inj in H; by subst g'].
    destruct (TetrisGame.rotate_piece g) as [g1|] eqn:Hrot; [|done].
    simpl. intros H. apply Returned_inj in H. subst g1.
    by eapply rotate_piece_inside.
  - destruct (negb _ && negb _);
      [|intros H; apply Returned_inj in H; by subst g'].
    intros Hdrop.
    destruct (hard_drop_effect _ _ _ _ Hinv Hdrop) as [_ Hplaced].
    by eapply placed_inside.
Qed.

Lemma update_inside dt d g g' :
  session_inv g → pieces_ok g → piece_inside g →
  TetrisGame.update dt d g = Some g' → piece_inside g'.
Proof.
  intros Hinv Hok Hin. unfold TetrisGame.update.
  destruct (_ || _); [by intros [= <-]|].
  destruct (TetrisGame.update_fall dt d g) as [g1|] eqn:Hfall; [|done].
  simpl.
  destruct (TetrisGame.update_clear dt g1) as [g2|] eqn:Hclear; [|done].
  simpl. intros Hrandom.
  destruct (update_clear_pieces dt g1 g2 Hclear) as [Hc2 _].
  destruct (update_random_pieces dt d g2 g' Hrandom) as [Hc3 _].
  assert (piece_inside g1) as (piece & Hcur & Hcells).
  { unfold TetrisGame.update_fall in Hfall.
    set (g0 := TetrisGame.set_fall_time (TetrisGame.fall_time g + dt) g) in *.
    destruct (_ <=? _)%Z; [|by injection Hfall as <-].
    destruct (TetrisGame.move_piece 0 1 (shape_draw d) g0)
      as [[moved g3]|] eqn:Hmove; [|done].
    injection Hfall as <-.
    assert (piece_inside g3) as Hin3; [|done].
    by apply (move_piece_inside 0 1 (shape_draw d) g0 moved g3). }
  exists piece. split; [|done]. by rewrite Hc3, Hc2.
Qed.

Lemma reachable_inside g : reachable g → piece_inside g.
Proof.
  induction 1 as [d g Hinit|fuel i d g g' Hreach IH Hvalid Hrun].
  - rewrite init_fresh in Hinit. injection Hinit as <-.
    eexists. split; [done|]. apply spawn_inside.
  - pose proof (reachable_inv g Hreach) as Hinv.
    pose proof (reachable_book g Hreach) as (_ & _ & Hok).
    destruct i as [key|dt]; unfold TetrisGame.run_input in Hrun.
    + by eapply handle_key_inside.
    + destruct (TetrisGame.update dt d g) as [g1|] eqn:Hup; [|done].
      apply Returned_inj in Hrun. subst g1. by eapply update_inside.
Qed.

(** X15.  In every reachable state all cells of the current piece are
    cells of the playfield: moves, rotations, gravity, compaction and random
    blocks never leave a part of the piece beyond a wall, below the floor or
    above row 0. *)
Theorem X15_piece_stays_in_the_playfield g :
  reachable g →
  ∃ piece, TetrisGame.current_piece g = Some piece ∧
           ∀ x y, occupied piece x y → in_field x y.
Proof.
  intros Hreach.
  destruct (reachable_inside g Hreach) as (piece & Hcur & Hcells).
  pose proof (reachable_book g Hreach)
    as (_ & _ & (piece' & Hcur' & _ & _ & _ & _ & _ & Hy) & _).
  rewrite Hcur in Hcur'. injection Hcur' as <-.
  exists piece. split; [done|]. intros x y Hocc.
  destruct (Hcells x y Hocc) as [Hx Hbelow].
  destruct Hocc as (r & c & v & _ & _ & _ & ->).
  unfold in_field. lia.
Qed.

Lemma X15_witness :
  ∃ piece, TetrisGame.current_piece Example.at_right_wall = Some piece ∧
           ∀ x y, occupied piece x y → in_field x y.
Proof.
  apply (X15_piece_stays_in_the_playfield Example.at_right_wall).
  apply reachable_after; [apply reachable_fresh|vm_compute; reflexivity..].
Defined.

(** ** What a placement writes and records *)

(** X16.  [place_piece] writes the colour of the piece into every cell of
    the playfield that the piece occupies and leaves every other cell as it
    was; compaction is not part of the placement. *)
Theorem X16_placement_writes_the_cells_of_the_piece shape_idx g piece g' :
  session_inv g → TetrisGame.current_piece g = Some piece →
  TetrisGame.place_piece shape_idx g = Some g' →
  ∀ r c, r < Z.to_nat GRID_HEIGHT → c < Z.to_nat GRID_WIDTH →
    (occupied piece (Z.of_nat c) (Z.of_nat r) →
     Py.getitem2 (TetrisGame.grid g') r c = Some (Some (Tetromino.color piece))) ∧
    (¬ occupied piece (Z.of_nat c) (Z.of_nat r) →
     Py.getitem2 (TetrisGame.grid g') r c = Py.getitem2 (TetrisGame.grid g) r c).
Proof.
  intros Hinv Hcur Hplace r c Hr Hc.
  destruct (place_piece_spec shape_idx g Hinv)
    as (piece' & positions & grid' & g1 & g2 & Hcur' & Hpos & Hcommit & _ & _ &
        Hplace' & _ & Hgrid & _).
  rewrite Hcur in Hcur'. injection Hcur' as <-.
  rewrite Hplace in Hplace'. injection Hplace' as <-.
  pose proof Hinv as (Hwf & (piece' & Hcur' & rows & cols & _ & _ & Hrect & _) & _).
  rewrite Hcur in Hcur'. injection Hcur' as <-.
  destruct (get_positions_spec rows cols piece Hrect) as (positions' & Hpos' & Hiff).
  rewrite Hpos in Hpos'. injection Hpos' as <-.
  destruct (commit_spec (Tetromino.color piece) positions _ Hwf)
    as (grid'' & Hcommit' & _ & Hin & Hout).
  rewrite Hcommit in Hcommit'. injection Hcommit' as <-.
  rewrite Hgrid. split.
  - intros Hocc. apply Hin; [by apply Hiff|].
    unfold in_field, GRID_WIDTH, GRID_HEIGHT in *. lia.
  - intros Hfree. apply Hout. by rewrite Hiff.
Qed.

Lemma X16_witness :
  (occupied (Tetromino.init 4 17 T_) (Z.of_nat 5) (Z.of_nat 18) →
   Py.getitem2 (TetrisGame.grid (after [Example.press TetrisGame.K_DOWN]
                                   Example.resting)) 18 5
   = Some (Some (Tetromino.color (Tetromino.init 4 17 T_)))) ∧
  (¬ occupied (Tetromino.init 4 17 T_) (Z.of_nat 5) (Z.of_nat 18) →
   Py.getitem2 (TetrisGame.grid (after [Example.press TetrisGame.K_DOWN]
                                   Example.resting)) 18 5
   = Py.getitem2 (TetrisGame.grid Example.resting) 18 5).
Proof.
  apply (X16_placement_writes_the_cells_of_the_piece I_ Example.resting
           (Tetromino.init 4 17 T_)
           (after [Example.press TetrisGame.K_DOWN] Example.resting)).
  - apply reachable_inv.
    apply reachable_after; [|vm_compute; reflexivity..].
    apply reachable_after; [apply reachable_fresh|vm_compute; reflexivity..].
  - vm_compute. reflexivity.
  - vm_compute. reflexivity.
  - vm_compute. lia.
  - vm_compute. lia.
Defined.

Lemma finish_line_clear_lines g g' :
  TetrisGame.finish_line_clear g = Some g' → TetrisGame.lines_clearing g' = [].
Proof.
  unfold TetrisGame.finish_line_clear.
  destruct (TetrisGame.lines_clearing g) eqn:Hlines; [by intros [= <-]|].
  destruct (Py.for_each _ _ _); [|done]. simpl. by intros [= <-].
Qed.

Lemma StronglySorted_snoc (l : list nat) n :
  StronglySorted lt l → Forall (λ y, y < n) l → StronglySorted lt (l ++ [n]).
Proof.
  induction 1 as [|a l Hsorted IH Hall]; intros Hlt; simpl.
  - by repeat constructor.
  - apply Forall_cons in Hlt as [Ha Hlt]. constructor; [by apply IH|].
    apply Forall_app. split; [done|]. by constructor.
Qed.

(** The scan of [clear_lines] collects the rows from the top down. *)
Lemma full_rows_scan_sorted (grid : Grid) n : ∀ lines,
  Py.for_each (seq 0 n) (λ y lines_to_clear,
    row ← grid !! y;
    if forallb truthy row
    then Some (lines_to_clear ++ [y])
    else Some lines_to_clear) [] = Some lines →
  StronglySorted lt lines ∧ Forall (λ y, y < n) lines.
Proof.
  induction n as [|n IH]; intros lines.
  - simpl. intros [= <-]. split; constructor.
  - rewrite seq_S, for_each_app. simpl.
    destruct (Py.for_each (seq 0 n) _ []) as [lines0|]; [|done].
    destruct (IH lines0 eq_refl) as [Hsorted Hlt]. simpl.
    destruct (grid !! n) as [row|]; [|done]. simpl.
    destruct (forallb truthy row); intros [= <-].
    + split; [by apply StronglySorted_snoc|].
      apply Forall_app. split.
      * eapply Forall_impl; [exact Hlt|]. simpl. lia.
      * repeat constructor.
    + split; [done|]. eapply Forall_impl; [exact Hlt|]. simpl. lia.
Qed.

(** X17.  After [place_piece] the pending rows are the full rows of the
    grid: every full row is listed and only full rows are, each once, in
    increasing order of their index. *)
Theorem X17_placement_records_the_full_rows shape_idx g g' :
  session_inv g → TetrisGame.place_piece shape_idx g = Some g' →
  StronglySorted lt (TetrisGame.lines_clearing g') ∧
  ∀ y, y ∈ TetrisGame.lines_clearing g' ↔
       y < Z.to_nat GRID_HEIGHT ∧ full_row (TetrisGame.grid g') y.
Proof.
  intros Hinv Hplace.
  destruct (place_piece_spec shape_idx g Hinv)
    as (piece & positions & grid' & g1 & g2 & _ & _ & _ & Hclear & Hspawn &
        Hplace' & _ & Hgrid & _ & _ & Hlines & _).
  rewrite Hplace in Hplace'. injection Hplace' as <-.
  split; [|by rewrite Hgrid].
  pose proof Hinv as (_ & _ & (next & Hnext & _) & _).
  unfold TetrisGame.clear_lines in Hclear.
  destruct (TetrisGame.full_rows _) as [lines|] eqn:Hscan; [|done].
  simpl in Hclear.
  destruct (full_rows_scan_sorted _ _ _ Hscan) as [Hsorted _].
  assert (TetrisGame.lines_clearing g1 = lines ∧
          TetrisGame.next_piece g1 = Some next) as [Hl1 Hn1].
  { destruct lines as [|y lines].
    - split; [by eapply finish_line_clear_lines|].
      destruct (finish_line_clear_pieces _ _ Hclear) as [_ ->]. done.
    - by injection Hclear as <-. }
  destruct (spawn_new_piece_effect shape_idx g1 g' next Hn1 Hspawn)
    as (_ & _ & -> & _).
  by rewrite Hl1.
Qed.

Lemma X17_witness :
  ∃ g', TetrisGame.place_piece I_ Example.clearing = Some g' ∧
        StronglySorted lt (TetrisGame.lines_clearing g') ∧
        ∀ y, y ∈ TetrisGame.lines_clearing g' ↔
             y < Z.to_nat GRID_HEIGHT ∧ full_row (TetrisGame.grid g') y.
Proof.
  assert (∃ g', TetrisGame.place_piece I_ Example.clearing = Some g')
    as [g' Hplace] by (eexists; vm_compute; reflexivity).
  exists g'. split; [exact Hplace|].
  apply (X17_placement_records_the_full_rows I_ Example.clearing g');
    [|exact Hplace].
  apply reachable_inv.
  apply reachable_after; [apply reachable_fresh|vm_compute; reflexivity..].
Defined.

(** ** How a game ends *)

Lemma spawn_cell_in_field shape_idx x y :
  occupied (Tetromino.init (GRID_WIDTH / 2 - 1) 0 shape_idx) x y →
  in_field x y.
Proof.
  intros Hocc. destruct (spawn_inside shape_idx x y Hocc) as [Hx Hy].
  destruct Hocc as (r & c & v & _ & _ & _ & ->).
  unfold in_field. simpl in *. lia.
Qed.

(** X18.  A placement ends the game exactly when the promoted piece, at
    the spawn position, overlaps a block of the grid as the placement
    leaves it. *)
Theorem X18_placement_ends_the_game_iff_spawn_is_blocked
    shape_idx next_idx g g' :
  session_inv g → TetrisGame.game_over g = false →
  TetrisGame.next_piece g =
    Some (Tetromino.init (GRID_WIDTH / 2 - 1) 0 next_idx) →
  TetrisGame.place_piece shape_idx g = Some g' →
  TetrisGame.current_piece g' =
    Some (Tetromino.init (GRID_WIDTH / 2 - 1) 0 next_idx) ∧
  (TetrisGame.game_over g' = true ↔
   ∃ x y, occupied (Tetromino.init (GRID_WIDTH / 2 - 1) 0 next_idx) x y ∧
          filled (TetrisGame.grid g') x y).
Proof.
  intros Hinv Hover Hnext Hplace.
  destruct (place_piece_effect shape_idx g g' Hinv Hplace)
    as [_ (Hcur & _ & promoted & valid & Hcur' & Hvalid & Hover')].
  rewrite Hnext in Hcur. rewrite Hcur in Hcur'. injection Hcur' as <-.
  split; [done|].
  destruct (place_piece_inv shape_idx g Hinv) as (g2 & Hplace2 & Hinv' & _).
  rewrite Hplace in Hplace2. injection Hplace2 as <-.
  destruct (wf_piece_valid g' (Tetromino.init (GRID_WIDTH / 2 - 1) 0 next_idx))
    as (valid' & Hvalid' & Hiff); [apply Hinv'|apply init_wf_piece|].
  rewrite Hvalid in Hvalid'. injection Hvalid' as <-.
  rewrite Hover', Hover. split.
  - intros Hend. destruct valid; [done|].
    destruct (proj1 Hiff eq_refl) as (x & y & Hocc & Hblocked).
    exists x, y. split; [done|].
    destruct (spawn_cell_in_field next_idx x y Hocc) as [Hx Hy].
    destruct Hblocked as [?|[?|[?|[_ ?]]]]; [lia..|done].
  - intros (x & y & Hocc & Hfilled). destruct valid; [|done].
    assert (true = false) as Habsurd; [|done].
    apply Hiff. exists x, y. split; [done|].
    right; right; right. split; [apply Hfilled|done].
Qed.

Lemma X18_witness :
  ∃ g',
    TetrisGame.place_piece O_
      (after (replicate 9 (Example.land TetrisGame.K_SPACE O_))
             (fresh (Example.draw O_))) = Some g' ∧
    TetrisGame.current_piece g' =
      Some (Tetromino.init (GRID_WIDTH / 2 - 1) 0 O_) ∧
    (TetrisGame.game_over g' = true ↔
     ∃ x y, occupied (Tetromino.init (GRID_WIDTH / 2 - 1) 0 O_) x y ∧
            filled (TetrisGame.grid g') x y).
Proof.
  assert (∃ g', TetrisGame.place_piece O_
                  (after (replicate 9 (Example.land TetrisGame.K_SPACE O_))
                         (fresh (Example.draw O_))) = Some g')
    as [g' Hplace] by (eexists; vm_compute; reflexivity).
  exists g'. split; [exact Hplace|].
  apply (X18_placement_ends_the_game_iff_spawn_is_blocked O_ O_
           (after (replicate 9 (Example.land TetrisGame.K_SPACE O_))
                  (fresh (Example.draw O_))) g').
  - apply reachable_inv.
    apply reachable_after; [apply reachable_fresh|vm_compute; reflexivity..].
  - vm_compute. reflexivity.
  - vm_compute. reflexivity.
  - exact Hplace.
Defined.

Lemma update_clear_game_over dt g g' :
  TetrisGame.update_clear dt g = Some g' →
  TetrisGame.game_over g' = TetrisGame.game_over g.
Proof.
  unfold TetrisGame.update_clear.
  destruct (TetrisGame.lines_clearing g); [by intros [= <-]|].
  destruct (_ <=? _)%Z; [|by intros [= <-]].
  intros H. by destruct (finish_line_clear_frame _ _ H) as [-> _].
Qed.

(** X19.  The game never ends while a piece merely moves, turns or waits:
    an input after which the game is over has promoted the next piece, and
    after a key press the promoted piece overlaps a block of the grid. *)
Theorem X19_game_ends_only_when_a_piece_is_promoted fuel i d g g' :
  reachable g → TetrisGame.game_over g = false →
  TetrisGame.run_input fuel i d g = TetrisGame.Returned g' →
  TetrisGame.game_over g' = true →
  ∃ promoted,
    TetrisGame.next_piece g = Some promoted ∧
    TetrisGame.current_piece g' = Some promoted ∧
    (∀ key, i = TetrisGame.KeyDown key →
            ∃ x y, occupied promoted x y ∧ filled (TetrisGame.grid g') x y).
Proof.
  intros Hreach Hover Hrun Hend.
  pose proof (reachable_inv g Hreach) as Hinv.
  pose proof (reachable_book g Hreach) as (_ & _ & _ & (k & Hnext)).
  assert (∀ g0 g1, session_inv g0 →
            TetrisGame.next_piece g0 = TetrisGame.next_piece g →
            TetrisGame.game_over g0 = false →
            TetrisGame.game_over g1 = true →
            piece_placed g0 g1 →
            TetrisGame.current_piece g1 =
              Some (Tetromino.init (GRID_WIDTH / 2 - 1) 0 k) ∧
            TetrisGame.is_valid_position g1
              (Tetromino.init (GRID_WIDTH / 2 - 1) 0 k) = Some false)
    as Hplaced.
  { intros g0 g1 Hinv0 Hn0 Ho0 Ho1
           (Hcur & _ & promoted & valid & Hcur' & Hvalid & Hover').
    rewrite Hn0, Hnext in Hcur. rewrite Hcur in Hcur'. injection Hcur' as <-.
    split; [done|]. rewrite Ho0, Ho1 in Hover'. by destruct valid. }
  assert (∀ g1, wf_grid (TetrisGame.grid g1) →
            TetrisGame.is_valid_position g1
              (Tetromino.init (GRID_WIDTH / 2 - 1) 0 k) = Some false →
            ∃ x y, occupied (Tetromino.init (GRID_WIDTH / 2 - 1) 0 k) x y ∧
                   filled (TetrisGame.grid g1) x y) as Hoverlap.
  { intros g1 Hwf1 Hvalid.
    destruct (wf_piece_valid g1 (Tetromino.init (GRID_WIDTH / 2 - 1) 0 k))
      as (valid & Hvalid' & Hiff); [done|apply init_wf_piece|].
    rewrite Hvalid in Hvalid'. injection Hvalid' as <-.
    destruct (proj1 Hiff eq_refl) as (x & y & Hocc & Hblocked).
    exists x, y. split; [done|].
    destruct (spawn_cell_in_field k x y Hocc) as [Hx Hy].
    destruct Hblocked as [?|[?|[?|[_ ?]]]]; [lia..|done]. }
  exists (Tetromino.init (GRID_WIDTH / 2 - 1) 0 k). split; [done|].
  destruct i as [key|dt]; unfold TetrisGame.run_input in Hrun.
  - assert (piece_placed g g' ∧ session_inv g') as [Hp Hinv'].
    { assert (∀ dx dy,
                TetrisGame.of_option
                  (snd <$> TetrisGame.move_piece dx dy (shape_draw d) g)
                = TetrisGame.Returned g' →
                piece_placed g g' ∧ session_inv g') as Hmove.
      { intros dx dy.
        destruct (move_piece_inv dx dy (shape_draw d) g Hinv)
          as (moved & g1 & Hm & Hinv1 & _).
        rewrite Hm. simpl. intros H. apply Returned_inj in H. subst g1.
        split; [|done].
        destruct (move_piece_effect _ _ _ _ _ _ Hinv Hm)
          as [_ [->|[(_ & _ & Ho & _)|Hp]]]; [congruence|congruence|done]. }
      unfold TetrisGame.handle_key in Hrun. destruct key.
      - rewrite init_fresh in Hrun. simpl in Hrun.
        apply Returned_inj in Hrun. by subst g'.
      - apply Returned_inj in Hrun. subst g'. simpl in Hend. congruence.
      - apply Returned_inj in Hrun. subst g'. simpl in Hend. congruence.
      - destruct (negb _ && negb _); [by eapply Hmove|].
        apply Returned_inj in Hrun. subst g'. congruence.
      - destruct (negb _ && negb _); [by eapply Hmove|].
        apply Returned_inj in Hrun. subst g'. congruence.
      - destruct (negb _ && negb _); [by eapply Hmove|].
        apply Returned_inj in Hrun. subst g'. congruence.
      - destruct (negb _ && negb _);
          [|apply Returned_inj in Hrun; subst g'; congruence].
        destruct (TetrisGame.rotate_piece g) as [g1|] eqn:Hrot; [|done].
        simpl in Hrun. apply Returned_inj in Hrun. subst g1.
        destruct (rotate_piece_effect g g' Hinv Hrot)
          as [_ [->|(_ & _ & Ho & _)]]; congruence.
      - destruct (negb _ && negb _);
          [|apply Returned_inj in Hrun; subst g'; congruence].
        destruct (hard_drop_effect _ _ _ _ Hinv Hrun) as [_ Hp].
        destruct (hard_drop_inv _ _ _ _ Hinv Hrun) as [Hinv' _]. done. }
    destruct (Hplaced g g' Hinv eq_refl Hover Hend Hp) as [Hcur Hvalid].
    split; [done|]. intros _ _. apply Hoverlap; [apply Hinv'|done].
  - split; [|intros key; discriminate].
    destruct (TetrisGame.update dt d g) as [g3|] eqn:Hup; [|done].
    apply Returned_inj in Hrun. subst g3.
    unfold TetrisGame.update in Hup. rewrite Hover in Hup.
    destruct (TetrisGame.paused g); simpl in Hup;
      [injection Hup as <-; congruence|].
    destruct (TetrisGame.update_fall dt d g) as [g1|] eqn:Hfall; [|done].
    simpl in Hup.
    destruct (TetrisGame.update_clear dt g1) as [g2|] eqn:Hclear; [|done].
    simpl in Hup.
    destruct (update_clear_pieces dt g1 g2 Hclear) as [Hc2 _].
    pose proof (update_clear_game_over dt g1 g2 Hclear) as Ho2.
    destruct (update_random_pieces dt d g2 g' Hup) as [Hc3 _].
    destruct (update_random_frame dt d g2 g' Hup) as (_ & _ & Ho3 & _).
    rewrite Hc3, Hc2.
    assert (TetrisGame.game_over g1 = true) as Hend1 by congruence.
    unfold TetrisGame.update_fall in Hfall.
    set (g0 := TetrisGame.set_fall_time (TetrisGame.fall_time g + dt) g) in *.
    assert (session_inv g0) as Hinv0 by (by apply (session_inv_fields g)).
    destruct (_ <=? _)%Z; [|injection Hfall as <-; simpl in Hend1; congruence].
    destruct (TetrisGame.move_piece 0 1 (shape_draw d) g0)
      as [[moved g4]|] eqn:Hmove; [|done].
    injection Hfall as <-. simpl in Hend1. simpl.
    destruct (move_piece_effect _ _ _ _ _ _ Hinv0 Hmove)
      as [_ [->|[(_ & _ & Ho & _)|Hp]]];
      [simpl in Hend1; congruence|simpl in Ho; congruence|].
    by destruct (Hplaced g0 g4 Hinv0 eq_refl Hover Hend1 Hp) as [Hcur _].
Qed.

Lemma X19_witness :
  ∃ promoted,
    TetrisGame.next_piece
      (after (replicate 9 (Example.land TetrisGame.K_SPACE O_))
             (fresh (Example.draw O_))) = Some promoted ∧
    TetrisGame.current_piece Example.topped_out = Some promoted ∧
    (∀ key, TetrisGame.KeyDown TetrisGame.K_SPACE = TetrisGame.KeyDown key →
            ∃ x y, occupied promoted x y ∧
                   filled (TetrisGame.grid Example.topped_out) x y).
Proof.
  apply (X19_game_ends_only_when_a_piece_is_promoted 20
           (TetrisGame.KeyDown TetrisGame.K_SPACE) (Example.draw O_)
           (after (replicate 9 (Example.land TetrisGame.K_SPACE O_))
                  (fresh (Example.draw O_)))
           Example.topped_out).
  - apply reachable_after; [apply reachable_fresh|vm_compute; reflexivity..].
  - vm_compute. reflexivity.
  - vm_compute. reflexivity.
  - vm_compute. reflexivity.
Defined.

(** ** Random blocks *)

(** The scan of a column stops at its topmost block. *)
Lemma highest_block_top (grid : Grid) x n : ∀ a,
  wf_grid grid → x < Z.to_nat GRID_WIDTH → a + n = Z.to_nat GRID_HEIGHT →
  ∃ h, TetrisGame.highest_block grid x (seq a n) = Some h ∧
       a ≤ h ≤ Z.to_nat GRID_HEIGHT ∧
       (∀ y, a ≤ y < h → Py.getitem2 grid y x = Some None) ∧
       (h < Z.to_nat GRID_HEIGHT →
        ∃ color, Py.getitem2 grid h x = Some (Some color)).
Proof.
  induction n as [|n IH]; intros a Hwf Hx Han; simpl.
  - exists (Z.to_nat GRID_HEIGHT). split; [done|]. split; [lia|].
    split; intros; lia.
  - destruct (rect_getitem2 _ _ _ a x Hwf) as [cell Hcell]; [lia..|].
    rewrite Hcell. simpl. destruct cell as [color|]; simpl.
    + exists a. split; [done|]. split; [lia|]. split; [lia|]. by exists color.
    + destruct (IH (S a) Hwf Hx) as (h & -> & Hh & Hempty & Htop); [lia|].
      exists h. split; [done|]. split; [lia|]. split; [|done].
      intros y Hy. destruct (decide (y = a)) as [->|Hne]; [done|].
      apply Hempty. lia.
Qed.

Lemma valid_positions_tops (grid : Grid) :
  wf_grid grid →
  ∃ positions, TetrisGame.valid_positions grid = Some positions ∧
    (∀ x y, (x, y) ∈ positions →
       x < Z.to_nat GRID_WIDTH ∧ y < Z.to_nat GRID_HEIGHT ∧
       (∀ y', y' ≤ y → Py.getitem2 grid y' x = Some None) ∧
       (S y < Z.to_nat GRID_HEIGHT →
        ∃ color, Py.getitem2 grid (S y) x = Some (Some color))) ∧
    (positions = [] →
     ∀ x, x < Z.to_nat GRID_WIDTH →
          ∃ color, Py.getitem2 grid 0 x = Some (Some color)).
Proof.
  intros Hwf. unfold TetrisGame.valid_positions.
  destruct (for_each_invariant
    (λ done (positions : list (nat * nat)),
       (∀ x y, (x, y) ∈ positions →
          x < Z.to_nat GRID_WIDTH ∧ y < Z.to_nat GRID_HEIGHT ∧
          (∀ y', y' ≤ y → Py.getitem2 grid y' x = Some None) ∧
          (S y < Z.to_nat GRID_HEIGHT →
           ∃ color, Py.getitem2 grid (S y) x = Some (Some color))) ∧
       (positions = [] →
        ∀ x, x ∈ done → ∃ color, Py.getitem2 grid 0 x = Some (Some color)))
    (Py.range (Z.to_nat GRID_WIDTH))
    (λ x valid_positions,
      highest_block_y ← TetrisGame.highest_block grid x
                          (Py.range (Z.to_nat GRID_HEIGHT));
      if decide (0 < highest_block_y)
      then Some (valid_positions ++ [(x, highest_block_y - 1)])
      else Some valid_positions) []) as (ps & Hrun & Hps & Hnone).
  - split; [|intros _ x Hx; by apply not_elem_of_nil in Hx].
    intros x y H. by apply not_elem_of_nil in H.
  - intros done x ps Hx [Hps Hnone]. apply elem_of_seq in Hx.
    destruct (highest_block_top grid x (Z.to_nat GRID_HEIGHT) 0 Hwf)
      as (h & Hh & Hrange & Hempty & Htop); [lia|lia|].
    unfold Py.range. rewrite Hh. simpl.
    destruct (decide (0 < h)) as [Hpos|Hzero]; (eexists; split; [done|]).
    + split.
      * intros x' y' Hin. apply elem_of_app in Hin as [Hin|Hin]; [by apply Hps|].
        apply list_elem_of_singleton in Hin. injection Hin as -> ->.
        split; [lia|]. split; [lia|]. split.
        -- intros y' Hy'. apply Hempty. lia.
        -- intros Hbelow. replace (S (h - 1)) with h in * by lia.
           by apply Htop.
      * intros Hnil. by apply app_nil in Hnil as [_ ?].
    + split; [done|]. intros Hnil x' Hin.
      apply elem_of_app in Hin as [Hin|Hin]; [by apply Hnone|].
      apply list_elem_of_singleton in Hin. subst x'.
      replace h with 0 in * by lia. apply Htop.
      unfold GRID_HEIGHT. simpl. lia.
  - exists ps. split; [done|]. split; [done|].
    intros Hnil x Hx. apply Hnone; [done|]. apply elem_of_seq. lia.
Qed.

(** X20.  [spawn_random_block] either finds a block in row 0 of every
    column and changes nothing, or writes its colour into one cell and
    leaves the rest of the game alone; that cell and all cells above it in
    its column were empty, and it lies on the floor or directly on a
    block. *)
Theorem X20_random_block_lands_on_top_of_a_column choice color g :
  wf_grid (TetrisGame.grid g) →
  ∃ g', TetrisGame.spawn_random_block choice color g = Some g' ∧
    ((g' = g ∧
      ∀ x, x < Z.to_nat GRID_WIDTH →
           ∃ color', Py.getitem2 (TetrisGame.grid g) 0 x = Some (Some color')) ∨
     (∃ x y,
        x < Z.to_nat GRID_WIDTH ∧ y < Z.to_nat GRID_HEIGHT ∧
        (∀ y', y' ≤ y → Py.getitem2 (TetrisGame.grid g) y' x = Some None) ∧
        (S y < Z.to_nat GRID_HEIGHT →
         ∃ color', Py.getitem2 (TetrisGame.grid g) (S y) x
                   = Some (Some color')) ∧
        g' = TetrisGame.set_grid (TetrisGame.grid g') g ∧
        ∀ r c, Py.getitem2 (TetrisGame.grid g') r c =
               if decide (r = y ∧ c = x) then Some (Some color)
               else Py.getitem2 (TetrisGame.grid g) r c)).
Proof.
  intros Hwf. unfold TetrisGame.spawn_random_block.
  destruct (valid_positions_tops _ Hwf) as (ps & -> & Hps & Hnone). simpl.
  destruct ps as [|p0 ps'] eqn:Heq.
  { exists g. split; [done|]. left. split; [done|]. by apply Hnone. }
  rewrite <-Heq in *.
  destruct (lookup_lt_is_Some_2 ps (choice mod length ps)) as [[x y] Hxy].
  { apply Nat.mod_upper_bound. rewrite Heq. simpl. lia. }
  rewrite Hxy. simpl.
  destruct (Hps x y) as (Hx & Hy & Hempty & Hbelow);
    [by eapply list_elem_of_lookup_2|].
  destruct (setitem2_spec _ _ (TetrisGame.grid g) y x (Some color) Hwf Hy Hx)
    as (grid' & Hset & Hwf' & Hget).
  rewrite Hset. simpl. eexists. split; [done|]. right.
  exists x, y. simpl. done.
Qed.

Lemma X20_witness :
  ∃ g', TetrisGame.spawn_random_block 7 RED Example.resting = Some g' ∧
    ((g' = Example.resting ∧
      ∀ x, x < Z.to_nat GRID_WIDTH →
           ∃ color', Py.getitem2 (TetrisGame.grid Example.resting) 0 x
                     = Some (Some color')) ∨
     (∃ x y,
        x < Z.to_nat GRID_WIDTH ∧ y < Z.to_nat GRID_HEIGHT ∧
        (∀ y', y' ≤ y →
               Py.getitem2 (TetrisGame.grid Example.resting) y' x = Some None) ∧
        (S y < Z.to_nat GRID_HEIGHT →
         ∃ color', Py.getitem2 (TetrisGame.grid Example.resting) (S y) x
                   = Some (Some color')) ∧
        g' = TetrisGame.set_grid (TetrisGame.grid g') Example.resting ∧
        ∀ r c, Py.getitem2 (TetrisGame.grid g') r c =
               if decide (r = y ∧ c = x) then Some (Some RED)
               else Py.getitem2 (TetrisGame.grid Example.resting) r c)).
Proof.
  apply (X20_random_block_lands_on_top_of_a_column 7 RED Example.resting).
  split; [reflexivity|]. vm_compute. repeat constructor.
Defined.

(** ** Gravity *)

Lemma update_clear_fall_time dt g g' :
  TetrisGame.update_clear dt g = Some g' →
  TetrisGame.fall_time g' = TetrisGame.fall_time g.
Proof.
  unfold TetrisGame.update_clear.
  destruct (TetrisGame.lines_clearing g); [by intros [= <-]|].
  destruct (_ <=? _)%Z; [|by intros [= <-]].
  intros H. by destruct (finish_line_clear_frame _ _ H) as (_ & _ & -> & _).
Qed.

(** X21.  In a running game [update(dt)] lets the piece fall exactly when
    the fall time, advanced by [dt], has reached [fall_speed].  Before that
    the fall time accumulates and the piece stays.  Then the fall time
    restarts at 0 and the piece is one row lower when that position is
    valid, and is placed, with the next piece promoted, when it is not. *)
Theorem X21_piece_falls_when_the_fall_time_is_up dt d g piece g' :
  session_inv g →
  TetrisGame.game_over g = false → TetrisGame.paused g = false →
  TetrisGame.current_piece g = Some piece →
  TetrisGame.update dt d g = Some g' →
  ((TetrisGame.fall_time g + dt < TetrisGame.fall_speed g)%Z →
   TetrisGame.fall_time g' = (TetrisGame.fall_time g + dt)%Z ∧
   TetrisGame.current_piece g' = Some piece ∧
   TetrisGame.next_piece g' = TetrisGame.next_piece g) ∧
  ((TetrisGame.fall_speed g ≤ TetrisGame.fall_time g + dt)%Z →
   TetrisGame.fall_time g' = 0%Z ∧
   ∃ valid,
     TetrisGame.is_valid_position g (shift_down 1 piece) = Some valid ∧
     if valid
     then TetrisGame.current_piece g' = Some (shift_down 1 piece) ∧
          TetrisGame.next_piece g' = TetrisGame.next_piece g
     else TetrisGame.current_piece g' = TetrisGame.next_piece g ∧
          TetrisGame.next_piece g' =
            Some (Tetromino.init (GRID_WIDTH / 2 - 1) 0 (shape_draw d))).
Proof.
  intros Hinv Hover Hpaused Hcur. unfold TetrisGame.update.
  rewrite Hover, Hpaused. simpl.
  destruct (TetrisGame.update_fall dt d g) as [g1|] eqn:Hfall; [|done]. simpl.
  destruct (TetrisGame.update_clear dt g1) as [g2|] eqn:Hclear; [|done]. simpl.
  intros Hrandom.
  destruct (update_clear_pieces dt g1 g2 Hclear) as [Hc2 Hn2].
  pose proof (update_clear_fall_time dt g1 g2 Hclear) as Hf2.
  destruct (update_random_pieces dt d g2 g' Hrandom) as [Hc3 Hn3].
  destruct (update_random_frame dt d g2 g' Hrandom)
    as (_ & _ & _ & _ & Hf3 & _).
  rewrite Hc3, Hn3, Hc2, Hn2, Hf3, Hf2.
  unfold TetrisGame.update_fall in Hfall.
  set (g0 := TetrisGame.set_fall_time (TetrisGame.fall_time g + dt) g) in *.
  assert (session_inv g0) as Hinv0 by (by apply (session_inv_fields g)).
  change (TetrisGame.fall_speed g0) with (TetrisGame.fall_speed g) in Hfall.
  change (TetrisGame.fall_time g0) with (TetrisGame.fall_time g + dt)%Z in Hfall.
  destruct (Z.leb_spec (TetrisGame.fall_speed g) (TetrisGame.fall_time g + dt))
    as [Hfire|Hwait].
  - split; [lia|]. intros _.
    pose proof Hinv0 as (Hwf & (piece' & Hcur' & Hpiece) & _).
    change (TetrisGame.current_piece g0) with (TetrisGame.current_piece g)
      in Hcur'.
    rewrite Hcur in Hcur'. injection Hcur' as <-.
    destruct (move_piece_spec 0 1 (shape_draw d) g0 piece Hwf Hcur Hpiece)
      as (valid & Hvalid & Hres).
    rewrite Hres in Hfall. clear Hres.
    rewrite Z.add_0_r in *.
    change (Tetromino.set_xy _ _ piece) with (shift_down 1 piece) in *.
    rewrite (is_valid_position_grid g0 g) in Hvalid by done.
    destruct valid.
    + simpl in Hfall. injection Hfall as <-. split; [done|].
      exists true. done.
    + change (0 <? 1)%Z with true in Hfall. cbn iota in Hfall.
      destruct (place_piece_spec (shape_draw d) g0 Hinv0)
        as (? & ? & ? & ? & g3 & _ & _ & _ & _ & _ & Hplace & _ & _ & Hc & Hn & _).
      rewrite Hplace in Hfall. simpl in Hfall. injection Hfall as <-.
      split; [done|]. exists false. done.
  - injection Hfall as <-. split; [|lia]. done.
Qed.

Lemma X21_witness :
  ∃ g',
    TetrisGame.update 600 (Example.draw J_) Example.resting = Some g' ∧
    ((TetrisGame.fall_time Example.resting + 600
      < TetrisGame.fall_speed Example.resting)%Z →
     TetrisGame.fall_time g' = (TetrisGame.fall_time Example.resting + 600)%Z ∧
     TetrisGame.current_piece g' = Some (Tetromino.init 4 17 T_) ∧
     TetrisGame.next_piece g' = TetrisGame.next_piece Example.resting) ∧
    ((TetrisGame.fall_speed Example.resting
      ≤ TetrisGame.fall_time Example.resting + 600)%Z →
     TetrisGame.fall_time g' = 0%Z ∧
     ∃ valid,
       TetrisGame.is_valid_position Example.resting
         (shift_down 1 (Tetromino.init 4 17 T_)) = Some valid ∧
       if valid
       then TetrisGame.current_piece g' =
              Some (shift_down 1 (Tetromino.init 4 17 T_)) ∧
            TetrisGame.next_piece g' = TetrisGame.next_piece Example.resting
       else TetrisGame.current_piece g' = TetrisGame.next_piece Example.resting ∧
            TetrisGame.next_piece g' =
              Some (Tetromino.init (GRID_WIDTH / 2 - 1) 0
                      (shape_draw (Example.draw J_)))).
Proof.
  assert (∃ g', TetrisGame.update 600 (Example.draw J_) Example.resting
                = Some g') as [g' Hupdate]
    by (eexists; vm_compute; reflexivity).
  exists g'. split; [exact Hupdate|].
  apply (X21_piece_falls_when_the_fall_time_is_up 600 (Example.draw J_)
           Example.resting (Tetromino.init 4 17 T_) g').
  - apply reachable_inv.
    apply reachable_after; [|vm_compute; reflexivity..].
    apply reachable_after; [apply reachable_fresh|vm_compute; reflexivity..].
  - vm_compute. reflexivity.
  - vm_compute. reflexivity.
  - vm_compute. reflexivity.
  - exact Hupdate.
Defined.

(** ** Restart *)

(** X22.  The R key always returns, whatever the state: to an empty
    playfield with two new pieces at the spawn position, score 0, level 1,
    the game neither over nor paused, random blocks switched off, no rows
    pending and all timers at 0.  Nothing of the state before survives. *)
Theorem X22_restart_resets_the_game fuel d g :
  ∃ g',
    TetrisGame.run_input fuel (TetrisGame.KeyDown TetrisGame.K_r) d g
      = TetrisGame.Returned g' ∧
    (∀ r c, r < Z.to_nat GRID_HEIGHT → c < Z.to_nat GRID_WIDTH →
            Py.getitem2 (TetrisGame.grid g') r c = Some None) ∧
    wf_grid (TetrisGame.grid g') ∧
    TetrisGame.current_piece g' =
      Some (Tetromino.init (GRID_WIDTH / 2 - 1) 0 (shape_draw d)) ∧
    TetrisGame.next_piece g' =
      Some (Tetromino.init (GRID_WIDTH / 2 - 1) 0 (shape_draw' d)) ∧
    TetrisGame.is_valid_position g'
      (Tetromino.init (GRID_WIDTH / 2 - 1) 0 (shape_draw d)) = Some true ∧
    TetrisGame.score g' = 0%Z ∧ TetrisGame.lines_cleared g' = 0%Z ∧
    TetrisGame.level g' = 1%Z ∧ TetrisGame.fall_speed g' = 1000%Z ∧
    TetrisGame.game_over g' = false ∧ TetrisGame.paused g' = false ∧
    TetrisGame.random_blocks_enabled g' = false ∧
    TetrisGame.lines_clearing g' = [] ∧
    TetrisGame.fall_time g' = 0%Z ∧
    TetrisGame.clear_animation_time g' = 0%Z ∧
    TetrisGame.random_block_time g' = 0%Z ∧
    (15000 ≤ TetrisGame.random_block_interval g' ≤ 30000)%Z.
Proof.
  exists (fresh d). unfold TetrisGame.run_input, TetrisGame.handle_key.
  rewrite init_fresh. split; [done|]. split.
  { intros r c Hr Hc. by apply getitem2_replicate. }
  split; [apply rect_replicate|].
  split; [done|]. split; [done|]. split.
  { by destruct (shape_draw d). }
  pose proof (random_interval_range (interval_draw d)).
  simpl. split_and!; try done; lia.
Qed.
